(** * Crawl-state engine of the Reddit scraper: dedup store, export batcher,
      checkpoint store, recovery loops, discovery and the phase machine.

    The development follows the Python sources:
    - [pipeline.py]: [DeduplicationManager], [UserExporter], [PipelineState],
      and of [IntegratedPipeline] the batch loop [_process_subreddit_batch],
      [run] and [_signal_handler];
    - [src/checkpoint.py]: [ScraperState], [CheckpointManager];
    - [src/gluetun_controller.py]: [GluetunController.restart_for_new_ip];
    - [src/main.py]: [NSFWSubredditScraper._run_with_recovery] and [run];
    - [src/discovery.py]: the three paged listings, [discover_related] and
      [explore_related_queue];
    - [mini/scrape_commenters.py]: [extract_commenters],
      [normalize_permalink], [load_subreddits_from_file] and
      [gather_commenters_for_subreddit] with its [fetch_with_retry].

    Python sets of strings are [gset string], lists are [list], integers that
    come from the command line are [Z], counters that start at zero and only
    grow are [nat].  Names are ASCII strings (Reddit names are drawn from
    letters, digits, underscore and hyphen), so [str.lower] and the ordering of
    [sorted] are the ASCII ones.  Files hold either text or an already parsed
    JSON document; [json.dump] followed by [json.load] is taken to be the
    identity on documents, and a document has the field types the code
    writes.  In [pipeline.py] a failing disk write is a failing
    [open(..., "w")], which leaves the file as it was, and the existence
    tests on the files of the output directory answer (when one of them
    raises, a constructor raises and no process starts); for the checkpoint
    file a write may also fail after the file was truncated, and the
    existence test on its path may raise.  A call of [pipeline.py] runs to
    its end unless it raises; a process that is stopped inside
    [export_chunks] has its own section. *)

From Stdlib Require Import ZArith Lia Ascii String.
From stdpp Require Import gmap strings list sorting sets.

Set Warnings "-clear-no-such-hyp".
Open Scope string_scope.

(* ===================================================================== *)
(** ** Strings: [str.lower], [str.strip], line iteration, [sorted]        *)
(* ===================================================================== *)

Module Str.

(** [c.lower()] on one ASCII character. *)
Definition lower_ascii (c : ascii) : ascii :=
  let n := Ascii.N_of_ascii c in
  if ((65 <=? n) && (n <=? 90))%N then Ascii.ascii_of_N (n + 32) else c.

(** [s.lower()]. *)
Fixpoint lower (s : string) : string :=
  match s with
  | EmptyString => EmptyString
  | String c s' => String (lower_ascii c) (lower s')
  end.

(** [c.isspace()] on ASCII: tab, line feed, vertical tab, form feed,
    carriage return, the four separators 28..31, and space. *)
Definition isspace (c : ascii) : bool :=
  let n := Ascii.N_of_ascii c in
  (((9 <=? n) && (n <=? 13)) || ((28 <=? n) && (n <=? 32)))%N.

(** A line terminator of a text file opened with universal newlines. *)
Definition is_line_break (c : ascii) : bool :=
  let n := Ascii.N_of_ascii c in ((n =? 10) || (n =? 13))%N.

Fixpoint lstrip (s : string) : string :=
  match s with
  | EmptyString => EmptyString
  | String c s' => if isspace c then lstrip s' else s
  end.

Fixpoint rstrip (s : string) : string :=
  match s with
  | EmptyString => EmptyString
  | String c s' =>
      match rstrip s' with
      | EmptyString => if isspace c then EmptyString else String c EmptyString
      | r => String c r
      end
  end.

(** [s.strip()]. *)
Definition strip (s : string) : string := rstrip (lstrip s).

(** [for line in f]: the lines of a text, without their terminators (the
    callers strip every line, so the terminators are never observed). *)
Fixpoint read_lines (s : string) : list string :=
  match s with
  | EmptyString => []
  | String c s' =>
      if is_line_break c then EmptyString :: read_lines s'
      else match read_lines s' with
           | [] => [String c EmptyString]
           | l :: ls => String c l :: ls
           end
  end.

(** [sorted(xs)] on strings: ascending, code point by code point. *)
Definition sorted (xs : list string) : list string := merge_sort String.le xs.

(** A name without any white space character. *)
Fixpoint no_space (s : string) : bool :=
  match s with
  | EmptyString => true
  | String c s' => negb (isspace c) && no_space s'
  end.

(** A well-formed name: not empty, no white space. *)
Definition clean (s : string) : bool :=
  negb (bool_decide (s = EmptyString)) && no_space s.

End Str.

(* ===================================================================== *)
(** ** Results of calls that may raise                                     *)
(* ===================================================================== *)

Inductive exn : Type :=
  | OSError
  | ValueError
  | RedditRateLimitError
  | RedditBlockedError
  | GluetunControllerError
  | TooManyRequestsError
  | OtherError (msg : string).

Inductive result (A : Type) : Type :=
  | Ok (a : A)
  | Raise (e : exn).
Arguments Ok {A} a.
Arguments Raise {A} e.

(* ===================================================================== *)
(** ** pipeline.py                                                         *)
(* ===================================================================== *)

Module Pipeline.

Definition DEDUP_PERSIST_INTERVAL : nat := 100.
Definition USERS_EXPORT_THRESHOLD : Z := 5000.

(** The files of the output directory. *)
Inductive path : Type :=
  | SubredditFile          (* dedup_subreddits.json *)
  | UsersFile              (* dedup_users.txt *)
  | ExporterStateFile      (* users/exporter_state.json *)
  | PipelineStateFile      (* pipeline_state.json *)
  | ChunkCsv (n : nat)     (* users/users_chunk_NNNN.csv *)
  | ChunkJson (n : nat).   (* users/users_chunk_NNNN.json *)

(** dedup_subreddits.json: the two keys are read with [data.get(key, [])]. *)
Record SubredditDoc : Type := {
  doc_discovered : option (list string);
  doc_processed : option (list string) }.

(** exporter_state.json, every key read with a default. *)
Record ExporterDoc : Type := {
  doc_chunk_count : option nat;
  doc_total_exported : option nat;
  doc_total_uploaded : option nat;
  doc_pending_users : option (list string) }.

(** pipeline_state.json. *)
Record PipelineDoc : Type := {
  doc_current_batch : option (list string) }.

(** users_chunk_NNNN.json. *)
Record ChunkDoc : Type := {
  doc_users : list string;
  doc_count : nat }.

Record Disk : Type := {
  subreddit_file : option SubredditDoc;
  users_file : option string;
  exporter_state_file : option ExporterDoc;
  pipeline_state_file : option PipelineDoc;
  chunk_csv : gmap nat (list string);           (* rows, header first *)
  chunk_json : gmap nat ChunkDoc }.

Definition empty_disk : Disk :=
  {| subreddit_file := None; users_file := None; exporter_state_file := None;
     pipeline_state_file := None; chunk_csv := ∅; chunk_json := ∅ |}.

Record DeduplicationManager : Type := {
  discovered_subreddits : gset string;
  processed_subreddits : gset string;
  queued_subreddits : gset string;
  seen_users : gset string;
  ops_since_save : nat;
  user_ops_since_save : nat }.

Record UserExporter : Type := {
  pending_users : gset string;
  chunk_count : nat;
  total_exported : nat;
  total_uploaded : nat }.

(** One process: the dedup manager shared by the exporter and the pipeline
    state, the exporter's own fields, [PipelineState.current_batch], and the
    disk they all write to. *)
Record World : Type := {
  dedup : DeduplicationManager;
  exporter : UserExporter;
  current_batch : list string;
  disk : Disk }.

Definition M (A : Type) : Type := World → result A * World.

Definition ret {A} (a : A) : M A := λ w, (Ok a, w).
Definition raise {A} (e : exn) : M A := λ w, (Raise e, w).
Definition bind {A B} (m : M A) (k : A → M B) : M B :=
  λ w, match m w with
       | (Ok a, w') => k a w'
       | (Raise e, w') => (Raise e, w')
       end.
Definition get : M World := λ w, (Ok w, w).
(** [try: m except Exception: pass] *)
Definition swallow (m : M unit) : M unit :=
  λ w, match m w with
       | (Ok _, w') => (Ok tt, w')
       | (Raise _, w') => (Ok tt, w')
       end.

Declare Scope pipeline_scope.
Delimit Scope pipeline_scope with pl.
Notation "'do' x <- m ; k" := (bind m (λ x, k))
  (at level 10, x name, m at level 100, k at level 200) : pipeline_scope.
Notation "'exec' m ; k" := (bind m (λ _, k))
  (at level 10, m at level 100, k at level 200) : pipeline_scope.
Open Scope pipeline_scope.

Definition set_dedup (d : DeduplicationManager) : M unit :=
  λ w, (Ok tt, {| dedup := d; exporter := exporter w;
                  current_batch := current_batch w; disk := disk w |}).
Definition set_exporter (e : UserExporter) : M unit :=
  λ w, (Ok tt, {| dedup := dedup w; exporter := e;
                  current_batch := current_batch w; disk := disk w |}).
Definition set_disk (k : Disk) : M unit :=
  λ w, (Ok tt, {| dedup := dedup w; exporter := exporter w;
                  current_batch := current_batch w; disk := k |}).

Section WithEnvironment.

(** [io p] tells whether opening [p] for writing succeeds. *)
Variable io : path → bool.
(** The module global [USERS_CHUNK_SIZE], set from [--chunk-size]. *)
Variable USERS_CHUNK_SIZE : Z.
(** The uploader: [None] when absent or disabled, otherwise the number of
    files [upload_files] reports as transferred. *)
Variable ssh : option (list path → nat).

(** [with p.open("w") as f: ...] writing the whole new content. *)
Definition open_w (p : path) (write : Disk → Disk) : M unit :=
  if io p then (do w <- get; set_disk (write (disk w))) else raise OSError.

(* ----------------------------------------------------------------- *)
(** *** DeduplicationManager                                          *)
(* ----------------------------------------------------------------- *)

Definition users_text (seen : gset string) : string :=
  foldr (λ user rest, user +:+ String "010"%char rest) EmptyString
        (Str.sorted (elements seen)).

Definition write_subreddit_file (d : DeduplicationManager) (k : Disk) : Disk :=
  {| subreddit_file :=
       Some {| doc_discovered := Some (elements (discovered_subreddits d));
               doc_processed := Some (elements (processed_subreddits d)) |};
     users_file := users_file k;
     exporter_state_file := exporter_state_file k;
     pipeline_state_file := pipeline_state_file k;
     chunk_csv := chunk_csv k; chunk_json := chunk_json k |}.

Definition write_users_file (d : DeduplicationManager) (k : Disk) : Disk :=
  {| subreddit_file := subreddit_file k;
     users_file := Some (users_text (seen_users d));
     exporter_state_file := exporter_state_file k;
     pipeline_state_file := pipeline_state_file k;
     chunk_csv := chunk_csv k; chunk_json := chunk_json k |}.

Definition reset_ops (d : DeduplicationManager) : DeduplicationManager :=
  {| discovered_subreddits := discovered_subreddits d;
     processed_subreddits := processed_subreddits d;
     queued_subreddits := queued_subreddits d;
     seen_users := seen_users d;
     ops_since_save := 0;
     user_ops_since_save := user_ops_since_save d |}.

Definition reset_user_ops (d : DeduplicationManager) : DeduplicationManager :=
  {| discovered_subreddits := discovered_subreddits d;
     processed_subreddits := processed_subreddits d;
     queued_subreddits := queued_subreddits d;
     seen_users := seen_users d;
     ops_since_save := ops_since_save d;
     user_ops_since_save := 0 |}.

(** [DeduplicationManager.save_state]: both writes sit in their own
    [try ... except Exception] that only prints. *)
Definition save_state (force : bool) : M unit :=
  do w <- get;
  exec (if force || bool_decide (DEDUP_PERSIST_INTERVAL ≤ ops_since_save (dedup w))%nat
      then swallow (exec open_w SubredditFile (write_subreddit_file (dedup w));
                    do w1 <- get; set_dedup (reset_ops (dedup w1)))
      else ret tt);
  do w <- get;
  if force || bool_decide (DEDUP_PERSIST_INTERVAL * 10 ≤ user_ops_since_save (dedup w))%nat
  then swallow (exec open_w UsersFile (write_users_file (dedup w));
                do w1 <- get; set_dedup (reset_user_ops (dedup w1)))
  else ret tt.

Definition is_subreddit_seen (name : string) (d : DeduplicationManager) : bool :=
  bool_decide (Str.lower name ∈ discovered_subreddits d).
Definition is_subreddit_processed (name : string) (d : DeduplicationManager) : bool :=
  bool_decide (Str.lower name ∈ processed_subreddits d).
Definition is_subreddit_queued (name : string) (d : DeduplicationManager) : bool :=
  bool_decide (Str.lower name ∈ queued_subreddits d).
Definition should_process_subreddit (name : string) (d : DeduplicationManager) : bool :=
  let name_lower := Str.lower name in
  bool_decide (name_lower ∉ discovered_subreddits d)
  && bool_decide (name_lower ∉ processed_subreddits d)
  && bool_decide (name_lower ∉ queued_subreddits d).

Definition mark_subreddit_discovered (name : string) : M bool :=
  do w <- get;
  let d := dedup w in
  let name_lower := Str.lower name in
  if bool_decide (name_lower ∈ discovered_subreddits d) then ret false
  else
    let d' :=
      {| discovered_subreddits := discovered_subreddits d ∪ {[name_lower]};
         processed_subreddits := processed_subreddits d;
         queued_subreddits := queued_subreddits d;
         seen_users := seen_users d;
         ops_since_save := ops_since_save d + 1;
         user_ops_since_save := user_ops_since_save d |} in
    exec set_dedup d';
    exec (if bool_decide (DEDUP_PERSIST_INTERVAL ≤ ops_since_save d')%nat
        then save_state false else ret tt);
    ret true.

Definition mark_subreddit_queued (name : string) : M unit :=
  do w <- get;
  let d := dedup w in
  set_dedup
    {| discovered_subreddits := discovered_subreddits d;
       processed_subreddits := processed_subreddits d;
       queued_subreddits := queued_subreddits d ∪ {[Str.lower name]};
       seen_users := seen_users d;
       ops_since_save := ops_since_save d;
       user_ops_since_save := user_ops_since_save d |}.

Definition mark_subreddit_processed (name : string) : M unit :=
  do w <- get;
  let d := dedup w in
  let name_lower := Str.lower name in
  let d' :=
    {| discovered_subreddits := discovered_subreddits d;
       processed_subreddits := processed_subreddits d ∪ {[name_lower]};
       queued_subreddits := queued_subreddits d ∖ {[name_lower]};
       seen_users := seen_users d;
       ops_since_save := ops_since_save d + 1;
       user_ops_since_save := user_ops_since_save d |} in
  exec set_dedup d';
  if bool_decide (DEDUP_PERSIST_INTERVAL ≤ ops_since_save d')%nat
  then save_state false else ret tt.

Definition clear_queue : M unit :=
  do w <- get;
  let d := dedup w in
  set_dedup
    {| discovered_subreddits := discovered_subreddits d;
       processed_subreddits := processed_subreddits d;
       queued_subreddits := ∅;
       seen_users := seen_users d;
       ops_since_save := ops_since_save d;
       user_ops_since_save := user_ops_since_save d |}.

Definition set_queue (subreddits : list string) : M unit :=
  do w <- get;
  let d := dedup w in
  set_dedup
    {| discovered_subreddits := discovered_subreddits d;
       processed_subreddits := processed_subreddits d;
       queued_subreddits := list_to_set (Str.lower <$> subreddits);
       seen_users := seen_users d;
       ops_since_save := ops_since_save d;
       user_ops_since_save := user_ops_since_save d |}.

Definition is_user_seen (username : string) (d : DeduplicationManager) : bool :=
  bool_decide (Str.lower username ∈ seen_users d).

Definition filter_new_users (users : gset string) : M (gset string) :=
  do w <- get;
  let d := dedup w in
  let users_lower : gset string := set_map Str.lower users in
  let new_users_lower := users_lower ∖ seen_users d in
  if bool_decide (new_users_lower = ∅) then ret ∅
  else
    let new_users := filter (λ u, Str.lower u ∈ new_users_lower) users in
    let d' :=
      {| discovered_subreddits := discovered_subreddits d;
         processed_subreddits := processed_subreddits d;
         queued_subreddits := queued_subreddits d;
         seen_users := seen_users d ∪ new_users_lower;
         ops_since_save := ops_since_save d;
         user_ops_since_save := user_ops_since_save d + size new_users_lower |} in
    exec set_dedup d';
    exec (if bool_decide (DEDUP_PERSIST_INTERVAL * 10 ≤ user_ops_since_save d')%nat
        then save_state false else ret tt);
    ret new_users.

(** [DeduplicationManager.add_users]: adds to the seen set only. *)
Definition dedup_add_users (users : gset string) : M nat :=
  do w <- get;
  let d := dedup w in
  let users_lower : gset string := set_map Str.lower users in
  let new_count := size (users_lower ∖ seen_users d) in
  let d' :=
    {| discovered_subreddits := discovered_subreddits d;
       processed_subreddits := processed_subreddits d;
       queued_subreddits := queued_subreddits d;
       seen_users := seen_users d ∪ users_lower;
       ops_since_save := ops_since_save d;
       user_ops_since_save := user_ops_since_save d + new_count |} in
  exec set_dedup d';
  exec (if bool_decide (DEDUP_PERSIST_INTERVAL * 10 ≤ user_ops_since_save d')%nat
        then save_state false else ret tt);
  ret new_count.

(** [DeduplicationManager._load_state], on the files as they are on disk. *)
Definition load_users (k : Disk) : gset string :=
  match users_file k with
  | Some text =>
      list_to_set (filter (λ l, l ≠ EmptyString) (Str.strip <$> Str.read_lines text))
  | None => ∅
  end.

Definition DeduplicationManager_init (k : Disk) : DeduplicationManager :=
  {| discovered_subreddits :=
       match subreddit_file k with
       | Some doc => list_to_set (default [] (doc_discovered doc))
       | None => ∅
       end;
     processed_subreddits :=
       match subreddit_file k with
       | Some doc => list_to_set (default [] (doc_processed doc))
       | None => ∅
       end;
     queued_subreddits := ∅;
     seen_users := load_users k;
     ops_since_save := 0;
     user_ops_since_save := 0 |}.

(* ----------------------------------------------------------------- *)
(** *** UserExporter                                                  *)
(* ----------------------------------------------------------------- *)

Definition UserExporter_init (k : Disk) : UserExporter :=
  match exporter_state_file k with
  | Some state =>
      {| pending_users := list_to_set (default [] (doc_pending_users state));
         chunk_count := default 0 (doc_chunk_count state);
         total_exported := default 0 (doc_total_exported state);
         total_uploaded := default 0 (doc_total_uploaded state) |}
  | None =>
      {| pending_users := ∅; chunk_count := 0;
         total_exported := 0; total_uploaded := 0 |}
  end.

Definition write_exporter_state (e : UserExporter) (k : Disk) : Disk :=
  {| subreddit_file := subreddit_file k;
     users_file := users_file k;
     exporter_state_file :=
       Some {| doc_chunk_count := Some (chunk_count e);
               doc_total_exported := Some (total_exported e);
               doc_total_uploaded := Some (total_uploaded e);
               doc_pending_users := Some (elements (pending_users e)) |};
     pipeline_state_file := pipeline_state_file k;
     chunk_csv := chunk_csv k; chunk_json := chunk_json k |}.

(** [UserExporter._save_state]: the write is not guarded. *)
Definition _save_state : M unit :=
  do w <- get;
  open_w ExporterStateFile (write_exporter_state (exporter w)).

Definition add_users (users : gset string) : M nat :=
  do new_users <- filter_new_users users;
  do w <- get;
  let e := exporter w in
  exec (if bool_decide (new_users ≠ ∅)
        then set_exporter
               {| pending_users := pending_users e ∪ new_users;
                  chunk_count := chunk_count e;
                  total_exported := total_exported e;
                  total_uploaded := total_uploaded e |}
        else ret tt);
  ret (size new_users).

Definition should_export (threshold : Z) (e : UserExporter) : bool :=
  bool_decide (threshold ≤ Z.of_nat (size (pending_users e)))%Z.

(** [range(0, n, step)]. *)
Definition py_range (n : nat) (step : Z) : result (list nat) :=
  if bool_decide (step = 0)%Z then Raise ValueError
  else if bool_decide (step < 0)%Z then Ok []
  else match n with
       | O => Ok []
       | S n' => Ok ((λ j, j * Z.to_nat step)%nat <$> seq 0 (n' / Z.to_nat step + 1))
       end.

Definition write_chunk_csv (n : nat) (chunk : list string) (k : Disk) : Disk :=
  {| subreddit_file := subreddit_file k;
     users_file := users_file k;
     exporter_state_file := exporter_state_file k;
     pipeline_state_file := pipeline_state_file k;
     chunk_csv := <[n := "username" :: chunk]> (chunk_csv k);
     chunk_json := chunk_json k |}.

Definition write_chunk_json (n : nat) (chunk : list string) (k : Disk) : Disk :=
  {| subreddit_file := subreddit_file k;
     users_file := users_file k;
     exporter_state_file := exporter_state_file k;
     pipeline_state_file := pipeline_state_file k;
     chunk_csv := chunk_csv k;
     chunk_json :=
       <[n := {| doc_users := chunk; doc_count := length chunk |}]> (chunk_json k) |}.

(** One turn of the loop of [export_chunks]. *)
Definition export_one (users_list : list string) (i : nat) : M (list path) :=
  let chunk := take (Z.to_nat USERS_CHUNK_SIZE) (drop i users_list) in
  do w <- get;
  let e := exporter w in
  let n := (chunk_count e + 1)%nat in
  exec set_exporter
         {| pending_users := pending_users e; chunk_count := n;
            total_exported := total_exported e;
            total_uploaded := total_uploaded e |};
  exec open_w (ChunkCsv n) (write_chunk_csv n chunk);
  exec open_w (ChunkJson n) (write_chunk_json n chunk);
  ret [ChunkCsv n; ChunkJson n].

Fixpoint export_loop (users_list : list string) (idxs : list nat)
         (files_created : nat) (chunk_files : list path) : M (nat * list path) :=
  match idxs with
  | [] => ret (files_created, chunk_files)
  | i :: idxs' =>
      do ps <- export_one users_list i;
      export_loop users_list idxs' (files_created + 1) (chunk_files ++ ps)
  end.

Definition export_chunks (force : bool) (threshold : Z) : M nat :=
  do w <- get;
  if negb force && bool_decide (Z.of_nat (size (pending_users (exporter w))) < threshold)%Z
  then ret 0%nat
  else if bool_decide (pending_users (exporter w) = ∅) then ret 0%nat
  else
    let users_list := Str.sorted (elements (pending_users (exporter w))) in
    match py_range (length users_list) USERS_CHUNK_SIZE with
    | Raise e => raise e
    | Ok idxs =>
        do r <- export_loop users_list idxs 0 [];
        let '(files_created, chunk_files) := r in
        do w <- get;
        let e := exporter w in
        exec set_exporter
               {| pending_users := ∅; chunk_count := chunk_count e;
                  total_exported := total_exported e + size (pending_users e);
                  total_uploaded := total_uploaded e |};
        exec (match ssh with
              | Some upload_files =>
                  if bool_decide (chunk_files ≠ []) then
                    do w <- get;
                    let e := exporter w in
                    set_exporter
                      {| pending_users := pending_users e;
                         chunk_count := chunk_count e;
                         total_exported := total_exported e;
                         total_uploaded := total_uploaded e + upload_files chunk_files |}
                  else ret tt
              | None => ret tt
              end);
        exec _save_state;
        exec save_state true;
        ret files_created
    end.

(* ----------------------------------------------------------------- *)
(** *** PipelineState                                                 *)
(* ----------------------------------------------------------------- *)

Definition write_pipeline_state (b : list string) (k : Disk) : Disk :=
  {| subreddit_file := subreddit_file k;
     users_file := users_file k;
     exporter_state_file := exporter_state_file k;
     pipeline_state_file := Some {| doc_current_batch := Some b |};
     chunk_csv := chunk_csv k; chunk_json := chunk_json k |}.

(** [PipelineState.save]: the write of pipeline_state.json is not guarded. *)
Definition PipelineState_save : M unit :=
  do w <- get;
  exec open_w PipelineStateFile (write_pipeline_state (current_batch w));
  save_state true.

(** [IntegratedPipeline.__init__]: the three components built from disk;
    [PipelineState._load] puts a non-empty saved batch into the queue. *)
Definition start (k : Disk) : World :=
  let d := DeduplicationManager_init k in
  let batch :=
    match pipeline_state_file k with
    | Some data => default [] (doc_current_batch data)
    | None => []
    end in
  {| dedup :=
       {| discovered_subreddits := discovered_subreddits d;
          processed_subreddits := processed_subreddits d;
          queued_subreddits :=
            match batch with
            | [] => queued_subreddits d
            | _ => list_to_set (Str.lower <$> batch)
            end;
          seen_users := seen_users d;
          ops_since_save := ops_since_save d;
          user_ops_since_save := user_ops_since_save d |};
     exporter := UserExporter_init k;
     current_batch := batch;
     disk := k |}.

(** What a process does to the export side, one call after another, each
    call running to its end.  A call that raises ends the process; the next
    one starts from the disk.  A process that is killed or signalled inside
    a call is not a history of this kind ([PipelineInterrupts] has it). *)
Inductive op : Type :=
  | AddUsers (users : gset string)
  | ExportChunks (force : bool) (threshold : Z)
  | SaveDedup (force : bool)
  | Restart.

Definition after {A} (r : result A * World) : World :=
  match r with
  | (Ok _, w) => w
  | (Raise _, w) => start (disk w)
  end.

Definition step (w : World) (o : op) : World :=
  match o with
  | AddUsers users => after (add_users users w)
  | ExportChunks force threshold => after (export_chunks force threshold w)
  | SaveDedup force => after (save_state force w)
  | Restart => start (disk w)
  end.

Definition run_ops (ops : list op) (w : World) : World := foldl step w ops.

End WithEnvironment.

(** The identity lists of all chunk files on disk. *)
Definition exported_json (k : Disk) : list string :=
  concat ((λ kv, doc_users kv.2) <$> map_to_list (chunk_json k)).
Definition exported_csv (k : Disk) : list string :=
  concat ((λ kv, tail kv.2) <$> map_to_list (chunk_csv k)).

End Pipeline.

(* ===================================================================== *)
(** ** src/checkpoint.py                                                   *)
(* ===================================================================== *)

Module Checkpoint.

(** [SubredditInfo.to_dict()]: one entry of [discovered_subreddits]. *)
Record SubredditDict : Type := {
  subreddit_name : string;
  subscribers : Z;
  over18 : bool }.

Record ScraperState : Type := {
  discovered_subreddits : list SubredditDict;
  discovered_names : gset string;
  explore_queue : list string;
  completed_keywords : list string;
  current_phase : string }.

(** [ScraperState()]: the field defaults of the dataclass. *)
Definition ScraperState_default : ScraperState :=
  {| discovered_subreddits := []; discovered_names := ∅;
     explore_queue := []; completed_keywords := []; current_phase := "init" |}.

(** The JSON object of the checkpoint file; a key may be missing. *)
Record CheckpointDoc : Type := {
  doc_discovered_subreddits : option (list SubredditDict);
  doc_discovered_names : option (list string);
  doc_explore_queue : option (list string);
  doc_completed_keywords : option (list string);
  doc_current_phase : option string }.

Definition to_dict (s : ScraperState) : CheckpointDoc :=
  {| doc_discovered_subreddits := Some (discovered_subreddits s);
     doc_discovered_names := Some (elements (discovered_names s));
     doc_explore_queue := Some (explore_queue s);
     doc_completed_keywords := Some (completed_keywords s);
     doc_current_phase := Some (current_phase s) |}.

Definition from_dict (data : CheckpointDoc) : ScraperState :=
  {| discovered_subreddits := default [] (doc_discovered_subreddits data);
     discovered_names := list_to_set (default [] (doc_discovered_names data));
     explore_queue := default [] (doc_explore_queue data);
     completed_keywords := default [] (doc_completed_keywords data);
     current_phase := default "init" (doc_current_phase data) |}.

(** The checkpoint file: absent, present but not loadable (the [try] block
    of [load] raises [e]: [open] fails, [json.load] rejects the text, or
    [from_dict] is given something that is not a JSON object), or a
    document. *)
Inductive file : Type :=
  | Missing
  | Unreadable (e : exn)
  | Document (d : CheckpointDoc).

(** What the disk does with one write of the checkpoint. *)
Inductive write_outcome : Type :=
  | Written          (* the whole document reaches the file *)
  | OpenFailed       (* [open] raises: the file is left as it was *)
  | DumpFailed.      (* [json.dump] raises after [open] truncated the file *)

(** What [Path.exists] meets on the checkpoint path in this process: [stat]
    answers, or it raises an [OSError] that [exists] does not turn into
    [False] (it does so for ENOENT, ENOTDIR, EBADF and ELOOP only; a parent
    directory that may not be searched gives EACCES, a [PermissionError]). *)
Inductive stat_outcome : Type :=
  | Answers
  | Denied.

(** [CheckpointManager.save]: any exception is logged and dropped.  The text
    a failed [json.dump] leaves behind is rejected by [json.load] with a
    [JSONDecodeError], which is a [ValueError]. *)
Definition save (o : write_outcome) (state : ScraperState) (f : file) : file :=
  match o with
  | Written => Document (to_dict state)
  | OpenFailed => f
  | DumpFailed => Unreadable ValueError
  end.

(** [self.checkpoint_file.exists()]. *)
Definition exists_ (st : stat_outcome) (f : file) : result bool :=
  match st with
  | Answers => Ok (match f with Missing => false | _ => true end)
  | Denied => Raise OSError
  end.

(** The [try] block of [load]: [open], [json.load], [from_dict]. *)
Definition read_checkpoint (f : file) : result ScraperState :=
  match f with
  | Missing => Raise OSError
  | Unreadable e => Raise e
  | Document data => Ok (from_dict data)
  end.

(** [CheckpointManager.load]: the existence test stands before the [try],
    so what it raises leaves [load]; [except Exception] turns whatever the
    block raises into [None]. *)
Definition load (st : stat_outcome) (f : file) : result (option ScraperState) :=
  match exists_ st f with
  | Raise e => Raise e
  | Ok false => Ok None
  | Ok true =>
      match read_checkpoint f with
      | Ok state => Ok (Some state)
      | Raise _ => Ok None
      end
  end.

(** [CheckpointManager.delete]: [unlink] after the same existence test. *)
Definition delete (st : stat_outcome) (f : file) : result file :=
  match exists_ st f with
  | Raise e => Raise e
  | Ok true => Ok Missing
  | Ok false => Ok f
  end.

End Checkpoint.

(* ===================================================================== *)
(** ** src/gluetun_controller.py                                           *)
(* ===================================================================== *)

Module Gluetun.

Record GluetunController : Type := {
  max_restart_attempts : Z;
  restart_count : nat;
  current_ip : option string }.

(** What the container and the address probe do during one restart. *)
Inductive restart_event : Type :=
  | ContainerNotFound    (* [_get_container] raises GluetunControllerError *)
  | RestartAPIError      (* [container.restart] raises docker APIError *)
  | Unhealthy            (* [wait_for_healthy] gives False *)
  | NoIP                 (* [get_current_ip] gives None *)
  | GotIP (ip : string). (* [get_current_ip] gives this address *)

Definition restart_for_new_ip (ev : restart_event) (g : GluetunController)
  : result bool * GluetunController :=
  if bool_decide (max_restart_attempts g ≤ Z.of_nat (restart_count g))%Z
  then (Raise GluetunControllerError, g)
  else
    let old_ip := current_ip g in
    let counted :=
      {| max_restart_attempts := max_restart_attempts g;
         restart_count := restart_count g + 1;
         current_ip := current_ip g |} in
    match ev with
    | ContainerNotFound => (Raise GluetunControllerError, g)
    | RestartAPIError => (Ok false, g)
    | Unhealthy => (Ok false, counted)
    | NoIP => (Ok false, counted)
    | GotIP new_ip =>
        if bool_decide (Some new_ip = old_ip)
        then (Ok true,
              {| max_restart_attempts := max_restart_attempts g;
                 restart_count := restart_count g + 1;
                 current_ip := Some new_ip |})
        else (Ok true,
              {| max_restart_attempts := max_restart_attempts g;
                 restart_count := 0;
                 current_ip := Some new_ip |})
    end.

End Gluetun.

(* ===================================================================== *)
(** ** src/main.py                                                         *)
(* ===================================================================== *)

Module Main.

Import Checkpoint Gluetun.

Definition NSFW_SEARCH_KEYWORDS : list string :=
  ["nsfw"; "adult"; "18plus"; "18+"; "xxx"; "porn"; "gonewild"; "nude";
   "naked"; "sexy"; "hot"; "erotic"; "onlyfans"; "lewd"; "hentai"; "rule34";
   "boobs"; "ass"; "milf"; "teen"; "amateur"; "homemade"; "selfie"; "pawg";
   "bbc"; "petite"; "thick"; "curvy"; "busty"; "blonde"; "brunette";
   "redhead"; "asian"; "latina"; "ebony"; "indian"].

(** [SubredditDiscovery]: the names already yielded and the traversal queue. *)
Record Discovery : Type := {
  discovered : gset string;
  to_explore : list string }.

(** [NSFWSubredditScraper] with its collaborators' state.  [entered] is not a
    field of the class: it records, in order, every value the code assigns
    to [state.current_phase] when it enters a phase. *)
Record Scraper : Type := {
  state : ScraperState;
  gluetun : GluetunController;
  discovery : option Discovery;
  running : bool;
  checkpoint : file;
  exported : option (list SubredditDict);
  entered : list string }.

(** [NSFWSubredditScraper.__init__]. *)
Definition Scraper_init (g : GluetunController) (f : file) : Scraper :=
  {| state := ScraperState_default; gluetun := g; discovery := None;
     running := true; checkpoint := f; exported := None; entered := [] |}.

Definition with_state (s : ScraperState) (sc : Scraper) : Scraper :=
  {| state := s; gluetun := gluetun sc; discovery := discovery sc;
     running := running sc; checkpoint := checkpoint sc;
     exported := exported sc; entered := entered sc |}.
Definition with_gluetun (g : GluetunController) (sc : Scraper) : Scraper :=
  {| state := state sc; gluetun := g; discovery := discovery sc;
     running := running sc; checkpoint := checkpoint sc;
     exported := exported sc; entered := entered sc |}.
Definition with_discovery (d : option Discovery) (sc : Scraper) : Scraper :=
  {| state := state sc; gluetun := gluetun sc; discovery := d;
     running := running sc; checkpoint := checkpoint sc;
     exported := exported sc; entered := entered sc |}.
Definition with_running (b : bool) (sc : Scraper) : Scraper :=
  {| state := state sc; gluetun := gluetun sc; discovery := discovery sc;
     running := b; checkpoint := checkpoint sc;
     exported := exported sc; entered := entered sc |}.
Definition with_checkpoint (f : file) (sc : Scraper) : Scraper :=
  {| state := state sc; gluetun := gluetun sc; discovery := discovery sc;
     running := running sc; checkpoint := f;
     exported := exported sc; entered := entered sc |}.
Definition with_exported (x : list SubredditDict) (sc : Scraper) : Scraper :=
  {| state := state sc; gluetun := gluetun sc; discovery := discovery sc;
     running := running sc; checkpoint := checkpoint sc;
     exported := Some x; entered := entered sc |}.

(** [self.state.current_phase = p] on entering a phase. *)
Definition enter (p : string) (sc : Scraper) : Scraper :=
  let s := state sc in
  {| state :=
       {| discovered_subreddits := discovered_subreddits s;
          discovered_names := discovered_names s;
          explore_queue := explore_queue s;
          completed_keywords := completed_keywords s;
          current_phase := p |};
     gluetun := gluetun sc; discovery := discovery sc;
     running := running sc; checkpoint := checkpoint sc;
     exported := exported sc; entered := entered sc ++ [p] |}.

(** The order of the final export: more subscribers first. *)
Definition more_subscribers (a b : SubredditDict) : Prop :=
  (subscribers b ≤ subscribers a)%Z.
#[global] Instance more_subscribers_dec : RelDecision more_subscribers.
Proof. intros a b. unfold more_subscribers. apply _. Defined.

Section WithDisk.

(** What the disk does with the checkpoint writes of this process, and
    with the existence tests on the checkpoint path. *)
Variable disk_write : write_outcome.
Variable disk_stat : stat_outcome.

Definition _save_checkpoint (sc : Scraper) : Scraper :=
  let s := state sc in
  let s' :=
    match discovery sc with
    | Some d =>
        {| discovered_subreddits := discovered_subreddits s;
           discovered_names := discovered d;
           explore_queue := to_explore d;
           completed_keywords := completed_keywords s;
           current_phase := current_phase s |}
    | None => s
    end in
  with_checkpoint (save disk_write s' (checkpoint sc)) (with_state s' sc).

(** [_handle_rate_limit_or_block]: checkpoint, then one restart. *)
Definition _handle_rate_limit_or_block (ev : restart_event) (sc : Scraper)
  : bool * Scraper :=
  let sc1 := _save_checkpoint sc in
  match restart_for_new_ip ev (gluetun sc1) with
  | (Ok true, g) => (true, with_gluetun g sc1)
  | (Ok false, g) => (false, with_gluetun g sc1)
  | (Raise _, g) => (false, with_gluetun g sc1)
  end.

(** [_process_subreddit], together with what the discovery object did
    just before yielding the item. *)
Definition _process_subreddit (info : SubredditDict) (sc : Scraper) : Scraper :=
  let s := state sc in
  with_discovery
    (match discovery sc with
     | Some d => Some {| discovered := discovered d ∪ {[subreddit_name info]};
                         to_explore := to_explore d ++ [subreddit_name info] |}
     | None => None
     end)
    (with_state
       {| discovered_subreddits := discovered_subreddits s ++ [info];
          discovered_names := discovered_names s;
          explore_queue := explore_queue s;
          completed_keywords := completed_keywords s;
          current_phase := current_phase s |} sc).

Definition consume (items : list SubredditDict) (sc : Scraper) : Scraper :=
  foldl (λ acc info, _process_subreddit info acc) sc items.

(** One pass over the wrapped generator, as the remote source decides. *)
Inductive attempt : Type :=
  | Completed (items : list SubredditDict)    (* the generator is exhausted *)
  | Interrupted (items : list SubredditDict)  (* the stop flag was set meanwhile *)
  | Limited (items : list SubredditDict) (e : exn)
                 (* RedditRateLimitError or RedditBlockedError is raised *)
  | Failed (items : list SubredditDict) (e : exn). (* any other exception *)

Inductive loop_result : Type :=
  | Returned (sc : Scraper)
  | Raised (e : exn) (sc : Scraper)
  | StillRetrying (sc : Scraper).

(** [_run_with_recovery] with its consumer [_process_subreddit]; [n] counts
    the rotate-and-retry rounds done so far, [fuel] bounds the rounds that
    are followed. *)
Fixpoint _run_with_recovery (fuel : nat) (attempts : nat → attempt)
         (restarts : nat → restart_event) (n : nat) (sc : Scraper)
  : loop_result * nat :=
  match fuel with
  | O => (StillRetrying sc, n)
  | S fuel' =>
      if negb (running sc) then (Returned sc, n)
      else
        match attempts n with
        | Completed items => (Returned (consume items sc), n)
        | Interrupted items =>
            (Returned (with_running false (consume items sc)), n)
        | Limited items e =>
            match _handle_rate_limit_or_block (restarts n) (consume items sc) with
            | (true, sc') => _run_with_recovery fuel' attempts restarts (S n) sc'
            | (false, sc') => (Raised e sc', n)
            end
        | Failed items e => (Raised e (consume items sc), n)
        end
  end.

(** What one guarded use of [_run_with_recovery] amounts to for [run]: the
    items it yielded, whether the stop flag was set meanwhile, and whether
    it ended by an exception. *)
Record discovery_result : Type := {
  items : list SubredditDict;
  stopped : bool;
  failed : bool }.

Definition apply_result (r : discovery_result) (sc : Scraper) : Scraper :=
  let sc1 := consume (items r) sc in
  if stopped r then with_running false sc1 else sc1.

Definition add_completed_keyword (keyword : string) (sc : Scraper) : Scraper :=
  let s := state sc in
  with_state
    {| discovered_subreddits := discovered_subreddits s;
       discovered_names := discovered_names s;
       explore_queue := explore_queue s;
       completed_keywords := completed_keywords s ++ [keyword];
       current_phase := current_phase s |} sc.

(** The keyword loop of phase 1. *)
Fixpoint keyword_loop (search : string → discovery_result)
         (keywords : list string) (sc : Scraper) : Scraper :=
  match keywords with
  | [] => sc
  | keyword :: rest =>
      if negb (running sc) then sc
      else
        let r := search keyword in
        let sc1 := apply_result r sc in
        if failed r then _save_checkpoint sc1
        else keyword_loop search rest
               (_save_checkpoint (add_completed_keyword keyword sc1))
  end.

(** Phases 2 to 4: the checkpoint is saved on both exits of the [try]. *)
Definition listing_phase (r : discovery_result) (sc : Scraper) : Scraper :=
  _save_checkpoint (apply_result r sc).

Definition phase_in (sc : Scraper) (a b : string) : bool :=
  bool_decide (current_phase (state sc) = a)
  || bool_decide (current_phase (state sc) = b).

Record environment : Type := {
  search_by_keyword : string → discovery_result;
  discover_from_popular : discovery_result;
  discover_from_new : discovery_result;
  explore_related_queue : discovery_result }.

(** [sorted(xs, key=subscribers, reverse=True)]. *)
Definition by_subscribers_desc (xs : list SubredditDict) : list SubredditDict :=
  merge_sort more_subscribers xs.

(** The first step of [run]: [saved_state = self.checkpoint.load()], kept
    only [if saved_state]; what [load] raises is not caught. *)
Definition load_checkpoint (sc : Scraper) : result Scraper :=
  match load disk_stat (checkpoint sc) with
  | Ok (Some saved_state) => Ok (with_state saved_state sc)
  | Ok None => Ok sc
  | Raise e => Raise e
  end.

(** [self.discovery = SubredditDiscovery(...)], loaded from the state. *)
Definition init_discovery (sc : Scraper) : Scraper :=
  with_discovery
    (Some {| discovered := discovered_names (state sc);
             to_explore := explore_queue (state sc) |}) sc.

(** Phase 1: keyword search. *)
Definition phase_keyword_search (env : environment) (sc : Scraper) : Scraper :=
  if phase_in sc "init" "keyword_search" then
    let sc1 := enter "keyword_search" sc in
    let remaining_keywords :=
      filter (λ k, k ∉ completed_keywords (state sc1)) NSFW_SEARCH_KEYWORDS in
    keyword_loop (search_by_keyword env) remaining_keywords sc1
  else sc.

(** Phase 2: popular subreddits. *)
Definition phase_popular (env : environment) (sc : Scraper) : Scraper :=
  if running sc && phase_in sc "keyword_search" "popular"
  then listing_phase (discover_from_popular env) (enter "popular" sc)
  else sc.

(** Phase 3: new subreddits. *)
Definition phase_new (env : environment) (sc : Scraper) : Scraper :=
  if running sc && phase_in sc "popular" "new"
  then listing_phase (discover_from_new env) (enter "new" sc)
  else sc.

(** Phase 4: related subreddit traversal. *)
Definition phase_related (env : environment) (sc : Scraper) : Scraper :=
  if running sc && phase_in sc "new" "related"
  then listing_phase (explore_related_queue env) (enter "related" sc)
  else sc.

(** The export, and the removal of the checkpoint after a full run. *)
Definition phase_export (sc : Scraper) : result Scraper :=
  let sc1 := enter "export" sc in
  let sc2 :=
    with_exported (by_subscribers_desc (discovered_subreddits (state sc1))) sc1 in
  if running sc2 then
    match delete disk_stat (checkpoint sc2) with
    | Ok f => Ok (with_checkpoint f sc2)
    | Raise e => Raise e
    end
  else Ok sc2.

(** [run] after [verify_proxy] succeeded: the blocks of its body, in the
    order in which they are written.  Nothing in [run] catches what [load]
    or [delete] raises. *)
Definition run_verified (env : environment) (sc : Scraper) : result Scraper :=
  match load_checkpoint sc with
  | Raise e => Raise e
  | Ok sc0 =>
      phase_export
        (phase_related env
           (phase_new env
              (phase_popular env
                 (phase_keyword_search env (init_discovery sc0)))))
  end.

(** [verify_proxy]: a failing [connect] is only logged; the probe of the
    public address decides, and a found address is recorded. *)
Definition verify_proxy (probe : option string) (sc : Scraper) : bool * Scraper :=
  match probe with
  | Some ip =>
      (true,
       with_gluetun
         {| max_restart_attempts := max_restart_attempts (gluetun sc);
            restart_count := restart_count (gluetun sc);
            current_ip := Some ip |} sc)
  | None => (false, sc)
  end.

(** [run]: [None] is [sys.exit(1)] after a failed proxy check. *)
Definition run (probe : option string) (env : environment) (sc : Scraper)
  : option (result Scraper) :=
  match verify_proxy probe sc with
  | (true, sc') => Some (run_verified env sc')
  | (false, _) => None
  end.

End WithDisk.

End Main.

(* ===================================================================== *)
(** ** mini/scrape_commenters.py                                           *)
(* ===================================================================== *)

Module Commenters.

(** A miner is known by how many times it has been replaced. *)
Definition miner : Type := nat.

(** [refresh_callback()], when there is one. *)
Definition refresh (refresh_callback : bool) (m : miner) : miner :=
  if refresh_callback then S m else m.

Inductive fetch_outcome (A : Type) : Type :=
  | Fetched (a : A)
  | TooMany                 (* TooManyRequestsError *)
  | Broken (msg : string).  (* any other exception, with its message *)
Arguments Fetched {A} a.
Arguments TooMany {A}.
Arguments Broken {A} msg.

Section Posts.

Variable post : Type.
(** [miner.fetch_subreddit_posts] on the given miner. *)
Variable fetch_subreddit_posts : miner → fetch_outcome (list post).
Variable refresh_callback : bool.

(** The body of [for attempt in range(max_retries)] of [fetch_with_retry]. *)
Fixpoint fetch_loop (max_retries : Z) (attempts : list nat) (m : miner)
  : result (list post * miner) :=
  match attempts with
  | [] => Ok ([], m)
  | attempt :: rest =>
      match fetch_subreddit_posts m with
      | Fetched posts => Ok (posts, m)
      | TooMany =>
          if bool_decide (Z.of_nat attempt < max_retries - 1)%Z
          then fetch_loop max_retries rest (refresh refresh_callback m)
          else Ok ([], m)
      | Broken msg => Raise (OtherError msg)
      end
  end.

Definition fetch_with_retry (m : miner) (max_retries : Z)
  : result (list post * miner) :=
  fetch_loop max_retries (seq 0 (Z.to_nat max_retries)) m.

End Posts.

Section Details.

Variable details : Type.
(** [miner.scrape_post_details(permalink)] on the given miner. *)
Variable scrape_post_details : miner → fetch_outcome details.
Variable refresh_callback : bool.

Definition contains (code msg : string) : bool :=
  bool_decide (is_Some (String.index 0 code msg)).

Definition is_recoverable (error_msg : string) : bool :=
  existsb (λ code, contains code error_msg)
          ["403"; "429"; "Connection"; "timeout"; "Temporary"].

(** The [while retry < max_retries] loop that fetches one post; the result
    is [details], the miner in use, and [retry]. *)
Fixpoint scrape_loop (fuel : nat) (max_retries : nat) (retry : nat) (m : miner)
  : option (option details * miner * nat) :=
  match fuel with
  | O => None
  | S fuel' =>
      if bool_decide (retry < max_retries)%nat then
        match scrape_post_details m with
        | Fetched d => Some (Some d, m, retry)
        | TooMany =>
            scrape_loop fuel' max_retries (retry + 1) (refresh refresh_callback m)
        | Broken error_msg =>
            if is_recoverable error_msg
            then scrape_loop fuel' max_retries (retry + 1)
                             (refresh refresh_callback m)
            else Some (None, m, retry)
        end
      else Some (None, m, retry)
  end.

End Details.

End Commenters.

(* ===================================================================== *)
(** ** What is stated about the pipeline *)
(* ===================================================================== *)

Module PipelineSpec.
Import Pipeline.

(** The two set invariants of the dedup state. *)
Definition dedup_inv (d : DeduplicationManager) : Prop :=
  processed_subreddits d ## queued_subreddits d
  ∧ processed_subreddits d ⊆ discovered_subreddits d.

(** Two managers that hold the same four sets. *)
Definition same_sets (d d' : DeduplicationManager) : Prop :=
  discovered_subreddits d' = discovered_subreddits d
  ∧ processed_subreddits d' = processed_subreddits d
  ∧ queued_subreddits d' = queued_subreddits d
  ∧ seen_users d' = seen_users d.

(** Two disks that differ at most in the two dedup files. *)
Definition same_export_files (k k' : Disk) : Prop :=
  exporter_state_file k' = exporter_state_file k
  ∧ pipeline_state_file k' = pipeline_state_file k
  ∧ chunk_csv k' = chunk_csv k
  ∧ chunk_json k' = chunk_json k.

(** Every write to disk succeeds. *)
Definition io_ok (io : path → bool) : Prop := ∀ p, io p = true.

(** The slices [users_list[i:i + USERS_CHUNK_SIZE]] the loop of
    [export_chunks] goes through, in order. *)
Definition slices (size : Z) (users_list : list string) : list (list string) :=
  match py_range (length users_list) size with
  | Ok idxs => (λ i, take (Z.to_nat size) (drop i users_list)) <$> idxs
  | Raise _ => []
  end.

(** The chunk files the loop writes when the counter stands at [n]. *)
Fixpoint put_chunks (n : nat) (chunks : list (list string)) (k : Disk) : Disk :=
  match chunks with
  | [] => k
  | chunk :: rest =>
      put_chunks (S n) rest
        (write_chunk_json (S n) chunk (write_chunk_csv (S n) chunk k))
  end.

Definition chunk_doc (chunk : list string) : ChunkDoc :=
  {| doc_users := chunk; doc_count := length chunk |}.

(** The CSV file that goes with a JSON chunk file. *)
Definition csv_of (d : ChunkDoc) : list string := "username" :: doc_users d.

(** Whether a call of [export_chunks] goes past its two early returns. *)
Definition exports (force : bool) (threshold : Z) (w : World) : Prop :=
  (force = true ∨ (threshold ≤ Z.of_nat (size (pending_users (exporter w))))%Z)
  ∧ pending_users (exporter w) ≠ ∅.

#[global] Instance exports_dec force threshold w :
  Decision (exports force threshold w).
Proof. unfold exports. apply _. Defined.

(** What holds between two calls of a process, and across restarts. *)
Record export_inv (w : World) : Prop := {
  inv_mirror : chunk_csv (disk w) = csv_of <$> chunk_json (disk w);
  inv_ordinals :
    ∀ m, is_Some (chunk_json (disk w) !! m) → (m ≤ chunk_count (exporter w))%nat;
  inv_count : chunk_count (UserExporter_init (disk w)) = chunk_count (exporter w);
  inv_nodup : NoDup (exported_json (disk w));
  inv_exported :
    ∀ u, u ∈ exported_json (disk w) → Str.lower u ∈ load_users (disk w);
  inv_pending :
    ∀ u, u ∈ pending_users (exporter w) →
         Str.lower u ∈ seen_users (dedup w) ∧ u ∉ exported_json (disk w);
  inv_disk_pending :
    ∀ u, u ∈ pending_users (UserExporter_init (disk w)) →
         Str.lower u ∈ load_users (disk w) ∧ u ∉ exported_json (disk w);
  inv_disk_seen : load_users (disk w) ⊆ seen_users (dedup w);
  inv_clean : ∀ x, x ∈ seen_users (dedup w) → Str.clean x = true }.

(** The candidates of an [AddUsers] are well-formed names. *)
Definition clean_op (o : op) : bool :=
  match o with
  | AddUsers users => forallb Str.clean (elements users)
  | _ => true
  end.

End PipelineSpec.

(* ===================================================================== *)
(** ** Worked histories of the pipeline *)
(* ===================================================================== *)

Module PipelineRuns.
Import Pipeline PipelineSpec.

(** A disk on which every write succeeds, one on which none does, and one
    on which only the exporter's state file cannot be written. *)
Definition all_ok : path → bool := λ _, true.

Definition none_ok : path → bool := λ _, false.

Definition exporter_state_fails : path → bool :=
  λ p, match p with ExporterStateFile => false | _ => true end.

Definition fresh : World := start empty_disk.

(** The candidates of the example: two casings of one name, and another. *)
Definition candidates : gset string := {["Alice"; "bob"; "ALICE"]}.

(** The three candidates admitted in one call. *)
Definition admitted : World := (add_users all_ok candidates fresh).2.

(** The same names admitted in two calls, ["ALICE"] last. *)
Definition admitted_in_turn : World :=
  (add_users all_ok {["ALICE"]} (add_users all_ok {["Alice"; "bob"]} fresh).2).2.

(** A forced export with chunk size 2 and no uploader. *)
Definition flush (w : World) : result nat * World :=
  export_chunks all_ok 2 None true USERS_EXPORT_THRESHOLD w.

(** A store in which ["foo"] was discovered and then processed. *)
Definition foo_processed : World :=
  (mark_subreddit_processed all_ok "foo"
     (mark_subreddit_discovered all_ok "foo" fresh).2).2.

(** A history with a restart between two exports. *)
Definition history : list op :=
  [AddUsers candidates; ExportChunks true USERS_EXPORT_THRESHOLD; Restart;
   AddUsers {["alice"; "Carol"]}; ExportChunks true USERS_EXPORT_THRESHOLD].

End PipelineRuns.

(* ===================================================================== *)
(** ** What is stated about the scraper *)
(* ===================================================================== *)

Module ScraperSpec.
Import Checkpoint Gluetun Main.

(** What [run] looks at: the phase, the stop flag, the phases entered. *)
Definition view (sc : Scraper) : string * bool * list string :=
  (current_phase (state sc), running sc, entered sc).

(** The phases a checkpoint can record. *)
Inductive phase : Type := Init | KeywordSearch | Popular | New | Related | Export.

Definition phase_name (p : phase) : string :=
  match p with
  | Init => "init"
  | KeywordSearch => "keyword_search"
  | Popular => "popular"
  | New => "new"
  | Related => "related"
  | Export => "export"
  end.

Definition rank (p : phase) : nat :=
  match p with
  | Init => 0 | KeywordSearch => 1 | Popular => 2
  | New => 3 | Related => 4 | Export => 5
  end.

(** The discovery phases that are not before [p], in their order; a run
    that starts at [init] goes on to the keyword search. *)
Definition phases_from (p : phase) : list string :=
  phase_name <$> filter (λ q, rank p ≤ rank q)%nat [KeywordSearch; Popular; New; Related].

(** No stop signal arrives during discovery. *)
Definition never_stopped (env : environment) : Prop :=
  (∀ k, stopped (search_by_keyword env k) = false)
  ∧ stopped (discover_from_popular env) = false
  ∧ stopped (discover_from_new env) = false
  ∧ stopped (explore_related_queue env) = false.

(** One guarded listing phase, on views. *)
Definition gate (a b p : string) (stop : bool)
           (v : string * bool * list string) : string * bool * list string :=
  let '(cp, run, ent) := v in
  if run && (bool_decide (cp = a) || bool_decide (cp = b))
  then (p, run && negb stop, (ent ++ [p])%list)
  else v.

(** No restart of the environment ends on an address other than [ip0]. *)
Definition no_new_ip (restarts : nat → restart_event) (ip0 : option string) : Prop :=
  ∀ i ip, restarts i = GotIP ip → Some ip = ip0.

End ScraperSpec.

(* ===================================================================== *)
(** ** Worked runs of the scraper *)
(* ===================================================================== *)

Module ScraperRuns.
Import Checkpoint Gluetun Main ScraperSpec.

(** A controller with the default bound of five restarts. *)
Definition controller (ip : option string) : GluetunController :=
  {| max_restart_attempts := 5; restart_count := 0; current_ip := ip |}.

(** A remote source that refuses every pass with a rate-limit error. *)
Definition always_limited : nat → attempt :=
  λ _, Limited [] RedditRateLimitError.

(** Restarts that succeed and alternate between two addresses. *)
Definition alternating : nat → restart_event :=
  λ i, GotIP (if Nat.even i then "198.51.100.1" else "198.51.100.2").

(** Restarts that succeed but always come back on the same address. *)
Definition same_address : nat → restart_event := λ _, GotIP "198.51.100.1".

(** A checkpoint that records phase [popular]. *)
Definition at_popular : file :=
  Document {| doc_discovered_subreddits := Some [];
              doc_discovered_names := Some [];
              doc_explore_queue := Some [];
              doc_completed_keywords := Some [];
              doc_current_phase := Some "popular" |}.

Definition nothing_found : discovery_result :=
  {| items := []; stopped := false; failed := false |}.

(** A remote source that yields nothing and is never interrupted. *)
Definition quiet : environment :=
  {| search_by_keyword := λ _, nothing_found;
     discover_from_popular := nothing_found;
     discover_from_new := nothing_found;
     explore_related_queue := nothing_found |}.

End ScraperRuns.

(* ===================================================================== *)
(** ** pipeline.py: the batch loop of the integrated pipeline *)
(* ===================================================================== *)

Module PipelineBatch.
Import Pipeline.

(** [self.current_batch = ...]. *)
Definition set_current_batch (b : list string) : M unit :=
  λ w, (Ok tt, {| dedup := dedup w; exporter := exporter w;
                  current_batch := b; disk := disk w |}).

(** [xs.remove(x)] on a list that holds [x]: the first occurrence goes. *)
Fixpoint remove_first (x : string) (xs : list string) : list string :=
  match xs with
  | [] => []
  | y :: ys => if bool_decide (y = x) then ys else y :: remove_first x ys
  end.

(** [PipelineState.should_add_to_batch]. *)
Definition should_add_to_batch (name : string) (d : DeduplicationManager) : bool :=
  negb (is_subreddit_processed name d) && negb (is_subreddit_queued name d).

Section WithEnvironment.

Variable io : path → bool.
Variable USERS_CHUNK_SIZE : Z.
Variable ssh : option (list path → nat).
(** What the two calls of [gather_commenters_for_subreddit] (time filters
    [all] and [year]) bring back, taken together, in the turn of the loop
    that stands at the given index; a call that raises is caught and brings
    nothing.  The restarts of the proxy container in between are taken to
    succeed. *)
Variable gather : nat → string → gset string.

(** [PipelineState.mark_processed]. *)
Definition mark_processed (name : string) : M unit :=
  exec mark_subreddit_processed io name;
  do w <- get;
  exec (if bool_decide (name ∈ current_batch w)
        then set_current_batch (remove_first name (current_batch w))
        else ret tt);
  PipelineState_save io.

(** [PipelineState.set_batch]: the list that is passed becomes
    [current_batch] itself, not a copy of it. *)
Definition set_batch (batch : list string) : M unit :=
  exec set_current_batch batch;
  exec set_queue batch;
  PipelineState_save io.

(** The body of the loop of [_process_subreddit_batch] for one subreddit. *)
Definition process_one (i : nat) (subreddit : string) : M unit :=
  do w <- get;
  if is_subreddit_processed subreddit (dedup w) then ret tt
  else
    let all_commenters := gather i subreddit in
    if bool_decide (all_commenters ≠ ∅) then
      do new_count <- add_users io all_commenters;
      exec mark_processed subreddit;
      do w <- get;
      if should_export USERS_EXPORT_THRESHOLD (exporter w)
      then (do files <- export_chunks io USERS_CHUNK_SIZE ssh false
                                      USERS_EXPORT_THRESHOLD;
            ret tt)
      else ret tt
    else mark_processed subreddit.

(** [for idx, subreddit in enumerate(subreddits, 1)]: the list iterator
    holds an index into the list, and the list is [current_batch], which
    [mark_processed] shortens while the loop runs.  [i] is that index;
    [fuel] bounds the number of turns. *)
Fixpoint batch_loop (fuel : nat) (i : nat) : M unit :=
  match fuel with
  | O => ret tt
  | S fuel' =>
      do w <- get;
      match current_batch w !! i with
      | None => ret tt
      | Some subreddit =>
          exec process_one i subreddit;
          batch_loop fuel' (S i)
      end
  end.

(** [_process_subreddit_batch], with the stop flag never set. *)
Definition _process_subreddit_batch (subreddits : list string) : M unit :=
  exec set_batch subreddits;
  batch_loop (S (length subreddits)) 0.

End WithEnvironment.

(** Every other element of a list, starting with the first ([true]) or with
    the second ([false]). *)
Fixpoint alternate (take_first : bool) (xs : list string) : list string :=
  match xs with
  | [] => []
  | x :: xs' =>
      if take_first then x :: alternate false xs' else alternate true xs'
  end.

(** The chunk counter and the exported total agree with the chunk files,
    in memory and in the exporter's state file. *)
Record counters_inv (w : World) : Prop := {
  cnt_dom :
    ∀ m, is_Some (chunk_json (disk w) !! m)
         ↔ (1 ≤ m ≤ chunk_count (exporter w))%nat;
  cnt_total : total_exported (exporter w) = length (exported_json (disk w));
  cnt_disk_count :
    chunk_count (UserExporter_init (disk w)) = chunk_count (exporter w);
  cnt_disk_total :
    total_exported (UserExporter_init (disk w)) = total_exported (exporter w) }.

(** The exporter's state file holds no pending user. *)
Definition no_saved_pending (k : Disk) : Prop :=
  pending_users (UserExporter_init k) = ∅.

(** A name the store remembers as seen although it is neither pending nor
    in any chunk file. *)
Definition forgotten (u : string) (w : World) : Prop :=
  Str.lower u ∈ load_users (disk w)
  ∧ (u ∉ pending_users (exporter w))
  ∧ (u ∉ exported_json (disk w)).

End PipelineBatch.

(* ===================================================================== *)
(** ** More on the scraper: interrupted runs, restart sequences *)
(* ===================================================================== *)

Module RunSpec.
Import Checkpoint Gluetun Main ScraperSpec.


(** A sequence of calls of [restart_for_new_ip], whatever they return. *)
Definition restart_many (evs : list restart_event) (g : GluetunController)
  : GluetunController :=
  foldl (λ g ev, (restart_for_new_ip ev g).2) g evs.

(** The keywords [run] still has to search. *)
Definition remaining_keywords (sc : Scraper) : list string :=
  filter (λ k, k ∉ completed_keywords (state sc)) NSFW_SEARCH_KEYWORDS.

(** No search fails or is interrupted. *)
Definition undisturbed (search : string → discovery_result) : Prop :=
  ∀ k, failed (search k) = false ∧ stopped (search k) = false.


End RunSpec.

(* ===================================================================== *)
(** ** src/discovery.py: listings *)
(* ===================================================================== *)

Module Listing.
Import Checkpoint Main.

(** The [data] object of one child of a listing, as far as the code reads
    it.  [None] stands for a missing key or for JSON [null]; a key that is
    present holds a value of the type Reddit documents for it. *)
Record SubredditData : Type := {
  data_display_name : option string;
  data_over18 : option bool;
  data_subreddit_type : option string;
  data_subscribers : option Z }.

(** A listing response: the [data] objects of the children, and the cursor
    [after].  A response without [data] is a listing without children and
    without cursor. *)
Record ListingResponse : Type := {
  children : list SubredditData;
  after : option string }.

(** [_extract_subreddit_info].  A [display_name] that is [null] makes
    [.lower()] raise, which the function catches and answers with [None];
    a missing one is read as the empty name, which is refused as well. *)
Definition _extract_subreddit_info (data : SubredditData) : option SubredditDict :=
  let name := Str.lower (default EmptyString (data_display_name data)) in
  let over18 := default false (data_over18 data) in
  let subreddit_type := default EmptyString (data_subreddit_type data) in
  let subscribers := default 0%Z (data_subscribers data) in
  if negb over18 then None
  else if negb (bool_decide (subreddit_type ∈ ["public"; "restricted"])) then None
  else if bool_decide (name = EmptyString) then None
  else Some {| subreddit_name := name; subscribers := subscribers;
               over18 := over18 |}.

(** [_process_listing], consumed to its end: the items it yields, in order,
    and the discovery state it leaves. *)
Fixpoint _process_listing (children : list SubredditData) (d : Discovery)
  : list SubredditDict * Discovery :=
  match children with
  | [] => ([], d)
  | child_data :: rest =>
      match _extract_subreddit_info child_data with
      | Some info =>
          if bool_decide (subreddit_name info ∉ discovered d) then
            let d' := {| discovered := discovered d ∪ {[subreddit_name info]};
                         to_explore := to_explore d ++ [subreddit_name info] |} in
            let '(yielded, d'') := _process_listing rest d' in
            (info :: yielded, d'')
          else _process_listing rest d
      | None => _process_listing rest d
      end
  end.

(** [if not after]. *)
Definition falsy (after : option string) : bool :=
  match after with
  | None => true
  | Some s => bool_decide (s = EmptyString)
  end.

(** One pass of a paged listing, consumed until it ends or raises. *)
Record pass : Type := {
  yielded : list SubredditDict;
  raised : option exn;
  left : Discovery;
  requests : nat }.         (* how many times the client was called *)

(** The loop [while pages < max_pages] shared by [search_by_keyword],
    [discover_from_popular] and [discover_from_new].  [fetch pages after]
    is the client call made for page number [pages] with cursor [after];
    [remaining] is [max_pages - pages]. *)
Fixpoint listing_loop (fetch : nat → option string → result ListingResponse)
         (remaining pages : nat) (after : option string) (d : Discovery) : pass :=
  match remaining with
  | O => {| yielded := []; raised := None; left := d; requests := 0 |}
  | S remaining' =>
      match fetch pages after with
      | Raise e => {| yielded := []; raised := Some e; left := d; requests := 1 |}
      | Ok response =>
          let '(items, d1) := _process_listing (children response) d in
          if falsy (Listing.after response)
          then {| yielded := items; raised := None; left := d1; requests := 1 |}
          else
            let p := listing_loop fetch remaining' (S pages)
                                  (Listing.after response) d1 in
            {| yielded := items ++ yielded p; raised := raised p;
               left := left p; requests := S (requests p) |}
      end
  end.

Definition search_by_keyword
           (search_subreddits : string → nat → option string → result ListingResponse)
           (keyword : string) (max_pages : Z) (d : Discovery) : pass :=
  listing_loop (search_subreddits keyword) (Z.to_nat max_pages) 0 None d.

Definition discover_from_popular
           (get_popular_subreddits : nat → option string → result ListingResponse)
           (max_pages : Z) (d : Discovery) : pass :=
  listing_loop get_popular_subreddits (Z.to_nat max_pages) 0 None d.

Definition discover_from_new
           (get_new_subreddits : nat → option string → result ListingResponse)
           (max_pages : Z) (d : Discovery) : pass :=
  listing_loop get_new_subreddits (Z.to_nat max_pages) 0 None d.

(** [load_discovered]. *)
Definition load_discovered (names : gset string) (d : Discovery) : Discovery :=
  {| discovered := discovered d ∪ names; to_explore := to_explore d |}.

(** The names of a list of items. *)
Definition names (items : list SubredditDict) : list string :=
  subreddit_name <$> items.

End Listing.

(* ===================================================================== *)
(** ** mini/scrape_commenters.py: comment trees, subreddit files *)
(* ===================================================================== *)

Module CommenterTools.

(** A comment as YARS returns it, as far as the code reads it: [author] is
    [None] when the key is missing or [null]; [replies] is the list under
    the key, empty when the key is missing or holds a falsy value. *)
#[warnings="-register-all"] Inductive comment : Type :=
  | Comment (author : option string) (replies : list comment).

Definition author (c : comment) : option string :=
  match c with Comment a _ => a end.
Definition replies (c : comment) : list comment :=
  match c with Comment _ r => r end.

(** [author and author not in {"[deleted]", "AutoModerator"}]. *)
Definition is_commenter (a : string) : bool :=
  negb (bool_decide (a = EmptyString))
  && negb (bool_decide (a ∈ ["[deleted]"; "AutoModerator"])).

(** What one comment and the replies below it add to the set. *)
Fixpoint commenters_below (c : comment) : gset string :=
  match c with
  | Comment author replies =>
      (match author with
       | Some a => if is_commenter a then {[a]} else ∅
       | None => ∅
       end)
      ∪ ⋃ (commenters_below <$> replies)
  end.

(** [extract_commenters]. *)
Definition extract_commenters (comments : list comment) : gset string :=
  ⋃ (commenters_below <$> comments).

(** The comments of a thread, at any depth. *)
Inductive in_thread (c : comment) : list comment → Prop :=
  | in_thread_here cs : c ∈ cs → in_thread c cs
  | in_thread_reply c' cs : c' ∈ cs → in_thread c (replies c') → in_thread c cs.

(** The authors a thread contributes. *)
Definition contributes (u : string) (cs : list comment) : Prop :=
  ∃ c, in_thread c cs ∧ author c = Some u ∧ is_commenter u = true.

(** [line.startswith("#")]. *)
Definition is_comment_line (line : string) : bool :=
  match line with
  | String c _ => bool_decide (c = "#"%char)
  | EmptyString => false
  end.

(** [load_subreddits_from_file]: [None] is a file that does not exist. *)
Definition load_subreddits_from_file (file : option string) : list string :=
  match file with
  | None => []
  | Some text =>
      filter (λ line, line ≠ EmptyString ∧ is_comment_line line = false)
             (Str.strip <$> Str.read_lines text)
  end.

(** A text file with one entry per line. *)
Definition lines_text (ls : list string) : string :=
  foldr (λ l rest, l +:+ String "010"%char rest) EmptyString ls.

End CommenterTools.

(* ===================================================================== *)
(** ** More worked inputs *)
(* ===================================================================== *)

Module MoreRuns.
Import Pipeline PipelineSpec PipelineRuns Checkpoint Main ScraperRuns Listing.

(** A batch of three subreddits, and a source that finds no commenter. *)
Definition three_subreddits : list string := ["Alpha"; "beta"; "Gamma"].

Definition no_commenters : nat → string → gset string := λ _ _, ∅.

(** A history that admits the candidates and does not export them. *)
Definition admit_only : list op := [AddUsers candidates].

(** What the process does after the restart: the same names come in again,
    and everything pending is exported. *)
Definition readmit_and_flush : list op :=
  [AddUsers candidates; ExportChunks true USERS_EXPORT_THRESHOLD].

(** A scraper at the start of [run], with no checkpoint on disk: [load]
    gave [None] and the state is the initial one. *)
Definition at_start : Scraper :=
  init_discovery (Scraper_init (controller None) Missing).

(** A public over-18 subreddit in a listing. *)
Definition nsfw_child (name : string) (n : Z) : SubredditData :=
  {| data_display_name := Some name; data_over18 := Some true;
     data_subreddit_type := Some "public"; data_subscribers := Some n |}.

(** A listing of two pages; the second repeats a name of the first under
    another casing. *)
Definition two_pages : nat → option string → result ListingResponse :=
  λ pages _,
    match pages with
    | 0 => Ok {| children := [nsfw_child "Alpha" 10; nsfw_child "beta" 5];
                 after := Some "t5_1" |}
    | 1 => Ok {| children := [nsfw_child "ALPHA" 10; nsfw_child "gamma" 1];
                 after := None |}
    | _ => Raise RedditRateLimitError
    end.

Definition nothing_discovered : Discovery :=
  {| discovered := ∅; to_explore := [] |}.

End MoreRuns.

(* ===================================================================== *)
(** ** pipeline.py: shutdown; src/discovery.py: related subreddits *)
(* ===================================================================== *)

Module PipelineShutdown.
Import Pipeline.

Section WithEnvironment.

Variable io : path → bool.
Variable USERS_CHUNK_SIZE : Z.
Variable ssh : option (list path → nat).

(** [IntegratedPipeline._signal_handler], up to its [sys.exit(0)].  It runs
    on the objects as the signal finds them, which may be in the middle of a
    call of the main flow. *)
Definition _signal_handler : M unit :=
  exec PipelineState_save io;
  exec save_state io true;
  do files_created <- export_chunks io USERS_CHUNK_SIZE ssh true
                                    USERS_EXPORT_THRESHOLD;
  ret tt.

End WithEnvironment.

End PipelineShutdown.

(* ===================================================================== *)
(** ** pipeline.py: a process that is stopped inside [export_chunks] *)
(* ===================================================================== *)

Module PipelineInterrupts.
Import Pipeline PipelineShutdown.

Section WithEnvironment.

Variable io : path → bool.
Variable USERS_CHUNK_SIZE : Z.
Variable ssh : option (list path → nat).

(** [export_chunks] as far as the end of turn [turns] of its loop (the whole
    loop when it has fewer turns): where the call stands when the process
    is killed there, or when a signal is delivered there.  Nothing that
    follows the loop has run: the pending buffer is as it was, and neither
    exporter_state.json nor the dedup files have been written. *)
Definition export_chunks_until (turns : nat) (force : bool) (threshold : Z)
  : M unit :=
  do w <- get;
  if negb force && bool_decide (Z.of_nat (size (pending_users (exporter w))) < threshold)%Z
  then ret tt
  else if bool_decide (pending_users (exporter w) = ∅) then ret tt
  else
    let users_list := Str.sorted (elements (pending_users (exporter w))) in
    match py_range (length users_list) USERS_CHUNK_SIZE with
    | Raise e => raise e
    | Ok idxs =>
        do r <- export_loop io USERS_CHUNK_SIZE users_list (take turns idxs) 0 [];
        ret tt
    end.

(** The process is killed at that point: the memory is lost, and the next
    process is built from the files as they are. *)
Definition killed_in_export (turns : nat) (force : bool) (threshold : Z)
           (w : World) : World :=
  start (disk (export_chunks_until turns force threshold w).2).

(** A shutdown signal is delivered at that point: the handler runs on the
    objects as they are and ends the process with [sys.exit(0)], so that
    the interrupted call never goes on; the next process is built from the
    files the handler leaves. *)
Definition signalled_in_export (turns : nat) (force : bool) (threshold : Z)
           (w : World) : World :=
  start (disk (_signal_handler io USERS_CHUNK_SIZE ssh
                 (export_chunks_until turns force threshold w).2).2).

End WithEnvironment.

End PipelineInterrupts.

Module Related.
Import Checkpoint Main Listing.

Section WithClient.

(** [related_names] of [discover_related] for a subreddit: the lower-cased
    names the pattern finds in its sidebar, in the order in which the set
    is iterated; [None] when [get_subreddit_sidebar] gives [None] or an
    empty text.  [get_subreddit_sidebar] catches every exception of the
    request, rate limits included.  The first argument counts the
    subreddits explored so far. *)
Variable related_names : nat → string → option (list string).
(** [get_subreddit_about(name).get("data", {})] at the same moment; [None]
    when the request raises, which [discover_related] catches and logs. *)
Variable get_subreddit_about : nat → string → option SubredditData.

(** The loop of [discover_related] over the related names. *)
Fixpoint related_loop (explored : nat) (related : list string) (d : Discovery)
  : list SubredditDict * Discovery :=
  match related with
  | [] => ([], d)
  | name :: rest =>
      if bool_decide (name ∈ discovered d) then related_loop explored rest d
      else
        match get_subreddit_about explored name with
        | Some data =>
            match _extract_subreddit_info data with
            | Some info =>
                let d' :=
                  {| discovered := discovered d ∪ {[subreddit_name info]};
                     to_explore := to_explore d ++ [subreddit_name info] |} in
                let '(yielded, d'') := related_loop explored rest d' in
                (info :: yielded, d'')
            | None => related_loop explored rest d
            end
        | None => related_loop explored rest d
        end
  end.

(** [discover_related], consumed to its end. *)
Definition discover_related (explored : nat) (subreddit_name : string)
           (d : Discovery) : list SubredditDict * Discovery :=
  match related_names explored subreddit_name with
  | None => ([], d)
  | Some related => related_loop explored related d
  end.

(** What [explore_related_queue] did when it ends. *)
Record exploration : Type := {
  found : list SubredditDict;    (* the items yielded, in order *)
  visited : list string;         (* the names taken from the queue, in order *)
  rest : Discovery }.            (* the discovery state left *)

(** [explore_related_queue]: [remaining] is [max_subreddits - explored]. *)
Fixpoint explore_loop (remaining explored : nat) (d : Discovery) : exploration :=
  match remaining with
  | O => {| found := []; visited := []; rest := d |}
  | S remaining' =>
      match to_explore d with
      | [] => {| found := []; visited := []; rest := d |}
      | name :: queue =>
          let '(yielded, d1) :=
            discover_related explored name
              {| discovered := discovered d; to_explore := queue |} in
          let e := explore_loop remaining' (S explored) d1 in
          {| found := yielded ++ found e; visited := name :: visited e;
             rest := rest e |}
      end
  end.

Definition explore_related_queue (max_subreddits : Z) (d : Discovery)
  : exploration :=
  explore_loop (Z.to_nat max_subreddits) 0 d.

End WithClient.

(** The about page of a subreddit carries the name it was asked under. *)
Definition about_consistent
           (get_subreddit_about : nat → string → option SubredditData) : Prop :=
  ∀ explored name data info,
    get_subreddit_about explored name = Some data →
    _extract_subreddit_info data = Some info →
    subreddit_name info = name.

End Related.

(* ===================================================================== *)
(** ** mini/scrape_commenters.py: [gather_commenters_for_subreddit] *)
(* ===================================================================== *)

Module Gather.
Import Commenters CommenterTools.

(** A post as [fetch_subreddit_posts] returns it, as far as the code reads
    it.  [permalink] is [None] when the dict has no such key, so that
    [p['permalink']] raises [KeyError], and [Some None] when the key holds
    [null]; the other fields are read with [get]. *)
Record post : Type := {
  permalink : option (option string);
  url : option string;
  link : option string;
  post_title : option string }.

(** The post details [scrape_post_details] returns, when they are truthy. *)
Record details : Type := {
  comments : list comment;
  title : option string }.




(** [d[key] = p] on a dict kept as the list of its items, in insertion
    order: a key that is present keeps its place and takes the new value. *)
Fixpoint dict_set (key : option string) (p : post)
         (d : list (option string * post)) : list (option string * post) :=
  match d with
  | [] => [(key, p)]
  | (k, v) :: d' =>
      if bool_decide (k = key) then (k, p) :: d' else (k, v) :: dict_set key p d'
  end.

(** [{p['permalink']: p for p in posts}], from the dict built so far. *)
Fixpoint by_permalink (posts : list post) (d : list (option string * post))
  : result (list (option string * post)) :=
  match posts with
  | [] => Ok d
  | p :: rest =>
      match permalink p with
      | Some key => by_permalink rest (dict_set key p d)
      | None => Raise (OtherError "'permalink'")     (* KeyError *)
      end
  end.

(** [list({p['permalink']: p for p in posts}.values())]. *)
Definition unique_posts (posts : list post) : result (list post) :=
  match by_permalink posts [] with
  | Ok d => Ok (d.*2)
  | Raise e => Raise e
  end.




Section WithMiner.

(** [miner.fetch_subreddit_posts(subreddit, limit, category, time_filter)]
    on the given miner. *)
Variable fetch_subreddit_posts : Z → string → string → miner → fetch_outcome (list post).
(** [miner.scrape_post_details(permalink)] for the post at the given
    position, on the given miner; [Fetched None] is a falsy answer. *)
Variable scrape_post_details : nat → string → miner → fetch_outcome (option details).
Variable refresh_callback : bool.

(** A fallback fetch, its posts appended, the list made unique. *)
Definition fallback (limit : Z) (category : string) (posts : list post) (m : miner)
  : result (list post * miner) :=
  match fetch_with_retry post (fetch_subreddit_posts (limit / 2) category "all")
                         refresh_callback m 3 with
  | Ok (more, m') =>
      match unique_posts (posts ++ more) with
      | Ok posts' => Ok (posts', m')
      | Raise e => Raise e
      end
  | Raise e => Raise e
  end.

(** The first part of the function: the posts to scrape.  [len(posts) <
    limit * 0.5] and [len(posts) < limit * 0.75] are written on integers. *)
Definition collect_posts (m : miner) (limit : Z) (category time_filter : string)
  : result (list post * miner) :=
  match fetch_with_retry post (fetch_subreddit_posts limit category time_filter)
                         refresh_callback m 5 with
  | Raise e => Raise e
  | Ok (posts, m1) =>
      match (if bool_decide (2 * Z.of_nat (length posts) < limit)%Z
                && bool_decide (category = "top")
             then fallback limit "hot" posts m1 else Ok (posts, m1)) with
      | Raise e => Raise e
      | Ok (posts, m2) =>
          if bool_decide (4 * Z.of_nat (length posts) < 3 * limit)%Z
          then fallback limit "new" posts m2 else Ok (posts, m2)
      end
  end.




End WithMiner.

(** A dict whose every value is filed under its own permalink. *)
Definition filed (d : list (option string * post)) : Prop :=
  NoDup d.*1 ∧ ∀ k v, (k, v) ∈ d → permalink v = Some k.


(** The keys of the posts, when every post has one. *)
Definition permalinks (posts : list post) : list (option (option string)) :=
  permalink <$> posts.

(** Whether one of the two fallback fetches runs after a first fetch of
    [n] posts. *)
Definition falls_back (n : nat) (limit : Z) (category : string) : Prop :=
  (2 * Z.of_nat n < limit ∧ category = "top")%Z ∨ (4 * Z.of_nat n < 3 * limit)%Z.

End Gather.

(* ===================================================================== *)
(** ** pipeline.py: [IntegratedPipeline.run] *)
(* ===================================================================== *)

Module PipelineRun.
Import Pipeline PipelineBatch.

(** The process while [run] is under way: the world of the components,
    the list [batch_buffer] of [run], and whether [state.current_batch] is
    that very list.  [set_batch] stores the list it is given, so from the
    first batch that [run] hands over from its loop the two names denote
    one list.  [batches] is not a variable of the code: it counts the calls
    of [_process_subreddit_batch]. *)
Record Run : Type := {
  world : World;
  batch_buffer : list string;
  aliased : bool;
  batches : nat }.

Definition R (A : Type) : Type := Run → result A * Run.

Definition ret_r {A} (a : A) : R A := λ r, (Ok a, r).
Definition bind_r {A B} (m : R A) (k : A → R B) : R B :=
  λ r, match m r with
       | (Ok a, r') => k a r'
       | (Raise e, r') => (Raise e, r')
       end.
Definition get_r : R Run := λ r, (Ok r, r).
(** [try: m except Exception: ...], with handlers that do not raise. *)
Definition swallow_r (m : R unit) : R unit :=
  λ r, match m r with
       | (Ok _, r') => (Ok tt, r')
       | (Raise _, r') => (Ok tt, r')
       end.

Declare Scope run_scope.
Delimit Scope run_scope with run.
Notation "'do' x <- m ; k" := (bind_r m (λ x, k))
  (at level 10, x name, m at level 100, k at level 200) : run_scope.
Notation "'exec' m ; k" := (bind_r m (λ _, k))
  (at level 10, m at level 100, k at level 200) : run_scope.

(** A call into the components.  What it does to [current_batch] is seen
    through [batch_buffer] when the two are one list. *)
Definition lift {A} (m : M A) : R A :=
  λ r, let '(a, w') := m (world r) in
       (a, {| world := w';
              batch_buffer := if aliased r then current_batch w' else batch_buffer r;
              aliased := aliased r; batches := batches r |}).

(** [batch_buffer.append(name)] and [batch_buffer.clear()]. *)
Definition set_buffer (b : list string) : R unit :=
  λ r, (Ok tt,
        {| world := if aliased r
                    then {| dedup := dedup (world r); exporter := exporter (world r);
                            current_batch := b; disk := disk (world r) |}
                    else world r;
           batch_buffer := b; aliased := aliased r; batches := batches r |}).

Definition append (name : string) : R unit :=
  λ r, set_buffer (batch_buffer r ++ [name]) r.

Definition clear : R unit := set_buffer [].

(** [batch_buffer = []]: a new list, which nothing else refers to. *)
Definition new_buffer : R unit :=
  λ r, (Ok tt, {| world := world r; batch_buffer := []; aliased := false;
                  batches := batches r |}).

Section WithEnvironment.

Variable io : path → bool.
Variable USERS_CHUNK_SIZE : Z.
Variable ssh : option (list path → nat).
(** The module global [SUBREDDITS_BATCH_SIZE], set from [--batch-size]. *)
Variable SUBREDDITS_BATCH_SIZE : Z.
(** What the scraping of a subreddit brings back, in the given call of
    [_process_subreddit_batch], at the given position of its loop. *)
Variable gather : nat → nat → string → gset string.
(** What [search_by_keyword] yields for a keyword when it is consumed to
    its end, and the exception it ends with, if any. *)
Variable search : string → list string * option exn.

(** [self._process_subreddit_batch(batch_buffer)]: from here on
    [current_batch] is the buffer. *)
Definition process_buffer : R unit :=
  (exec (λ r, (Ok tt, {| world := world r; batch_buffer := batch_buffer r;
                         aliased := true; batches := S (batches r) |}));
   do r <- get_r;
   lift (_process_subreddit_batch io USERS_CHUNK_SIZE ssh (gather (batches r))
                                  (batch_buffer r)))%run.

(** The resumption of an incomplete batch.  The list handed over is a new
    one; the test [s not in processed_subreddits] compares the name as it
    was saved. *)
Definition resume : R unit :=
  (do r <- get_r;
   let remaining :=
     filter (λ s, s ∉ processed_subreddits (dedup (world r)))
            (current_batch (world r)) in
   if bool_decide (current_batch (world r) ≠ []) && bool_decide (remaining ≠ [])
   then
     exec (λ r, (Ok tt, {| world := world r; batch_buffer := batch_buffer r;
                           aliased := false; batches := S (batches r) |}));
     lift (_process_subreddit_batch io USERS_CHUNK_SIZE ssh (gather (S (batches r)))
                                    remaining)
   else ret_r tt)%run.

(** The body of the loop over the subreddits a search yields. *)
Definition on_subreddit (subreddit_name : string) : R unit :=
  (do r <- get_r;
   if is_subreddit_processed subreddit_name (dedup (world r)) then ret_r tt
   else
     do is_new <- lift (mark_subreddit_discovered io subreddit_name);
     do r <- get_r;
     exec (if should_add_to_batch subreddit_name (dedup (world r))
              && bool_decide (subreddit_name ∉ batch_buffer r)
           then exec append subreddit_name;
                lift (mark_subreddit_queued subreddit_name)
           else ret_r tt);
     do r <- get_r;
     if bool_decide (SUBREDDITS_BATCH_SIZE ≤ Z.of_nat (length (batch_buffer r)))%Z
     then exec process_buffer;
          exec clear;
          lift (PipelineState_save io)
     else ret_r tt)%run.

Fixpoint on_subreddits (yielded : list string) : R unit :=
  match yielded with
  | [] => ret_r tt
  | name :: rest => (exec on_subreddit name; on_subreddits rest)%run
  end.

(** One keyword: both handlers of the [try] log and go on. *)
Definition on_keyword (keyword : string) : R unit :=
  swallow_r
    (exec on_subreddits (search keyword).1;
     match (search keyword).2 with
     | Some e => λ r, (Raise e, r)
     | None => ret_r tt
     end)%run.

Fixpoint on_keywords (keywords : list string) : R unit :=
  match keywords with
  | [] => ret_r tt
  | keyword :: rest => (exec on_keyword keyword; on_keywords rest)%run
  end.

(** [run], with the stop flag never seen set: the signal handler leaves
    the process by itself. *)
Definition run : R unit :=
  (exec resume;
   exec new_buffer;
   exec on_keywords Main.NSFW_SEARCH_KEYWORDS;
   do r <- get_r;
   exec (if bool_decide (batch_buffer r ≠ []) then process_buffer else ret_r tt);
   do r <- get_r;
   if bool_decide (pending_users (exporter (world r)) ≠ ∅)
   then do files <- lift (export_chunks io USERS_CHUNK_SIZE ssh true
                                        USERS_EXPORT_THRESHOLD);
        ret_r tt
   else ret_r tt)%run.

End WithEnvironment.

(** The batches that names fill, one after the other, when a batch is
    handed over as soon as it holds [size] names: the full batches in
    order, and the names left in the buffer. *)
Fixpoint fill (size : nat) (names buffer : list string)
  : list (list string) * list string :=
  match names with
  | [] => ([], buffer)
  | name :: rest =>
      if bool_decide (size ≤ length (buffer ++ [name])%list)%nat
      then let '(full, remainder) := fill size rest [] in
           ((buffer ++ [name])%list :: full, remainder)
      else fill size rest (buffer ++ [name])%list
  end.

(** The names [run] processes out of a list of batches. *)
Definition processed_of (batches : list (list string)) : list string :=
  Str.lower <$> concat (alternate true <$> batches).

(** All the names the searches of a run yield, in order. *)
Definition all_yielded (search : string → list string * option exn)
           (keywords : list string) : list string :=
  concat ((λ keyword, (search keyword).1) <$> keywords).

(** A process that has just started on an empty output directory. *)
Definition just_started : Run :=
  {| world := start empty_disk; batch_buffer := []; aliased := false;
     batches := 0 |}.

End PipelineRun.

(* ===================================================================== *)
(** ** Worked inputs for the gathering and for the run *)
(* ===================================================================== *)

Module LaterRuns.
Import Pipeline PipelineRuns Commenters CommenterTools Gather PipelineRun.

Definition post_at (permalink : string) : post :=
  {| permalink := Some (Some permalink); url := None; link := None;
     post_title := None |}.

(** A miner whose every listing holds the same post twice. *)
Definition repeated_post : Z → string → string → miner → fetch_outcome (list post) :=
  λ _ _ _ _, Fetched [post_at "/r/alpha/comments/1/"; post_at "/r/alpha/comments/1/"].

(** A search that yields three subreddits for the first keyword and
    nothing for the others. *)
Definition three_found : string → list string * option exn :=
  λ keyword,
    if bool_decide (keyword = "nsfw")
    then (["alpha"; "beta"; "gamma"], None)
    else ([], None).

Definition nobody : nat → nat → string → gset string := λ _ _ _, ∅.

(** Two names admitted on a fresh store and not exported yet. *)
Definition two_pending : World := (add_users all_ok {["alice"; "bob"]} fresh).2.

End LaterRuns.

(* ===================================================================== *)
(** * Properties                                                           *)
(* ===================================================================== *)

(** ** The library functions of the model, on small inputs *)

Module Checks.
Import Str Pipeline PipelineSpec Commenters.

Example lower_name : lower "Alice_B-9" = "alice_b-9".
Proof. reflexivity. Qed.

Example strip_line : strip (" a b " +:+ String "010"%char "") = "a b".
Proof. reflexivity. Qed.

Example read_two_lines :
  read_lines ("alice" +:+ String "010"%char ("bob" +:+ String "010"%char ""))
  = ["alice"; "bob"].
Proof. reflexivity. Qed.

Example sorted_is_case_sensitive :
  sorted ["bob"; "Alice"; "Zed"; "ALICE"; "alice"]
  = ["ALICE"; "Alice"; "Zed"; "alice"; "bob"].
Proof. reflexivity. Qed.

Example range_of_five_by_two : py_range 5 2 = Ok [0; 2; 4]%nat.
Proof. reflexivity. Qed.

Example range_of_four_by_two : py_range 4 2 = Ok [0; 2]%nat.
Proof. reflexivity. Qed.

Example range_by_zero : py_range 3 0 = Raise ValueError.
Proof. reflexivity. Qed.

Example range_by_negative : py_range 3 (-1) = Ok [].
Proof. reflexivity. Qed.

Example slices_of_five :
  slices 2 ["a"; "b"; "c"; "d"; "e"] = [["a"; "b"]; ["c"; "d"]; ["e"]].
Proof. reflexivity. Qed.

Example forbidden_is_recoverable : is_recoverable "HTTP 403 Forbidden" = true.
Proof. reflexivity. Qed.

Example parse_error_is_permanent : is_recoverable "Expecting value" = false.
Proof. reflexivity. Qed.

End Checks.

(** ** Strings *)

Module StrFacts.
Import Str.

Lemma lower_ascii_not_space c : isspace c = false → isspace (lower_ascii c) = false.
Proof.
  destruct c as [[] [] [] [] [] [] [] []]; vm_compute; congruence.
Qed.

Lemma lower_no_space s : no_space s = true → no_space (lower s) = true.
Proof.
  induction s as [|c s IH]; simpl; [done|].
  intros [Hc Hs]%andb_true_iff. apply andb_true_iff. split; [|auto].
  apply negb_true_iff, lower_ascii_not_space. by apply negb_true_iff.
Qed.

Lemma clean_spec s : clean s = true ↔ s ≠ EmptyString ∧ no_space s = true.
Proof.
  unfold clean. rewrite andb_true_iff, negb_true_iff, bool_decide_eq_false. done.
Qed.

Lemma lower_clean s : clean s = true → clean (lower s) = true.
Proof.
  rewrite !clean_spec. intros [Hne Hs]. split; [|by apply lower_no_space].
  destruct s; [done|]. discriminate.
Qed.

Lemma lstrip_no_space s : no_space s = true → lstrip s = s.
Proof.
  destruct s as [|c s]; simpl; [done|].
  intros [Hc _]%andb_true_iff. apply negb_true_iff in Hc. by rewrite Hc.
Qed.

Lemma rstrip_no_space s : no_space s = true → rstrip s = s.
Proof.
  induction s as [|c s IH]; simpl; [done|].
  intros [Hc Hs]%andb_true_iff. apply negb_true_iff in Hc.
  rewrite (IH Hs), Hc. by destruct s.
Qed.

Lemma strip_no_space s : no_space s = true → strip s = s.
Proof.
  intros H. unfold strip. rewrite (lstrip_no_space s H). by apply rstrip_no_space.
Qed.

Lemma line_break_is_space c : is_line_break c = true → isspace c = true.
Proof.
  destruct c as [[] [] [] [] [] [] [] []]; vm_compute; congruence.
Qed.

(** Reading back a line that was written with its terminator. *)
Lemma read_lines_line s rest :
  no_space s = true →
  read_lines (s +:+ String "010"%char rest) = s :: read_lines rest.
Proof.
  induction s as [|c s IH]; simpl; [done|].
  intros [Hc Hs]%andb_true_iff. apply negb_true_iff in Hc.
  destruct (is_line_break c) eqn:Hb.
  - apply line_break_is_space in Hb. congruence.
  - fold (s +:+ String "010"%char rest). by rewrite (IH Hs).
Qed.

(** A text of terminated lines reads back as those lines. *)
Lemma read_lines_text (ls : list string) :
  Forall (λ l, clean l = true) ls →
  filter (λ l, l ≠ EmptyString)
         (strip <$> read_lines
            (foldr (λ user rest, user +:+ String "010"%char rest) EmptyString ls))
  = ls.
Proof.
  induction 1 as [|l ls [Hne Hl]%clean_spec _ IH]; [done|].
  cbn [foldr]. rewrite read_lines_line, fmap_cons by done.
  rewrite (strip_no_space l Hl), filter_cons_True by done. by rewrite IH.
Qed.

Lemma sorted_perm xs : sorted xs ≡ₚ xs.
Proof. apply merge_sort_Permutation. Qed.

Lemma sorted_Sorted xs : Sorted String.le (sorted xs).
Proof. apply (Sorted_merge_sort String.le). Qed.

Lemma sorted_length xs : length (sorted xs) = length xs.
Proof. apply Permutation_length, sorted_perm. Qed.

Lemma sorted_NoDup xs : NoDup xs → NoDup (sorted xs).
Proof. intros H. by rewrite sorted_perm. Qed.

Lemma elem_of_sorted x xs : x ∈ sorted xs ↔ x ∈ xs.
Proof. by rewrite sorted_perm. Qed.

End StrFacts.

(** ** The dedup store *)

Module DedupFacts.
Import Pipeline PipelineSpec.

Ltac run_monad :=
  unfold bind, get, ret, raise, swallow, set_dedup, set_exporter,
    set_disk, open_w; simpl.

(** [save_state] never raises; it touches nothing but the two counters and
    the two dedup files, and a users file it writes holds the seen set. *)
Lemma save_state_spec io force w :
  ∃ w', save_state io force w = (Ok tt, w')
    ∧ same_sets (dedup w) (dedup w')
    ∧ exporter w' = exporter w
    ∧ current_batch w' = current_batch w
    ∧ same_export_files (disk w) (disk w')
    ∧ (users_file (disk w') = users_file (disk w)
       ∨ users_file (disk w') = Some (users_text (seen_users (dedup w))))
    ∧ (force = true → io UsersFile = true →
       users_file (disk w') = Some (users_text (seen_users (dedup w)))).
Proof.
  unfold save_state. run_monad.
  destruct force, (io SubredditFile), (io UsersFile); simpl;
    repeat (case_bool_decide; simpl);
    eexists; (split; [reflexivity|]); simpl;
    unfold same_sets, same_export_files; simpl; intuition congruence.
Qed.

Lemma same_sets_inv d d' : same_sets d d' → dedup_inv d → dedup_inv d'.
Proof.
  unfold same_sets, dedup_inv. intros (-> & -> & -> & _). done.
Qed.

(** What [filter_new_users] returns and leaves behind. *)
Lemma filter_new_users_spec io (users : gset string) w :
  ∃ w', filter_new_users io users w
        = (Ok (filter (λ u, Str.lower u ∉ seen_users (dedup w)) users), w')
    ∧ seen_users (dedup w') = seen_users (dedup w) ∪ set_map Str.lower users
    ∧ discovered_subreddits (dedup w') = discovered_subreddits (dedup w)
    ∧ processed_subreddits (dedup w') = processed_subreddits (dedup w)
    ∧ queued_subreddits (dedup w') = queued_subreddits (dedup w)
    ∧ exporter w' = exporter w
    ∧ current_batch w' = current_batch w
    ∧ same_export_files (disk w) (disk w')
    ∧ (users_file (disk w') = users_file (disk w)
       ∨ users_file (disk w') = Some (users_text (seen_users (dedup w')))).
Proof.
  set (new_lower := set_map Str.lower users ∖ seen_users (dedup w)).
  assert (filter (λ u, Str.lower u ∈ new_lower) users
          = filter (λ u, Str.lower u ∉ seen_users (dedup w)) users) as Hret.
  { apply set_eq. intros u. rewrite !elem_of_filter. unfold new_lower.
    rewrite elem_of_difference, elem_of_map. split; [tauto|].
    intros [Hu Hin]. eauto. }
  assert (seen_users (dedup w) ∪ new_lower
          = seen_users (dedup w) ∪ set_map Str.lower users) as Hseen.
  { apply set_eq. intros x. unfold new_lower.
    rewrite !elem_of_union, elem_of_difference.
    destruct (decide (x ∈ seen_users (dedup w))); tauto. }
  unfold filter_new_users. run_monad. fold new_lower.
  case_bool_decide as Hnew; simpl.
  - exists w. rewrite <- Hseen, <- Hret, Hnew.
    split; [|split; [|unfold same_export_files; by auto 10]].
    + f_equal. f_equal. apply set_eq. intros u.
      rewrite elem_of_filter. set_solver.
    + set_solver.
  - rewrite Hret, Hseen.
    match goal with
    | |- context [if ?b then _ else _] => destruct b
    end.
    + match goal with
      | |- context [save_state io false ?w1] =>
          destruct (save_state_spec io false w1)
            as (w' & -> & (Hd & Hp & Hq & Hs) & He & Hb & Hf & Hu & _)
      end.
      simpl in *. exists w'. rewrite Hd, Hp, Hq, Hs, He, Hb.
      unfold same_export_files in *. by auto 12.
    + eexists. split; [reflexivity|]. simpl.
      unfold same_export_files. by auto 12.
Qed.

(** C2.  Idempotent admission: on a store in which no member of the set has
    been seen (case-insensitively), [filter_new_users] returns the whole
    set, casing variants included, and the same call repeated at once
    returns the empty set. *)
Theorem filter_new_users_twice io (users : gset string) w :
  (∀ u, u ∈ users → is_user_seen u (dedup w) = false) →
  ∃ w1 w2, filter_new_users io users w = (Ok users, w1)
         ∧ filter_new_users io users w1 = (Ok ∅, w2).
Proof.
  intros Hunseen.
  destruct (filter_new_users_spec io users w) as (w1 & E1 & Hseen1 & _).
  destruct (filter_new_users_spec io users w1) as (w2 & E2 & _).
  exists w1, w2. rewrite E1, E2. split; f_equal; f_equal.
  - apply set_eq. intros u. rewrite elem_of_filter. split; [tauto|].
    intros Hu. split; [|done].
    specialize (Hunseen u Hu). unfold is_user_seen in Hunseen.
    by apply bool_decide_eq_false in Hunseen.
  - apply set_eq. intros u. rewrite elem_of_filter, Hseen1.
    split; [|set_solver]. intros [Hn Hu]. exfalso. apply Hn.
    apply elem_of_union_r, elem_of_map. eauto.
Qed.

(** C5 (as the code has it).  [mark_subreddit_discovered] and [clear_queue]
    keep the invariant; [mark_subreddit_processed] keeps the two sets
    disjoint, and keeps [processed ⊆ discovered] when the name was
    discovered before; [mark_subreddit_queued] and [set_queue] keep the
    invariant when the names they queue are not processed. *)
Theorem dedup_operations_invariant io w name (names : list string) :
  dedup_inv (dedup w) →
  dedup_inv (dedup (mark_subreddit_discovered io name w).2)
  ∧ dedup_inv (dedup (clear_queue w).2)
  ∧ processed_subreddits (dedup (mark_subreddit_processed io name w).2)
    ## queued_subreddits (dedup (mark_subreddit_processed io name w).2)
  ∧ (is_subreddit_seen name (dedup w) = true →
     dedup_inv (dedup (mark_subreddit_processed io name w).2))
  ∧ (is_subreddit_processed name (dedup w) = false →
     dedup_inv (dedup (mark_subreddit_queued name w).2))
  ∧ ((∀ s, s ∈ names → is_subreddit_processed s (dedup w) = false) →
     dedup_inv (dedup (set_queue names w).2)).
Proof.
  intros [Hdisj Hsub].
  assert (∀ (b : bool) (d' : DeduplicationManager),
            ∃ w', (if b then save_state io false else ret tt)
                    {| dedup := d'; exporter := exporter w;
                       current_batch := current_batch w; disk := disk w |}
                  = (Ok tt, w') ∧ same_sets d' (dedup w')) as Hsave.
  { intros [] d'.
    - destruct (save_state_spec io false
                  {| dedup := d'; exporter := exporter w;
                     current_batch := current_batch w; disk := disk w |})
        as (w' & -> & Hs & _). eauto.
    - eexists. split; [reflexivity|]. by unfold same_sets. }
  unfold ret in Hsave.
  split; [|split; [|split; [|split; [|split]]]].
  - unfold mark_subreddit_discovered. run_monad.
    case_bool_decide as Hin; simpl; [by split|].
    match goal with
    | |- context [(if ?b then _ else _) (Build_World ?d _ _ _)] =>
        destruct (Hsave b d) as (w' & -> & Hs)
    end.
    simpl. apply (same_sets_inv _ _ Hs). split; simpl; set_solver.
  - unfold clear_queue. run_monad. split; simpl; set_solver.
  - unfold mark_subreddit_processed. run_monad.
    match goal with
    | |- context [(if ?b then _ else _) (Build_World ?d _ _ _)] =>
        destruct (Hsave b d) as (w' & -> & (_ & Hp & Hq & _))
    end.
    simpl. rewrite Hp, Hq. simpl. set_solver.
  - intros Hseen%bool_decide_eq_true.
    unfold mark_subreddit_processed. run_monad.
    match goal with
    | |- context [(if ?b then _ else _) (Build_World ?d _ _ _)] =>
        destruct (Hsave b d) as (w' & -> & Hs)
    end.
    simpl. apply (same_sets_inv _ _ Hs). split; simpl; set_solver.
  - intros Hnp%bool_decide_eq_false.
    unfold mark_subreddit_queued. run_monad. split; simpl; set_solver.
  - intros Hnp. unfold set_queue. run_monad. split; simpl; [|done].
    intros x Hx [s [-> Hs]]%elem_of_list_to_set%list_elem_of_fmap.
    specialize (Hnp s Hs). by apply bool_decide_eq_false in Hnp.
Qed.

End DedupFacts.

(** ** The export batcher *)

Module ExportFacts.
Import Pipeline PipelineSpec DedupFacts.

Lemma concat_take_drop (k : nat) (l : list string) (m : nat) :
  (0 < k)%nat → (length l ≤ m * k)%nat →
  concat ((λ j, take k (drop (j * k) l)) <$> seq 0 m) = l.
Proof.
  intros Hk. revert l. induction m as [|m IH]; intros l Hlen.
  - destruct l; [done|simpl in Hlen; lia].
  - cbn [seq]. rewrite <- fmap_S_seq, fmap_cons, <- list_fmap_compose.
    cbn [concat].
    rewrite (list_fmap_ext _ (λ j, take k (drop (j * k) (drop k l))) (seq 0 m)).
    + rewrite IH; [apply take_drop|]. rewrite length_drop. lia.
    + intros _ j _. simpl. rewrite drop_drop. f_equal.
Qed.

Lemma py_range_pos (n : nat) (size : Z) :
  (0 < size)%Z →
  ∃ m, py_range n size = Ok ((λ j, j * Z.to_nat size)%nat <$> seq 0 m)
     ∧ ((Z.of_nat m - 1) * size < Z.of_nat n ≤ Z.of_nat m * size)%Z.
Proof.
  intros Hs. unfold py_range.
  rewrite bool_decide_eq_false_2, bool_decide_eq_false_2 by lia.
  destruct n as [|n'].
  - exists 0%nat. split; [done|lia].
  - exists (n' / Z.to_nat size + 1)%nat. split; [done|].
    assert (0 < Z.to_nat size)%nat as Hk by lia.
    pose proof (Nat.div_mod n' (Z.to_nat size) ltac:(lia)) as Hdm.
    pose proof (Nat.mod_upper_bound n' (Z.to_nat size) ltac:(lia)) as Hmod.
    set (q := (n' / Z.to_nat size)%nat) in *.
    set (r := (n' mod Z.to_nat size)%nat) in *.
    assert (size = Z.of_nat (Z.to_nat size)) as Hsz by lia.
    rewrite Hsz. nia.
Qed.

(** The slices of a positive chunk size: together they are the list, none is
    longer than the chunk size, and there are [ceil(len / size)] of them. *)
Lemma slices_pos (size : Z) (l : list string) :
  (0 < size)%Z →
  concat (slices size l) = l
  ∧ Forall (λ chunk, Z.of_nat (length chunk) ≤ size)%Z (slices size l)
  ∧ ((Z.of_nat (length (slices size l)) - 1) * size
      < Z.of_nat (length l) ≤ Z.of_nat (length (slices size l)) * size)%Z.
Proof.
  intros Hs. unfold slices.
  destruct (py_range_pos (length l) size Hs) as (m & -> & Hm).
  split; [|split].
  - rewrite <- list_fmap_compose. apply concat_take_drop; [lia|]. nia.
  - apply Forall_fmap, Forall_forall. intros i _. simpl.
    rewrite length_take. lia.
  - by rewrite !length_fmap, length_seq.
Qed.

(** Whatever the chunk size, the slices never invent or repeat a name. *)
Lemma slices_cases (size : Z) (l : list string) :
  slices size l = [] ∨ ((0 < size)%Z ∧ concat (slices size l) = l).
Proof.
  destruct (decide (0 < size)%Z) as [Hs|Hs].
  - right. split; [done|]. by apply slices_pos.
  - left. unfold slices, py_range. repeat case_bool_decide; try done. lia.
Qed.

Lemma export_one_ok io size users_list i w :
  io_ok io →
  export_one io size users_list i w
  = (Ok [ChunkCsv (S (chunk_count (exporter w)));
         ChunkJson (S (chunk_count (exporter w)))],
     {| dedup := dedup w;
        exporter :=
          {| pending_users := pending_users (exporter w);
             chunk_count := S (chunk_count (exporter w));
             total_exported := total_exported (exporter w);
             total_uploaded := total_uploaded (exporter w) |};
        current_batch := current_batch w;
        disk := put_chunks (chunk_count (exporter w))
                  [take (Z.to_nat size) (drop i users_list)] (disk w) |}).
Proof.
  intros Hio. unfold export_one. run_monad.
  rewrite !Hio. simpl. by rewrite Nat.add_1_r.
Qed.

Lemma put_chunks_app n chunks1 chunks2 k :
  put_chunks n (chunks1 ++ chunks2) k
  = put_chunks (n + length chunks1) chunks2 (put_chunks n chunks1 k).
Proof.
  revert n k. induction chunks1 as [|c cs IH]; intros n k; simpl.
  - by rewrite Nat.add_0_r.
  - rewrite IH. f_equal. lia.
Qed.

(** The loop of [export_chunks] when every write succeeds. *)
Lemma export_loop_ok io size users_list idxs files_created chunk_files w :
  io_ok io →
  ∃ chunk_files',
    export_loop io size users_list idxs files_created chunk_files w
    = (Ok ((files_created + length idxs)%nat, chunk_files'),
       {| dedup := dedup w;
          exporter :=
            {| pending_users := pending_users (exporter w);
               chunk_count := chunk_count (exporter w) + length idxs;
               total_exported := total_exported (exporter w);
               total_uploaded := total_uploaded (exporter w) |};
          current_batch := current_batch w;
          disk := put_chunks (chunk_count (exporter w))
                    ((λ i, take (Z.to_nat size) (drop i users_list)) <$> idxs)
                    (disk w) |}).
Proof.
  intros Hio. revert files_created chunk_files w.
  induction idxs as [|i idxs IH]; intros files_created chunk_files w.
  - exists chunk_files. simpl. unfold ret.
    rewrite !Nat.add_0_r. by destruct w as [? [] ? ?].
  - cbn [export_loop]. unfold bind at 1.
    rewrite export_one_ok by done.
    edestruct IH as [cf' ->]. exists cf'. simpl.
    replace (files_created + 1 + length idxs)%nat
      with (files_created + S (length idxs))%nat by lia.
    replace (S (chunk_count (exporter w) + length idxs))
      with (chunk_count (exporter w) + S (length idxs))%nat by lia.
    reflexivity.
Qed.

Lemma put_chunks_other n chunks k :
  subreddit_file (put_chunks n chunks k) = subreddit_file k
  ∧ users_file (put_chunks n chunks k) = users_file k
  ∧ exporter_state_file (put_chunks n chunks k) = exporter_state_file k
  ∧ pipeline_state_file (put_chunks n chunks k) = pipeline_state_file k.
Proof.
  revert n k. induction chunks as [|c cs IH]; intros n k; simpl; [done|].
  destruct (IH (S n) (write_chunk_json (S n) c (write_chunk_csv (S n) c k)))
    as (-> & -> & -> & ->). done.
Qed.

Lemma lookup_put_chunks_json n chunks k m :
  chunk_json (put_chunks n chunks k) !! m
  = if decide (n < m)%nat
    then match chunks !! (m - S n)%nat with
         | Some chunk => Some (chunk_doc chunk)
         | None => chunk_json k !! m
         end
    else chunk_json k !! m.
Proof.
  revert n k. induction chunks as [|c cs IH]; intros n k; simpl.
  - by destruct (decide _).
  - rewrite IH. simpl.
    destruct (decide (S n < m)%nat), (decide (n < m)%nat); try lia.
    + replace (m - S n)%nat with (S (m - S (S n))) by lia. simpl.
      destruct (cs !! _); [done|]. apply lookup_insert_ne. lia.
    + assert (m = S n) as -> by lia. rewrite Nat.sub_diag. simpl.
      apply lookup_insert_eq.
    + apply lookup_insert_ne. lia.
Qed.

Lemma put_chunks_mirror n chunks k :
  chunk_csv k = csv_of <$> chunk_json k →
  chunk_csv (put_chunks n chunks k) = csv_of <$> chunk_json (put_chunks n chunks k).
Proof.
  revert n k. induction chunks as [|c cs IH]; intros n k Hk; simpl; [done|].
  apply IH. simpl. by rewrite fmap_insert, Hk.
Qed.

Lemma exported_json_insert n chunk k :
  chunk_json k !! n = None →
  exported_json (write_chunk_json n chunk k) ≡ₚ chunk ++ exported_json k.
Proof.
  intros Hn. unfold exported_json. simpl.
  rewrite map_to_list_insert by done. done.
Qed.

Lemma put_chunks_exported n chunks k :
  (∀ m, is_Some (chunk_json k !! m) → (m ≤ n)%nat) →
  exported_json (put_chunks n chunks k) ≡ₚ exported_json k ++ concat chunks.
Proof.
  revert n k. induction chunks as [|c cs IH]; intros n k Hb; simpl.
  - by rewrite app_nil_r.
  - rewrite IH.
    + rewrite exported_json_insert.
      * unfold exported_json at 1. simpl.
        fold (exported_json k). rewrite (assoc (++)).
        f_equiv. apply Permutation_app_comm.
      * simpl. apply eq_None_not_Some. intros H%Hb. lia.
    + intros m. simpl. rewrite lookup_insert_is_Some.
      intros [->|[_ H%Hb]]; lia.
Qed.

Lemma put_chunks_bound n chunks k m :
  (∀ m, is_Some (chunk_json k !! m) → (m ≤ n)%nat) →
  is_Some (chunk_json (put_chunks n chunks k) !! m) → (m ≤ n + length chunks)%nat.
Proof.
  intros Hb. rewrite lookup_put_chunks_json.
  destruct (decide _); [|intros H%Hb; lia].
  destruct (chunks !! _) eqn:E; [|intros H%Hb; lia].
  apply lookup_lt_Some in E. lia.
Qed.

Lemma py_range_raise n size e :
  py_range n size = Raise e → size = 0%Z ∧ e = ValueError.
Proof.
  unfold py_range. repeat case_bool_decide; try done; [naive_solver|].
  by destruct n.
Qed.

(** The whole of [export_chunks] when every write succeeds. *)
Lemma export_chunks_spec io size ssh force threshold w :
  io_ok io →
  let users_list := Str.sorted (elements (pending_users (exporter w))) in
  let chunks := slices size users_list in
  (¬ exports force threshold w
   ∧ export_chunks io size ssh force threshold w = (Ok 0%nat, w))
  ∨ (exports force threshold w ∧ size = 0%Z
     ∧ export_chunks io size ssh force threshold w = (Raise ValueError, w))
  ∨ (exports force threshold w ∧ size ≠ 0%Z
     ∧ ∃ w', export_chunks io size ssh force threshold w = (Ok (length chunks), w')
         ∧ same_sets (dedup w) (dedup w')
         ∧ current_batch w' = current_batch w
         ∧ pending_users (exporter w') = ∅
         ∧ chunk_count (exporter w')
           = (chunk_count (exporter w) + length chunks)%nat
         ∧ UserExporter_init (disk w') = exporter w'
         ∧ chunk_csv (disk w')
           = chunk_csv (put_chunks (chunk_count (exporter w)) chunks (disk w))
         ∧ chunk_json (disk w')
           = chunk_json (put_chunks (chunk_count (exporter w)) chunks (disk w))
         ∧ pipeline_state_file (disk w') = pipeline_state_file (disk w)
         ∧ users_file (disk w') = Some (users_text (seen_users (dedup w)))).
Proof.
  intros Hio users_list chunks.
  assert (∀ A (f : World → M A) w0, bind get f w0 = f w0 w0) as bind_get by done.
  unfold export_chunks. rewrite !bind_get.
  destruct (decide (exports force threshold w)) as [[Hgo Hne]|Hno].
  2:{ left. split; [done|].
      destruct (bool_decide (pending_users (exporter w) = ∅)) eqn:E2.
      { by destruct (negb force && _). }
      destruct (negb force
                && bool_decide (Z.of_nat (base.size (pending_users (exporter w)))
                                < threshold)%Z) eqn:E1; [reflexivity|].
      exfalso. apply Hno. apply bool_decide_eq_false in E2.
      split; [|done].
      apply andb_false_iff in E1 as [E1|E1].
      - left. by destruct force.
      - right. apply bool_decide_eq_false in E1. lia. }
  right.
  rewrite (proj2 (andb_false_iff _ _)).
  2:{ destruct Hgo as [->|Hgo]; [by left|].
      right. apply bool_decide_eq_false. lia. }
  rewrite bool_decide_eq_false_2 by done.
  fold users_list.
  destruct (py_range (length users_list) size) as [idxs|e] eqn:Hrange.
  2:{ left. apply py_range_raise in Hrange as [-> ->]. done. }
  right. split; [done|]. split.
  { intros ->. unfold py_range in Hrange. by rewrite bool_decide_eq_true_2 in Hrange. }
  assert (chunks = (λ i, take (Z.to_nat size) (drop i users_list)) <$> idxs) as Hchunks.
  { unfold chunks, slices. by rewrite Hrange. }
  unfold bind at 1.
  destruct (export_loop_ok io size users_list idxs 0 [] w Hio) as [cf ->].
  rewrite <- Hchunks.
  replace (0 + length idxs)%nat with (length chunks)
    by (by rewrite Hchunks, length_fmap).
  run_monad.
  replace (length idxs) with (length chunks) by (by rewrite Hchunks, length_fmap).
  destruct (put_chunks_other (chunk_count (exporter w)) chunks (disk w))
    as (_ & _ & _ & Hps).
  destruct ssh as [upload_files|]; [case_bool_decide|]; simpl;
    unfold _save_state; run_monad; rewrite Hio; simpl;
    (match goal with
     | |- context [save_state io true ?w1] =>
         destruct (save_state_spec io true w1)
           as (w' & E & Hs & He & Hb & (Hf1 & Hf2 & Hf3 & Hf4) & _ & Hu)
     end);
    specialize (Hu eq_refl (Hio _)); simpl in *;
    rewrite E; exists w'; unfold UserExporter_init;
    rewrite He, Hb, Hf1, Hf2, Hf3, Hf4, Hu, Hps; simpl;
    rewrite elements_empty; simpl; by auto 12.
Qed.

Lemma lookup_put_chunks_csv n chunks k m :
  chunk_csv (put_chunks n chunks k) !! m
  = if decide (n < m)%nat
    then match chunks !! (m - S n)%nat with
         | Some chunk => Some ("username" :: chunk)
         | None => chunk_csv k !! m
         end
    else chunk_csv k !! m.
Proof.
  revert n k. induction chunks as [|c cs IH]; intros n k; simpl.
  - by destruct (decide _).
  - rewrite IH. simpl.
    destruct (decide (S n < m)%nat), (decide (n < m)%nat); try lia.
    + replace (m - S n)%nat with (S (m - S (S n))) by lia. simpl.
      destruct (cs !! _); [done|]. apply lookup_insert_ne. lia.
    + assert (m = S n) as -> by lia. rewrite Nat.sub_diag. simpl.
      apply lookup_insert_eq.
    + apply lookup_insert_ne. lia.
Qed.

(** C4.  When every write succeeds and the chunk size is positive,
    [export_chunks] writes the chunks under the next ordinals, the CSV and
    the JSON file of a chunk holding the same list; no chunk is longer
    than the chunk size; the chunks are consecutive slices of the pending
    buffer sorted in ascending (case-sensitive) order; and a forced call
    writes exactly [ceil(pending / chunk size)] of them. *)
Theorem export_chunks_chunking io chunk_size ssh force threshold w :
  io_ok io → (0 < chunk_size)%Z →
  let pending := elements (pending_users (exporter w)) in
  let n := chunk_count (exporter w) in
  ∃ chunks w',
    export_chunks io chunk_size ssh force threshold w = (Ok (length chunks), w')
    ∧ (∀ j chunk, chunks !! j = Some chunk →
         chunk_csv (disk w') !! (n + 1 + j)%nat = Some ("username" :: chunk)
         ∧ chunk_json (disk w') !! (n + 1 + j)%nat
           = Some {| doc_users := chunk; doc_count := length chunk |})
    ∧ (∀ m, (m ≤ n ∨ n + length chunks < m)%nat →
         chunk_csv (disk w') !! m = chunk_csv (disk w) !! m
         ∧ chunk_json (disk w') !! m = chunk_json (disk w) !! m)
    ∧ Forall (λ chunk, Z.of_nat (length chunk) ≤ chunk_size)%Z chunks
    ∧ (chunks = [] ∨ concat chunks = Str.sorted pending)
    ∧ (force = true →
       concat chunks = Str.sorted pending
       ∧ ((Z.of_nat (length chunks) - 1) * chunk_size
           < Z.of_nat (length pending) ≤ Z.of_nat (length chunks) * chunk_size)%Z)
    ∧ Sorted String.le (Str.sorted pending)
    ∧ Str.sorted pending ≡ₚ pending.
Proof.
  intros Hio Hsize pending n.
  destruct (export_chunks_spec io chunk_size ssh force threshold w Hio)
    as [[Hno E]|[(_ & -> & _)|(Hgo & _ & w' & E & _ & _ & _ & _ & _ & Hcsv & Hjson & _)]];
    [|lia|].
  - exists [], w. rewrite E. simpl.
    split; [done|]. split; [done|]. split; [done|]. split; [done|].
    split; [by left|]. split; [|split; [apply StrFacts.sorted_Sorted
                                       |apply StrFacts.sorted_perm]].
    intros ->.
    assert (pending_users (exporter w) = ∅) as Hempty.
    { destruct (decide (pending_users (exporter w) = ∅)); [done|].
      exfalso. apply Hno. split; [by left|done]. }
    unfold pending. rewrite Hempty, elements_empty. simpl. split; [done|lia].
  - fold pending in E, Hcsv, Hjson. fold n in Hcsv, Hjson.
    set (chunks := slices chunk_size (Str.sorted pending)) in *.
    destruct (slices_pos chunk_size (Str.sorted pending) Hsize)
      as (Hcat & Hlen & Hceil). fold chunks in Hcat, Hlen, Hceil.
    rewrite StrFacts.sorted_length in Hceil.
    exists chunks, w'. split; [done|].
    split; [|split; [|split; [done|split; [by right|split; [done|]]]]].
    + intros j chunk Hj. rewrite Hcsv, Hjson.
      rewrite lookup_put_chunks_csv, lookup_put_chunks_json.
      destruct (decide _); [|lia].
      replace (n + 1 + j - S n)%nat with j by lia. by rewrite Hj.
    + intros m Hm. rewrite Hcsv, Hjson.
      rewrite lookup_put_chunks_csv, lookup_put_chunks_json.
      destruct (decide _); [|done].
      rewrite (lookup_ge_None_2 chunks) by lia. done.
    + split; [apply StrFacts.sorted_Sorted|apply StrFacts.sorted_perm].
Qed.

Lemma export_inv_fresh : export_inv (start empty_disk).
Proof.
  assert (exported_json empty_disk = []) as Hnil.
  { unfold exported_json. simpl. by rewrite map_to_list_empty. }
  split; simpl; rewrite ?Hnil; try done.
  - intros m [x Hx]. by rewrite lookup_empty in Hx.
  - constructor.
  - intros u Hu. by apply not_elem_of_nil in Hu.
Qed.

Lemma export_inv_start w : export_inv w → export_inv (start (disk w)).
Proof.
  intros [Hm Ho Hc Hn He Hp Hdp Hds Hcl]. split; simpl.
  - done.
  - intros m H%Ho. by rewrite Hc.
  - done.
  - done.
  - done.
  - done.
  - done.
  - done.
  - intros x Hx. by apply Hcl, Hds.
Qed.

(** The users file reads back as the set that was written. *)
Lemma load_users_text k (seen : gset string) :
  users_file k = Some (users_text seen) →
  (∀ x, x ∈ seen → Str.clean x = true) →
  load_users k = seen.
Proof.
  intros Hk Hclean. unfold load_users. rewrite Hk. unfold users_text.
  rewrite StrFacts.read_lines_text.
  - rewrite (list_to_set_perm_L _ (elements seen)) by apply StrFacts.sorted_perm.
    apply list_to_set_elements_L.
  - apply Forall_forall. intros x Hx%StrFacts.elem_of_sorted%elem_of_elements.
    by apply Hclean.
Qed.

Lemma exported_json_ext k k' :
  chunk_json k' = chunk_json k → exported_json k' = exported_json k.
Proof. unfold exported_json. by intros ->. Qed.

Lemma UserExporter_init_ext k k' :
  exporter_state_file k' = exporter_state_file k →
  UserExporter_init k' = UserExporter_init k.
Proof. unfold UserExporter_init. by intros ->. Qed.

(** A step that only grows the seen set and may rewrite the users file. *)
Lemma export_inv_dedup_step w w' :
  export_inv w →
  seen_users (dedup w) ⊆ seen_users (dedup w') →
  (∀ x, x ∈ seen_users (dedup w') → Str.clean x = true) →
  same_export_files (disk w) (disk w') →
  (users_file (disk w') = users_file (disk w)
   ∨ users_file (disk w') = Some (users_text (seen_users (dedup w')))) →
  chunk_count (exporter w') = chunk_count (exporter w) →
  (∀ u, u ∈ pending_users (exporter w') →
        Str.lower u ∈ seen_users (dedup w') ∧ u ∉ exported_json (disk w)) →
  export_inv w'.
Proof.
  intros [Hm Ho Hc Hn He Hp Hdp Hds Hcl] Hseen Hclean (Hf1 & Hf2 & Hf3 & Hf4)
         Hu Hcount Hpend.
  assert (load_users (disk w) ⊆ load_users (disk w')
          ∧ load_users (disk w') ⊆ seen_users (dedup w')) as [Hl1 Hl2].
  { destruct Hu as [Hu|Hu].
    - unfold load_users. rewrite Hu. split; [done|].
      fold (load_users (disk w)). set_solver.
    - rewrite (load_users_text _ _ Hu Hclean). split; [set_solver|done]. }
  rewrite <- (exported_json_ext _ _ Hf4) in *.
  rewrite <- (UserExporter_init_ext _ _ Hf1) in *.
  split.
  - by rewrite Hf3, Hf4.
  - intros m. rewrite Hf4, Hcount. apply Ho.
  - by rewrite Hcount.
  - done.
  - intros u Hx. by apply Hl1, He.
  - done.
  - intros u Hx. destruct (Hdp u Hx). split; [by apply Hl1|done].
  - done.
  - done.
Qed.

Lemma export_inv_add_users io users w :
  forallb Str.clean (elements users) = true →
  export_inv w → export_inv (after (add_users io users w)).
Proof.
  intros Hclean Hinv.
  assert (∀ u, u ∈ users → Str.clean u = true) as Hcl.
  { intros u Hu%elem_of_elements%list_elem_of_In.
    by apply (proj1 (forallb_forall _ _) Hclean). }
  destruct (filter_new_users_spec io users w)
    as (w1 & E & Hseen & _ & _ & _ & Hexp & Hb & Hfiles & Hu).
  unfold add_users. unfold bind at 1. rewrite E. run_monad.
  set (new_users := filter (λ u, Str.lower u ∉ seen_users (dedup w)) users) in *.
  assert (∀ u, u ∈ pending_users (exporter w) ∪ new_users →
               Str.lower u ∈ seen_users (dedup w1)
               ∧ u ∉ exported_json (disk w)) as Hpend.
  { intros u [Hp|[Hnew Hin]%elem_of_filter]%elem_of_union.
    - destruct (inv_pending w Hinv u Hp). rewrite Hseen. set_solver.
    - split.
      + rewrite Hseen. apply elem_of_union_r, elem_of_map. eauto.
      + intros Hx. apply Hnew, (inv_disk_seen w Hinv), (inv_exported w Hinv), Hx. }
  assert (∀ x, x ∈ seen_users (dedup w1) → Str.clean x = true) as Hclean1.
  { intros x. rewrite Hseen.
    intros [Hx|(u & -> & Hu')%elem_of_map]%elem_of_union.
    - by apply (inv_clean w Hinv).
    - by apply StrFacts.lower_clean, Hcl. }
  case_bool_decide; simpl.
  - apply (export_inv_dedup_step w); simpl; try done.
    + rewrite Hseen. set_solver.
    + by rewrite Hexp.
    + by rewrite Hexp.
  - apply (export_inv_dedup_step w); simpl; try done.
    + rewrite Hseen. set_solver.
    + by rewrite Hexp.
    + rewrite Hexp. intros u Hp. apply Hpend. set_solver.
Qed.

Lemma export_inv_save_state io force w :
  export_inv w → export_inv (after (save_state io force w)).
Proof.
  intros Hinv.
  destruct (save_state_spec io force w)
    as (w' & -> & (_ & _ & _ & Hs) & He & _ & Hf & Hu & _).
  simpl. apply (export_inv_dedup_step w); try done.
  - by rewrite Hs.
  - rewrite Hs. apply (inv_clean w Hinv).
  - by rewrite Hs.
  - by rewrite He.
  - rewrite He, Hs. apply (inv_pending w Hinv).
Qed.

Lemma export_inv_export_chunks io chunk_size ssh force threshold w :
  io_ok io →
  export_inv w →
  export_inv (after (export_chunks io chunk_size ssh force threshold w)).
Proof.
  intros Hio Hinv.
  destruct (export_chunks_spec io chunk_size ssh force threshold w Hio)
    as [[_ ->]|[(_ & _ & ->)|(_ & _ & w' & -> & (_ & _ & _ & Hs) & _ & Hp & Hc
                               & Hinit & Hcsv & Hjson & _ & Hu)]]; simpl.
  - done.
  - by apply export_inv_start.
  - set (chunks := slices chunk_size
                     (Str.sorted (elements (pending_users (exporter w))))) in *.
    set (n := chunk_count (exporter w)) in *.
    assert (load_users (disk w') = seen_users (dedup w')) as Hload.
    { apply load_users_text; rewrite Hs; [done|apply (inv_clean w Hinv)]. }
    assert (exported_json (disk w') ≡ₚ exported_json (disk w) ++ concat chunks)
      as Hperm.
    { rewrite (exported_json_ext _ _ Hjson).
      apply put_chunks_exported, (inv_ordinals w Hinv). }
    assert (∀ u, u ∈ concat chunks → u ∈ pending_users (exporter w)) as Hsub.
    { destruct (slices_cases chunk_size
                  (Str.sorted (elements (pending_users (exporter w)))))
        as [E|[_ E]]; fold chunks in E; rewrite E.
      - intros u Hx. by apply not_elem_of_nil in Hx.
      - intros u Hx. by rewrite StrFacts.elem_of_sorted, elem_of_elements in Hx. }
    assert (NoDup (concat chunks)) as Hnd.
    { destruct (slices_cases chunk_size
                  (Str.sorted (elements (pending_users (exporter w)))))
        as [E|[_ E]]; fold chunks in E; rewrite E.
      - constructor.
      - apply StrFacts.sorted_NoDup, NoDup_elements. }
    split.
    + rewrite Hcsv, Hjson. apply put_chunks_mirror, (inv_mirror w Hinv).
    + intros m. rewrite Hjson, Hc.
      apply put_chunks_bound, (inv_ordinals w Hinv).
    + by rewrite Hinit.
    + rewrite Hperm. apply NoDup_app. split; [apply (inv_nodup w Hinv)|].
      split; [|done].
      intros u Hx Hy%Hsub. by destruct (inv_pending w Hinv u Hy).
    + intros u. rewrite Hperm, Hload, Hs.
      intros [Hx|Hx%Hsub]%elem_of_app.
      * by apply (inv_disk_seen w Hinv), (inv_exported w Hinv).
      * by destruct (inv_pending w Hinv u Hx).
    + rewrite Hp. intros u Hx. by apply not_elem_of_empty in Hx.
    + rewrite Hinit, Hp. intros u Hx. by apply not_elem_of_empty in Hx.
    + by rewrite Hload.
    + rewrite Hs. apply (inv_clean w Hinv).
Qed.

Lemma export_inv_run_ops io chunk_size ssh ops w :
  io_ok io → forallb clean_op ops = true →
  export_inv w → export_inv (run_ops io chunk_size ssh ops w).
Proof.
  intros Hio. revert w. induction ops as [|o ops IH]; intros w Hclean Hinv.
  - done.
  - simpl in Hclean. apply andb_true_iff in Hclean as [Ho Hops].
    unfold run_ops. simpl. apply IH; [done|].
    destruct o as [users|force threshold|force|]; simpl.
    + by apply export_inv_add_users.
    + by apply export_inv_export_chunks.
    + by apply export_inv_save_state.
    + by apply export_inv_start.
Qed.

Lemma exported_csv_json k :
  chunk_csv k = csv_of <$> chunk_json k → exported_csv k ≡ₚ exported_json k.
Proof.
  intros Hk. unfold exported_csv, exported_json. rewrite Hk.
  rewrite map_to_list_fmap, <- list_fmap_compose.
  by apply reflexive_eq, f_equal, list_fmap_ext; intros ? [] ?.
Qed.

(** C1 (as the code has it).  In a process history of calls that run to
    their end, started on an empty output directory, with any number of
    restarts between two calls, in which every disk write succeeds and every
    candidate is a non-empty name without white space: no string occurs
    twice in the chunk files taken together, the CSV files hold the same
    names as the JSON files, and the lower-cased form of every exported name
    is in [seen_users].  A process that is killed or signalled inside
    [export_chunks] is not such a history, and does export names twice
    ([InterruptFacts]). *)
Theorem no_duplicate_export io chunk_size ssh (ops : list op) :
  io_ok io → forallb clean_op ops = true →
  let w := run_ops io chunk_size ssh ops (start empty_disk) in
  NoDup (exported_json (disk w))
  ∧ exported_csv (disk w) ≡ₚ exported_json (disk w)
  ∧ ∀ u, u ∈ exported_json (disk w) → Str.lower u ∈ seen_users (dedup w).
Proof.
  intros Hio Hclean w.
  assert (export_inv w) as Hinv
    by (apply export_inv_run_ops; auto using export_inv_fresh).
  split; [apply (inv_nodup w Hinv)|]. split.
  - apply exported_csv_json, (inv_mirror w Hinv).
  - intros u Hu. by apply (inv_disk_seen w Hinv), (inv_exported w Hinv).
Qed.

End ExportFacts.

(** ** Worked histories of the pipeline *)

Module PipelineExamples.
Import Pipeline PipelineSpec PipelineRuns DedupFacts ExportFacts.

(** C2, at the three candidates on the fresh store. *)
Lemma filter_new_users_twice_witness :
  ∃ w1 w2, filter_new_users all_ok candidates fresh = (Ok candidates, w1)
         ∧ filter_new_users all_ok candidates w1 = (Ok ∅, w2).
Proof.
  apply (filter_new_users_twice all_ok candidates fresh).
  intros u _. reflexivity.
Defined.

(** C5: queueing a processed name, and processing a name that was never
    discovered, both break the invariant. *)
Lemma dedup_invariant_broken :
  dedup_inv (dedup foo_processed)
  ∧ ¬ dedup_inv (dedup (mark_subreddit_queued "foo" foo_processed).2)
  ∧ ¬ dedup_inv (dedup (set_queue ["foo"] foo_processed).2)
  ∧ dedup_inv (dedup fresh)
  ∧ ¬ dedup_inv (dedup (mark_subreddit_processed all_ok "bar" fresh).2).
Proof.
  split; [split; vm_compute; set_solver|].
  split; [intros [H _]; apply (H "foo"); by vm_compute|].
  split; [intros [H _]; apply (H "foo"); by vm_compute|].
  split; [split; vm_compute; set_solver|].
  intros [_ H]. specialize (H "bar"). vm_compute in H.
  by discriminate H.
Qed.

(** C5 (as the code has it), at a store where ["foo"] is discovered and
    ["bar"] is neither processed nor queued. *)
Lemma dedup_operations_invariant_witness :
  dedup_inv (dedup (mark_subreddit_processed all_ok "foo"
                      (mark_subreddit_discovered all_ok "foo" fresh).2).2)
  ∧ dedup_inv (dedup (mark_subreddit_queued "bar" foo_processed).2).
Proof.
  split.
  - apply (dedup_operations_invariant all_ok
             (mark_subreddit_discovered all_ok "foo" fresh).2 "foo" []);
      [split; vm_compute; set_solver | reflexivity].
  - apply (dedup_operations_invariant all_ok foo_processed "bar" []);
      [split; vm_compute; set_solver | reflexivity].
Defined.

(** C3: the forced export of the example does not produce one chunk. *)
Lemma example_export_is_not_one_chunk :
  ¬ ∃ w', flush admitted = (Ok 1%nat, w').
Proof.
  intros [w' H]. apply (f_equal fst) in H. vm_compute in H. discriminate H.
Qed.

(** C3 (as the code has it).  Admitted in one call, all three candidates
    are accepted; a later ["alice"] is rejected; the forced export writes
    two chunks, ["ALICE"; "Alice"] and ["bob"].  Admitted in two calls, the
    casing that comes second is rejected and the forced export writes the
    one chunk ["Alice"; "bob"]. *)
Theorem example_export :
  (filter_new_users all_ok candidates fresh).1 = Ok candidates
  ∧ (filter_new_users all_ok {["alice"]} admitted).1 = Ok ∅
  ∧ (flush admitted).1 = Ok 2%nat
  ∧ chunk_json (disk (flush admitted).2)
    = {[ 1%nat := chunk_doc ["ALICE"; "Alice"]; 2%nat := chunk_doc ["bob"] ]}
  ∧ (filter_new_users all_ok {["ALICE"]}
       (add_users all_ok {["Alice"; "bob"]} fresh).2).1 = Ok ∅
  ∧ (flush admitted_in_turn).1 = Ok 1%nat
  ∧ chunk_json (disk (flush admitted_in_turn).2)
    = {[ 1%nat := chunk_doc ["Alice"; "bob"] ]}.
Proof. repeat split; vm_compute; reflexivity. Qed.

(** C4, at the forced export of the example. *)
Lemma export_chunks_chunking_witness :
  ∃ (chunks : list (list string)) w',
    flush admitted = (Ok (length chunks), w')
    ∧ Forall (λ chunk, Z.of_nat (length chunk) ≤ 2)%Z chunks
    ∧ ((Z.of_nat (length chunks) - 1) * 2
        < Z.of_nat (length (elements (pending_users (exporter admitted))))
        ≤ Z.of_nat (length chunks) * 2)%Z.
Proof.
  destruct (export_chunks_chunking all_ok 2 None true USERS_EXPORT_THRESHOLD
              admitted (λ _, eq_refl) eq_refl)
    as (chunks & w' & E & _ & _ & Hlen & _ & Hforced & _).
  exists chunks, w'. split; [exact E|]. split; [exact Hlen|].
  exact (proj2 (Hforced eq_refl)).
Defined.

(** C1: an exported name need not be in [seen_users], which holds the
    lower-cased forms; and two casings of one name are both exported. *)
Lemma exported_name_not_seen :
  "Alice" ∈ exported_json (disk (flush admitted).2)
  ∧ ("Alice" ∉ seen_users (dedup (flush admitted).2))
  ∧ ¬ NoDup (Str.lower <$> exported_json (disk (flush admitted).2)).
Proof.
  split; [vm_compute; set_solver|].
  split; [by vm_compute|].
  intros H. vm_compute in H.
  apply NoDup_cons in H as [_ H]. apply NoDup_cons in H as [H _].
  apply H. set_solver.
Qed.

(** C1 (as the code has it), at a history with a restart. *)
Lemma no_duplicate_export_witness :
  NoDup (exported_json (disk (run_ops all_ok 2 None history fresh))).
Proof.
  apply (no_duplicate_export all_ok 2 None history (λ _, eq_refl) eq_refl).
Defined.

(** C9.  When no file can be written, [DeduplicationManager.save_state]
    returns normally and leaves memory and disk as they were, and so does
    the checkpoint store's [save]; but [UserExporter._save_state] and
    [PipelineState.save] raise, and so does an [export_chunks] that reaches
    [_save_state]. *)
Theorem unguarded_saves_raise (w : World) (force : bool)
        (s : Checkpoint.ScraperState) (f : Checkpoint.file) :
  save_state none_ok force w = (Ok tt, w)
  ∧ Checkpoint.save Checkpoint.OpenFailed s f = f
  ∧ _save_state none_ok w = (Raise OSError, w)
  ∧ PipelineState_save none_ok w = (Raise OSError, w)
  ∧ (export_chunks exporter_state_fails 2 None true USERS_EXPORT_THRESHOLD
       admitted).1 = Raise OSError.
Proof.
  split; [|split; [|split; [|split]]].
  - unfold save_state. run_monad.
    destruct force; simpl; repeat case_bool_decide; reflexivity.
  - reflexivity.
  - reflexivity.
  - reflexivity.
  - vm_compute. reflexivity.
Qed.

End PipelineExamples.

(** ** The checkpoint store *)

Module CheckpointFacts.
Import Checkpoint Gluetun Main ScraperSpec.

Lemma from_dict_to_dict (s : ScraperState) : from_dict (to_dict s) = s.
Proof.
  destruct s as [subs names queue keywords phase].
  unfold from_dict, to_dict. simpl. f_equal. apply list_to_set_elements_L.
Qed.

Lemma view_eq sc p b e :
  view sc = (p, b, e) →
  current_phase (state sc) = p ∧ running sc = b ∧ entered sc = e.
Proof. unfold view. by intros [= -> -> ->]. Qed.

Lemma view_save_checkpoint o sc : view (_save_checkpoint o sc) = view sc.
Proof. unfold _save_checkpoint, view. by destruct (discovery sc). Qed.

Lemma view_consume items sc : view (consume items sc) = view sc.
Proof.
  revert sc. induction items as [|i items IH]; intros sc; [done|].
  simpl. by rewrite IH.
Qed.

Lemma view_apply_result r sc :
  view (apply_result r sc)
  = (current_phase (state sc), running sc && negb (stopped r), entered sc).
Proof.
  unfold apply_result.
  destruct (view_eq _ _ _ _ (view_consume (items r) sc)) as (H1 & H2 & H3).
  unfold view.
  destruct (stopped r); simpl; rewrite ?H1, ?H2, ?H3; f_equal; [f_equal|].
  - by rewrite andb_false_r.
  - by rewrite andb_true_r.
Qed.

Lemma view_add_completed_keyword k sc :
  view (add_completed_keyword k sc) = view sc.
Proof. done. Qed.

Lemma view_listing_phase o r p sc :
  view (listing_phase o r (enter p sc))
  = (p, running sc && negb (stopped r), (entered sc ++ [p])%list).
Proof.
  unfold listing_phase. by rewrite view_save_checkpoint, view_apply_result.
Qed.

(** The keyword loop changes neither the phase nor the phases entered, and
    clears the stop flag only when some search was interrupted. *)
Lemma view_keyword_loop o search keywords sc :
  ∃ b, view (keyword_loop o search keywords sc)
       = (current_phase (state sc), b, entered sc)
     ∧ ((∀ k, stopped (search k) = false) → b = running sc).
Proof.
  revert sc. induction keywords as [|k keywords IH]; intros sc; simpl.
  - by exists (running sc).
  - destruct (running sc) eqn:Hrun; simpl; [|exists false; unfold view; by rewrite Hrun].
    pose proof (view_apply_result (search k) sc) as Hv. rewrite Hrun in Hv.
    destruct (failed (search k)).
    + exists (negb (stopped (search k))).
      rewrite view_save_checkpoint, Hv. split; [done|].
      intros Hs. by rewrite Hs.
    + destruct (IH (_save_checkpoint o (add_completed_keyword k
                                          (apply_result (search k) sc))))
        as (b & Hb & Hstop).
      exists b. rewrite Hb.
      destruct (view_eq _ _ _ _
                  (eq_trans (view_save_checkpoint o _)
                     (eq_trans (view_add_completed_keyword k _) Hv)))
        as (H1 & H2 & H3).
      rewrite H1, H3. split; [done|].
      intros Hs. rewrite (Hstop Hs), H2, Hs. done.
Qed.

Lemma view_phase_keyword_search o env sc :
  ∃ b, ((∀ k, stopped (search_by_keyword env k) = false) → b = running sc)
     ∧ view (phase_keyword_search o env sc)
       = if bool_decide (current_phase (state sc) = "init")
            || bool_decide (current_phase (state sc) = "keyword_search")
         then ("keyword_search", b, (entered sc ++ ["keyword_search"])%list)
         else view sc.
Proof.
  unfold phase_keyword_search, phase_in.
  destruct (bool_decide _ || bool_decide _); [|by exists (running sc)].
  cbv zeta.
  match goal with
  | |- context [keyword_loop o ?f ?kws ?sc1] =>
      destruct (view_keyword_loop o f kws sc1) as (b & -> & Hstop)
  end.
  by exists b.
Qed.

Lemma view_phase_popular o env sc :
  view (phase_popular o env sc)
  = gate "keyword_search" "popular" "popular"
         (stopped (discover_from_popular env)) (view sc).
Proof.
  unfold phase_popular, gate, phase_in, view at 2.
  destruct (running sc && _); [apply view_listing_phase|done].
Qed.

Lemma view_phase_new o env sc :
  view (phase_new o env sc)
  = gate "popular" "new" "new" (stopped (discover_from_new env)) (view sc).
Proof.
  unfold phase_new, gate, phase_in, view at 2.
  destruct (running sc && _); [apply view_listing_phase|done].
Qed.

Lemma view_phase_related o env sc :
  view (phase_related o env sc)
  = gate "new" "related" "related" (stopped (explore_related_queue env)) (view sc).
Proof.
  unfold phase_related, gate, phase_in, view at 2.
  destruct (running sc && _); [apply view_listing_phase|done].
Qed.

Lemma load_answers f :
  load Answers f
  = Ok (match f with Document data => Some (from_dict data) | _ => None end).
Proof. by destruct f. Qed.

Lemma delete_answers f : delete Answers f = Ok Missing.
Proof. by destruct f. Qed.

Lemma phase_export_spec sc :
  ∃ sc', phase_export Answers sc = Ok sc'
       ∧ entered sc' = (entered sc ++ ["export"])%list
       ∧ running sc' = running sc
       ∧ (running sc = true → checkpoint sc' = Missing)
       ∧ (running sc = false → checkpoint sc' = checkpoint sc)
       ∧ state sc' = state (enter "export" sc)
       ∧ exported sc'
         = Some (by_subscribers_desc (discovered_subreddits (state sc))).
Proof.
  unfold phase_export. cbv zeta.
  change (running (with_exported _ (enter "export" sc))) with (running sc).
  destruct (running sc) eqn:E.
  - rewrite delete_answers. eexists. split; [reflexivity|].
    repeat split; try done; try exact E.
  - eexists. split; [reflexivity|]. repeat split; try done; try exact E.
Qed.

(** What [run] starts from when the existence test answers: the loaded
    state if there is one, the state it had otherwise. *)
Lemma load_checkpoint_answers sc :
  ∃ sc0, load_checkpoint Answers sc = Ok sc0
       ∧ running sc0 = running sc
       ∧ entered sc0 = entered sc
       ∧ checkpoint sc0 = checkpoint sc
       ∧ state sc0 = match checkpoint sc with
                     | Document data => from_dict data
                     | _ => state sc
                     end.
Proof.
  unfold load_checkpoint. rewrite load_answers.
  destruct (checkpoint sc) eqn:E; eexists; (split; [reflexivity|]);
    repeat split; try done; simpl; by rewrite E.
Qed.

Lemma view_load_checkpoint sc sc0 :
  load_checkpoint Answers sc = Ok sc0 →
  view (init_discovery sc0) = (current_phase (state sc0), running sc, entered sc).
Proof.
  destruct (load_checkpoint_answers sc) as (sc0' & -> & Hr & He & _).
  intros [= <-]. unfold view. simpl. by rewrite Hr, He.
Qed.

(** The phases of [run] between the load and the export, on views. *)
Lemma view_discovery_phases o env sc0 :
  ∃ b, ((∀ k, stopped (search_by_keyword env k) = false) → b = running sc0)
     ∧ view (phase_related o env
               (phase_new o env
                  (phase_popular o env (phase_keyword_search o env sc0))))
       = gate "new" "related" "related" (stopped (explore_related_queue env))
           (gate "popular" "new" "new" (stopped (discover_from_new env))
              (gate "keyword_search" "popular" "popular"
                 (stopped (discover_from_popular env))
                 (if bool_decide (current_phase (state sc0) = "init")
                     || bool_decide (current_phase (state sc0) = "keyword_search")
                  then ("keyword_search", b,
                        (entered sc0 ++ ["keyword_search"])%list)
                  else view sc0))).
Proof.
  destruct (view_phase_keyword_search o env sc0) as (b & Hb & Hv1).
  exists b. split; [exact Hb|].
  by rewrite view_phase_related, view_phase_new, view_phase_popular, Hv1.
Qed.

(** C7.  A state that was saved is the state that is loaded: same
    discovered subreddits, names, queue, completed keywords and phase.
    Without a checkpoint file [load] returns [None], and [run] then keeps
    the initial state, whose phase is ["init"]. *)
Theorem checkpoint_round_trip (s : ScraperState) (f : file) (g : GluetunController) :
  load Answers (save Written s f) = Ok (Some s)
  ∧ load Answers Missing = Ok None
  ∧ load_checkpoint Answers (Scraper_init g Missing) = Ok (Scraper_init g Missing)
  ∧ state (Scraper_init g Missing) = ScraperState_default
  ∧ current_phase (state (Scraper_init g Missing)) = "init".
Proof.
  split; [|done]. unfold save. rewrite load_answers.
  by rewrite from_dict_to_dict.
Qed.

(** C10.  Whatever opening, parsing or converting an existing checkpoint
    raises, [load] catches it and returns [None] as if there were no file;
    [run] then starts from the initial state, in phase ["init"], and enters
    the keyword search first.  The existence test stands before the [try]:
    when it raises, [load] raises whatever the file holds, and [run] ends
    with that exception before it enters a phase. *)
Theorem unreadable_checkpoint_starts_fresh o env (g : GluetunController)
        (e : exn) (f : file) :
  load Answers (Unreadable e) = Ok None
  ∧ load Answers (Unreadable e) = load Answers Missing
  ∧ load_checkpoint Answers (Scraper_init g (Unreadable e))
    = Ok (Scraper_init g (Unreadable e))
  ∧ current_phase (state (Scraper_init g (Unreadable e))) = "init"
  ∧ (∃ sc, run_verified o Answers env (Scraper_init g (Unreadable e)) = Ok sc
         ∧ head (entered sc) = Some "keyword_search")
  ∧ load Denied f = Raise OSError
  ∧ load_checkpoint Denied (Scraper_init g f) = Raise OSError
  ∧ run_verified o Denied env (Scraper_init g f) = Raise OSError
  ∧ (∀ ip, run o Denied (Some ip) env (Scraper_init g f) = Some (Raise OSError)).
Proof.
  do 4 (split; [done|]).
  split; [|done].
  unfold run_verified.
  change (load_checkpoint Answers (Scraper_init g (Unreadable e)))
    with (Ok (A := Scraper) (Scraper_init g (Unreadable e))).
  cbv iota beta.
  destruct (view_discovery_phases o env (init_discovery (Scraper_init g (Unreadable e))))
    as (b & _ & Hv).
  set (s4 := phase_related o env _) in *.
  destruct (phase_export_spec s4) as (sc & -> & Hent & _).
  exists sc. split; [done|]. rewrite Hent.
  assert (head (entered s4) = Some "keyword_search") as Hhead.
  { change (entered s4) with (view s4).2. rewrite Hv.
    by destruct b, (stopped _), (stopped _), (stopped _). }
  by destruct (entered s4).
Qed.

(** C8.  Resuming from a checkpoint that records phase [p]: no discovery
    phase before [p] is entered, the phases that are entered are the first
    ones from [p] on, in the order keyword search, popular, new, related,
    the phase [p] itself is entered again, and the export comes last.  When
    no stop signal arrives, every phase from [p] on is entered and the run
    is done: the checkpoint is removed. *)
Theorem resume_phases o env (g : GluetunController) (f : file) (p : phase)
        (sc0 : Scraper) :
  load_checkpoint Answers (Scraper_init g f) = Ok sc0 →
  current_phase (state sc0) = phase_name p →
  ∃ sc, run_verified o Answers env (Scraper_init g f) = Ok sc
      ∧ (∃ ps, entered sc = (ps ++ ["export"])%list
             ∧ ps `prefix_of` phases_from p
             ∧ (phases_from p ≠ [] → ps ≠ []))
      ∧ (never_stopped env →
         entered sc = (phases_from p ++ ["export"])%list
         ∧ checkpoint sc = Missing).
Proof.
  intros Hload Hp. unfold run_verified. rewrite Hload.
  pose proof (view_load_checkpoint _ _ Hload) as Hv0. rewrite Hp in Hv0.
  simpl in Hv0.
  destruct (view_discovery_phases o env (init_discovery sc0)) as (b & Hb & Hv4).
  destruct (view_eq _ _ _ _ Hv0) as (E1 & E2 & E3).
  rewrite E1, E3, Hv0 in Hv4. rewrite E2 in Hb. clear E1 E2 E3.
  set (s4 := phase_related o env _) in *.
  destruct (phase_export_spec s4) as (sc & -> & Hent & _ & Hdone & _).
  exists sc. split; [done|]. rewrite Hent.
  change (entered s4) with (view s4).2.
  change (running s4) with (view s4).1.2 in Hdone.
  rewrite Hv4 in *. clear Hv4 Hv0 Hent. clearbody s4.
  split.
  - destruct p, b, (stopped (discover_from_popular env)),
      (stopped (discover_from_new env)), (stopped (explore_related_queue env));
      match goal with
      | |- ∃ ps, (?l ++ _)%list = _ ∧ _ =>
          let l' := eval vm_compute in l in
          exists l'; (split; [vm_compute; reflexivity|]);
          (split; [eexists; vm_compute; reflexivity|]);
          vm_compute; congruence
      end.
  - intros (Hs1 & Hs2 & Hs3 & Hs4). rewrite (Hb Hs1), Hs2, Hs3, Hs4 in *.
    destruct p; (split; [vm_compute; reflexivity|]); apply Hdone;
      vm_compute; reflexivity.
Qed.

End CheckpointFacts.

(** ** Bounded rotation *)

Module RecoveryFacts.
Import Checkpoint Gluetun Main Commenters ScraperSpec.

(** [fetch_with_retry] replaces the miner at most [max_retries - 1] times. *)
Lemma fetch_loop_bound {post} (fetch : miner → fetch_outcome (list post))
      (cb : bool) (max_retries : Z) (n a : nat) (m : miner) :
  Z.of_nat (a + n) = max_retries →
  match fetch_loop post fetch cb max_retries (seq a n) m with
  | Ok (_, m') => (m ≤ m' ≤ m + (n - 1))%nat
  | Raise _ => True
  end.
Proof.
  revert a m. induction n as [|n IH]; intros a m Hmax; simpl; [lia|].
  destruct (fetch m) as [posts| |msg]; [lia| |done].
  case_bool_decide as Hlast; [|lia].
  specialize (IH (S a) (refresh cb m) ltac:(lia)).
  destruct (fetch_loop _ _ _ _ _ _) as [[posts m']|e]; [|done].
  unfold refresh in IH. destruct cb; lia.
Qed.

(** When every attempt is answered by [TooManyRequestsError], it gives up
    with an empty list of posts. *)
Lemma fetch_loop_gives_up {post} (fetch : miner → fetch_outcome (list post))
      (cb : bool) (max_retries : Z) (n a : nat) (m : miner) :
  (∀ m', fetch m' = TooMany) →
  ∃ m', fetch_loop post fetch cb max_retries (seq a n) m = Ok ([], m').
Proof.
  intros Hfetch. revert a m. induction n as [|n IH]; intros a m; simpl; [eauto|].
  rewrite Hfetch. case_bool_decide; eauto.
Qed.

(** The loop that fetches one post ends within [max_retries] rounds, having
    replaced the miner at most once per round. *)
Lemma scrape_loop_bound {details} (scrape : miner → fetch_outcome details)
      (cb : bool) (fuel max_retries retry : nat) (m : miner) :
  (max_retries - retry < fuel)%nat →
  ∃ d m' r, scrape_loop details scrape cb fuel max_retries retry m = Some (d, m', r)
          ∧ (retry ≤ r)%nat ∧ (r ≤ max_retries ∨ r = retry)%nat
          ∧ (m ≤ m' ≤ m + (r - retry))%nat
          ∧ ((∀ m0, scrape m0 = TooMany) → (retry ≤ max_retries)%nat →
             d = None ∧ r = max_retries).
Proof.
  revert retry m. induction fuel as [|fuel IH]; intros retry m Hfuel; [lia|].
  simpl. case_bool_decide as Hlt.
  - assert (∃ d m' r,
               scrape_loop details scrape cb fuel max_retries (retry + 1)
                           (refresh cb m) = Some (d, m', r)
               ∧ (retry ≤ r)%nat ∧ (r ≤ max_retries ∨ r = retry)%nat
               ∧ (m ≤ m' ≤ m + (r - retry))%nat
               ∧ ((∀ m0, scrape m0 = TooMany) → (retry ≤ max_retries)%nat →
                  d = None ∧ r = max_retries)) as Hrec.
    { destruct (IH (retry + 1)%nat (refresh cb m) ltac:(lia))
        as (d & m' & r & -> & H1 & H2 & H3 & H4).
      exists d, m', r. split; [done|]. unfold refresh in H3.
      split; [lia|]. split; [lia|]. split; [destruct cb; lia|].
      intros Hs _. apply H4; [done|lia]. }
    destruct (scrape m) as [d| |msg] eqn:Hm.
    + exists (Some d), m, retry.
      split; [done|]. split; [lia|]. split; [lia|]. split; [lia|].
      intros Hs _. rewrite Hs in Hm. discriminate.
    + done.
    + destruct (is_recoverable msg); [done|].
      exists None, m, retry.
      split; [done|]. split; [lia|]. split; [lia|]. split; [lia|].
      intros Hs _. rewrite Hs in Hm. discriminate.
  - exists None, m, retry.
    split; [done|]. split; [lia|]. split; [lia|]. split; [lia|].
    intros _ Hle. split; [done|lia].
Qed.

Lemma gluetun_consume items sc :
  gluetun (consume items sc) = gluetun sc ∧ running (consume items sc) = running sc.
Proof.
  revert sc. induction items as [|i items IH]; intros sc; [done|].
  simpl. destruct (IH (_process_subreddit i sc)) as [-> ->]. done.
Qed.

Lemma gluetun_save_checkpoint o sc :
  gluetun (_save_checkpoint o sc) = gluetun sc
  ∧ running (_save_checkpoint o sc) = running sc.
Proof. done. Qed.

(** As long as no restart changes the address, [_run_with_recovery] stops
    retrying once the restart counter reaches [max_restart_attempts]. *)
Lemma run_with_recovery_bound o fuel attempts restarts n sc :
  no_new_ip restarts (current_ip (gluetun sc)) →
  (Z.to_nat (max_restart_attempts (gluetun sc)) - restart_count (gluetun sc)
   < fuel)%nat →
  ∃ r n', _run_with_recovery o fuel attempts restarts n sc = (r, n')
        ∧ (∀ sc', r ≠ StillRetrying sc')
        ∧ (n ≤ n' ≤ n + (Z.to_nat (max_restart_attempts (gluetun sc))
                          - restart_count (gluetun sc)))%nat
        ∧ (∀ e, (∀ i, ∃ items, attempts i = Limited items e) →
                running sc = true → ∃ sc', r = Raised e sc').
Proof.
  revert n sc. induction fuel as [|fuel IH]; intros n sc Hip Hfuel; [lia|].
  simpl. destruct (running sc) eqn:Hrun; simpl.
  2:{ eexists _, _. split; [done|]. split; [done|]. split; [lia|]. done. }
  destruct (attempts n) as [items|items|items e|items e] eqn:Hatt.
  1,2,4: eexists _, _; (split; [done|]); (split; [done|]); (split; [lia|]);
         intros e' He' _; destruct (He' n) as [items' Hn]; congruence.
  destruct (gluetun_consume items sc) as [Hg Hr].
  unfold _handle_rate_limit_or_block.
  destruct (gluetun_save_checkpoint o (consume items sc)) as [Hg' Hr'].
  rewrite Hg', Hg. unfold restart_for_new_ip.
  assert (∀ sc' : Scraper,
            ∃ (r : loop_result) (n' : nat),
              (Raised e sc', n) = (r, n')
              ∧ (∀ sc'', r ≠ StillRetrying sc'')
              ∧ (n ≤ n' ≤ n + (Z.to_nat (max_restart_attempts (gluetun sc))
                                - restart_count (gluetun sc)))%nat
              ∧ (∀ e0, (∀ i, ∃ items0, attempts i = Limited items0 e0) →
                       true = true → ∃ sc'', r = Raised e0 sc'')) as Hraise.
  { intros sc'. eexists _, _. split; [done|]. split; [done|]. split; [lia|].
    intros e0 He0 _. destruct (He0 n) as [items0 Hn].
    assert (e0 = e) as -> by congruence. eauto. }
  case_bool_decide as Hmax; [apply Hraise|].
  destruct (restarts n) as [| | | |ip] eqn:Hev; try apply Hraise.
  rewrite bool_decide_eq_true_2 by (by apply (Hip n)).
  match goal with
  | |- context [_run_with_recovery o fuel attempts restarts (S n) ?sc1] =>
      destruct (IH (S n) sc1) as (r & n' & -> & Hr1 & Hn1 & He1)
  end.
  - simpl. by rewrite (Hip n ip Hev).
  - simpl. lia.
  - simpl in *. exists r, n'. split; [done|]. split; [done|]. split; [lia|].
    intros e0 He0 _. apply He1; [done|]. by rewrite Hr.
Qed.

(** C6 (as the code has it).  [fetch_with_retry] replaces the miner at most
    [max_retries - 1] times and, when every attempt is refused, returns an
    empty list of posts; the loop that fetches one post ends within
    [max_retries] rounds, with at most one replacement per round, and
    without details when every attempt is refused; [_run_with_recovery]
    stops retrying, and raises the rate-limit error again, once
    [max_restart_attempts] restarts in a row have left the address
    unchanged. *)
Theorem rotation_bounds :
  (∀ (post : Type) (fetch : miner → fetch_outcome (list post)) cb max_retries m,
     match fetch_with_retry post fetch cb m max_retries with
     | Ok (_, m') => (m ≤ m' ≤ m + (Z.to_nat max_retries - 1))%nat
     | Raise _ => True
     end
     ∧ ((∀ m0, fetch m0 = TooMany) →
        ∃ m', fetch_with_retry post fetch cb m max_retries = Ok ([], m')))
  ∧ (∀ (details : Type) (scrape : miner → fetch_outcome details) cb max_retries m,
       ∃ d m' r,
         scrape_loop details scrape cb (S max_retries) max_retries 0 m
         = Some (d, m', r)
         ∧ (r ≤ max_retries)%nat ∧ (m ≤ m' ≤ m + r)%nat
         ∧ ((∀ m0, scrape m0 = TooMany) → d = None ∧ r = max_retries))
  ∧ (∀ o fuel attempts restarts n sc,
       no_new_ip restarts (current_ip (gluetun sc)) →
       (Z.to_nat (max_restart_attempts (gluetun sc)) - restart_count (gluetun sc)
        < fuel)%nat →
       ∃ r n', _run_with_recovery o fuel attempts restarts n sc = (r, n')
             ∧ (∀ sc', r ≠ StillRetrying sc')
             ∧ (n ≤ n' ≤ n + (Z.to_nat (max_restart_attempts (gluetun sc))
                               - restart_count (gluetun sc)))%nat
             ∧ (∀ e, (∀ i, ∃ items, attempts i = Limited items e) →
                     running sc = true → ∃ sc', r = Raised e sc')).
Proof.
  split; [|split].
  - intros post fetch cb max_retries m. split.
    + unfold fetch_with_retry.
      destruct (decide (0 ≤ max_retries)%Z) as [Hpos|Hneg].
      * apply (fetch_loop_bound fetch cb max_retries (Z.to_nat max_retries) 0 m).
        lia.
      * replace (Z.to_nat max_retries) with 0%nat by lia. simpl. lia.
    + intros Hfetch. by apply fetch_loop_gives_up.
  - intros details scrape cb max_retries m.
    destruct (scrape_loop_bound scrape cb (S max_retries) max_retries 0 m
                ltac:(lia)) as (d & m' & r & E & H1 & H2 & H3 & H4).
    exists d, m', r. split; [done|]. split; [lia|]. split; [lia|].
    intros Hs. apply H4; [done|lia].
  - intros. by apply run_with_recovery_bound.
Qed.

End RecoveryFacts.

(** ** Worked runs of the scraper *)

Module ScraperExamples.
Import Checkpoint Gluetun Main Commenters ScraperSpec ScraperRuns
       CheckpointFacts RecoveryFacts.

(** C6: with a bound of five restarts, a source that always refuses and
    restarts that always change the address, the loop has rotated and
    retried a hundred times and is still retrying. *)
Lemma rotation_not_bounded :
  ∃ sc, _run_with_recovery Written 100 always_limited alternating 0
          (Scraper_init (controller None) Missing)
        = (StillRetrying sc, 100%nat)
      ∧ max_restart_attempts (gluetun sc) = 5%Z.
Proof. eexists. split; [vm_compute; reflexivity|reflexivity]. Qed.

(** C6 (as the code has it), at restarts that keep the address. *)
Lemma rotation_bounds_witness :
  ∃ sc n', _run_with_recovery Written 6 always_limited same_address 0
             (Scraper_init (controller (Some "198.51.100.1")) Missing)
           = (Raised RedditRateLimitError sc, n')
         ∧ (n' ≤ 5)%nat.
Proof.
  destruct (proj2 (proj2 rotation_bounds) Written 6%nat always_limited
              same_address 0%nat
              (Scraper_init (controller (Some "198.51.100.1")) Missing))
    as (r & n' & E & _ & Hn & Hraise).
  - intros i ip [= <-]. reflexivity.
  - simpl. lia.
  - destruct (Hraise RedditRateLimitError) as [sc ->].
    + intros i. by exists [].
    + reflexivity.
    + exists sc, n'. split; [exact E|]. simpl in Hn. lia.
Defined.

(** C8, at a checkpoint that records phase [popular]. *)
Lemma resume_phases_witness :
  ∃ sc, run_verified Written Answers quiet
          (Scraper_init (controller None) at_popular) = Ok sc
      ∧ entered sc = ["popular"; "new"; "related"; "export"]
      ∧ checkpoint sc = Missing.
Proof.
  destruct (resume_phases Written quiet (controller None) at_popular Popular
              _ eq_refl eq_refl) as (sc & E & _ & Hall).
  exists sc. split; [exact E|]. apply Hall. repeat split.
Defined.

(** C10: a checkpoint file that is there and cannot be read, in a directory
    that may not be searched: [load] raises, and so does [run]. *)
Lemma unsearchable_checkpoint_raises :
  load Answers (Unreadable OSError) = Ok None
  ∧ load Denied (Unreadable OSError) = Raise OSError
  ∧ run Written Denied (Some "198.51.100.1") quiet
      (Scraper_init (controller None) (Unreadable OSError))
    = Some (Raise OSError).
Proof. repeat split. Qed.

End ScraperExamples.

Module StoreFacts.
Import Pipeline PipelineSpec PipelineBatch DedupFacts ExportFacts.

(** What [mark_subreddit_discovered] returns and leaves behind. *)
Lemma mark_subreddit_discovered_spec io name w :
  ∃ w', mark_subreddit_discovered io name w
        = (Ok (negb (is_subreddit_seen name (dedup w))), w')
    ∧ discovered_subreddits (dedup w')
      = discovered_subreddits (dedup w) ∪ {[Str.lower name]}
    ∧ processed_subreddits (dedup w') = processed_subreddits (dedup w)
    ∧ queued_subreddits (dedup w') = queued_subreddits (dedup w)
    ∧ seen_users (dedup w') = seen_users (dedup w)
    ∧ exporter w' = exporter w
    ∧ current_batch w' = current_batch w
    ∧ same_export_files (disk w) (disk w')
    ∧ (is_subreddit_seen name (dedup w) = true → w' = w).
Proof.
  unfold mark_subreddit_discovered, is_subreddit_seen. run_monad.
  case_bool_decide as Hin; simpl.
  - exists w. split; [done|]. unfold same_export_files.
    split; [set_solver|]. by auto 10.
  - match goal with
    | |- context [if ?b then _ else _] => destruct b
    end.
    + match goal with
      | |- context [save_state io false ?w1] =>
          destruct (save_state_spec io false w1)
            as (w' & -> & (Hd & Hp & Hq & Hs) & He & Hb & Hf & _)
      end.
      simpl in *. exists w'. rewrite Hd, Hp, Hq, Hs, He, Hb.
      by auto 12.
    + eexists. split; [reflexivity|]. simpl.
      unfold same_export_files. by auto 12.
Qed.

(** What [mark_subreddit_processed] leaves behind; it never raises. *)
Lemma mark_subreddit_processed_spec io name w :
  ∃ w', mark_subreddit_processed io name w = (Ok tt, w')
    ∧ discovered_subreddits (dedup w') = discovered_subreddits (dedup w)
    ∧ processed_subreddits (dedup w')
      = processed_subreddits (dedup w) ∪ {[Str.lower name]}
    ∧ queued_subreddits (dedup w')
      = queued_subreddits (dedup w) ∖ {[Str.lower name]}
    ∧ seen_users (dedup w') = seen_users (dedup w)
    ∧ exporter w' = exporter w
    ∧ current_batch w' = current_batch w
    ∧ same_export_files (disk w) (disk w')
    ∧ (users_file (disk w') = users_file (disk w)
       ∨ users_file (disk w') = Some (users_text (seen_users (dedup w)))).
Proof.
  unfold mark_subreddit_processed. run_monad.
  match goal with
  | |- context [if ?b then _ else _] => destruct b
  end.
  - match goal with
    | |- context [save_state io false ?w1] =>
        destruct (save_state_spec io false w1)
          as (w' & -> & (Hd & Hp & Hq & Hs) & He & Hb & Hf & Hu & _)
    end.
    simpl in *. exists w'. rewrite Hd, Hp, Hq, Hs, He, Hb.
    by auto 12.
  - eexists. split; [reflexivity|]. simpl.
    unfold same_export_files. by auto 12.
Qed.

(** X1.  Marks are looked up without regard to case: once a subreddit is
    marked queued, every casing of its name is reported queued; once it is
    marked processed, every casing is reported processed and no longer
    queued; and [should_process_subreddit] refuses every casing of a name
    that was marked discovered, queued or processed. *)
Theorem marked_subreddit_lookup io name name' w :
  Str.lower name' = Str.lower name →
  let discovered := dedup (mark_subreddit_discovered io name w).2 in
  let queued := dedup (mark_subreddit_queued name w).2 in
  let processed := dedup (mark_subreddit_processed io name w).2 in
  is_subreddit_seen name' discovered = true
  ∧ is_subreddit_queued name' queued = true
  ∧ is_subreddit_processed name' processed = true
  ∧ is_subreddit_queued name' processed = false
  ∧ should_process_subreddit name' discovered = false
  ∧ should_process_subreddit name' queued = false
  ∧ should_process_subreddit name' processed = false.
Proof.
  intros Hcase.
  destruct (mark_subreddit_discovered_spec io name w) as (w1 & E1 & Hd1 & _).
  destruct (mark_subreddit_processed_spec io name w)
    as (w3 & E3 & _ & Hp3 & Hq3 & _).
  simpl. rewrite E1, E3. simpl.
  unfold is_subreddit_seen, is_subreddit_queued, is_subreddit_processed,
    should_process_subreddit.
  rewrite Hd1, Hp3, Hq3, Hcase. simpl.
  repeat split.
  - apply bool_decide_eq_true. set_solver.
  - apply bool_decide_eq_true. set_solver.
  - apply bool_decide_eq_true. set_solver.
  - apply bool_decide_eq_false. set_solver.
  - rewrite (bool_decide_eq_false_2 (_ ∉ _ ∪ _)); [done|set_solver].
  - rewrite (bool_decide_eq_false_2 (_ ∉ _ ∪ _)); [|set_solver].
    by rewrite !andb_false_r.
  - rewrite (bool_decide_eq_false_2 (_ ∉ _ ∪ _)); [|set_solver].
    by rewrite andb_false_r.
Qed.

(** X2.  [mark_subreddit_discovered] never raises, whatever the disk does;
    it answers [True] exactly when no casing of the name was discovered
    before, and a second call, under any casing, answers [False] and changes
    nothing. *)
Theorem mark_subreddit_discovered_once io name name' w :
  Str.lower name' = Str.lower name →
  ∃ w', mark_subreddit_discovered io name w
        = (Ok (bool_decide (Str.lower name ∉ discovered_subreddits (dedup w))), w')
      ∧ mark_subreddit_discovered io name' w' = (Ok false, w').
Proof.
  intros Hcase.
  destruct (mark_subreddit_discovered_spec io name w) as (w1 & E1 & Hd1 & _).
  destruct (mark_subreddit_discovered_spec io name' w1)
    as (w2 & E2 & _ & _ & _ & _ & _ & _ & _ & Hsame).
  assert (is_subreddit_seen name' (dedup w1) = true) as Hseen.
  { unfold is_subreddit_seen. apply bool_decide_eq_true.
    rewrite Hd1, Hcase. set_solver. }
  exists w1. rewrite E1, E2, Hseen, (Hsame Hseen). split; [|done].
  f_equal. f_equal. unfold is_subreddit_seen.
  destruct (decide (Str.lower name ∈ discovered_subreddits (dedup w))).
  - by rewrite bool_decide_eq_true_2, bool_decide_eq_false_2 by auto.
  - by rewrite bool_decide_eq_false_2, bool_decide_eq_true_2 by auto.
Qed.


Lemma size_list_to_set_le (l : list string) :
  (size (list_to_set l : gset string) ≤ length l)%nat.
Proof.
  induction l as [|x l IH].
  - rewrite list_to_set_nil, size_empty. done.
  - rewrite list_to_set_cons, size_union_alt, size_singleton. simpl.
    apply le_n_S. etrans; [|exact IH]. apply subseteq_size. set_solver.
Qed.

Lemma size_set_map_le (f : string → string) (X : gset string) :
  (size (set_map f X : gset string) ≤ size X)%nat.
Proof.
  unfold set_map. etrans; [apply size_list_to_set_le|].
  by rewrite length_fmap.
Qed.

(** X3.  [DeduplicationManager.add_users] never raises; the count it
    returns is exactly the growth of the seen set, which afterwards holds
    the lower-cased form of every name given; the same call repeated
    returns 0. *)
Theorem dedup_add_users_count io (users : gset string) w :
  ∃ n w' w'',
    dedup_add_users io users w = (Ok n, w')
    ∧ seen_users (dedup w') = seen_users (dedup w) ∪ set_map Str.lower users
    ∧ size (seen_users (dedup w')) = (size (seen_users (dedup w)) + n)%nat
    ∧ dedup_add_users io users w' = (Ok 0%nat, w'').
Proof.
  assert (∀ w0, ∃ w',
            dedup_add_users io users w0
            = (Ok (size (set_map Str.lower users ∖ seen_users (dedup w0))), w')
            ∧ seen_users (dedup w')
              = seen_users (dedup w0) ∪ set_map Str.lower users) as Hspec.
  { intros w0. unfold dedup_add_users. run_monad.
    match goal with
    | |- context [if ?b then _ else _] => destruct b
    end.
    - match goal with
      | |- context [save_state io false ?w1] =>
          destruct (save_state_spec io false w1)
            as (w' & -> & (_ & _ & _ & Hs) & _)
      end.
      simpl in *. exists w'. by rewrite Hs.
    - eexists. split; reflexivity. }
  destruct (Hspec w) as (w' & E1 & Hseen).
  destruct (Hspec w') as (w'' & E2 & _).
  eexists _, w', w''. split; [exact E1|]. split; [exact Hseen|]. split.
  - rewrite Hseen.
    rewrite (union_difference_L (seen_users (dedup w))
               (seen_users (dedup w) ∪ set_map Str.lower users)) at 1
      by set_solver.
    rewrite size_union by set_solver. f_equal. f_equal. set_solver.
  - rewrite E2. f_equal. f_equal. apply size_empty_iff. rewrite Hseen. set_solver.
Qed.

(** What [UserExporter.add_users] returns and leaves behind. *)
Lemma add_users_spec io (users : gset string) w :
  let new_users := filter (λ u, Str.lower u ∉ seen_users (dedup w)) users in
  ∃ w', add_users io users w = (Ok (size new_users), w')
    ∧ pending_users (exporter w') = pending_users (exporter w) ∪ new_users
    ∧ chunk_count (exporter w') = chunk_count (exporter w)
    ∧ total_exported (exporter w') = total_exported (exporter w)
    ∧ total_uploaded (exporter w') = total_uploaded (exporter w)
    ∧ seen_users (dedup w') = seen_users (dedup w) ∪ set_map Str.lower users
    ∧ discovered_subreddits (dedup w') = discovered_subreddits (dedup w)
    ∧ processed_subreddits (dedup w') = processed_subreddits (dedup w)
    ∧ queued_subreddits (dedup w') = queued_subreddits (dedup w)
    ∧ current_batch w' = current_batch w
    ∧ same_export_files (disk w) (disk w')
    ∧ (users_file (disk w') = users_file (disk w)
       ∨ users_file (disk w') = Some (users_text (seen_users (dedup w')))).
Proof.
  intros new_users.
  destruct (filter_new_users_spec io users w)
    as (w1 & E & Hseen & Hd & Hp & Hq & Hexp & Hb & Hfiles & Hu).
  unfold add_users. unfold bind at 1. rewrite E. run_monad.
  fold new_users. rewrite Hexp.
  case_bool_decide as Hne; simpl.
  - eexists. split; [reflexivity|]. simpl. by auto 12.
  - exists w1. split; [done|]. rewrite Hexp.
    rewrite Hne. split; [set_solver|]. by auto 12.
Qed.

(** X4.  [UserExporter.add_users] never raises; it returns the number of
    given names whose lower-cased form was not seen, and when the
    lower-cased form of every pending name is seen (which the call
    preserves) the pending buffer grows by exactly that number.  The count
    is at least the number of new lower-cased names and at most the number
    of names given. *)
Theorem add_users_count io (users : gset string) w :
  (∀ u, u ∈ pending_users (exporter w) → Str.lower u ∈ seen_users (dedup w)) →
  ∃ n w',
    add_users io users w = (Ok n, w')
    ∧ n = size (filter (λ u, Str.lower u ∉ seen_users (dedup w)) users)
    ∧ size (pending_users (exporter w'))
      = (size (pending_users (exporter w)) + n)%nat
    ∧ (size (set_map Str.lower users ∖ seen_users (dedup w) : gset string) ≤ n
       ∧ n ≤ size users)%nat
    ∧ (∀ u, u ∈ pending_users (exporter w') →
            Str.lower u ∈ seen_users (dedup w')).
Proof.
  intros Hpend.
  destruct (add_users_spec io users w)
    as (w' & E & Hp & _ & _ & _ & Hseen & _).
  set (new_users := filter (λ u, Str.lower u ∉ seen_users (dedup w)) users) in *.
  exists (size new_users), w'. split; [exact E|]. split; [done|].
  split; [|split; [split|]].
  - rewrite Hp. apply size_union. intros u Hu [Hnew _]%elem_of_filter.
    by apply Hnew, Hpend.
  - assert (set_map Str.lower users ∖ seen_users (dedup w)
            = (set_map Str.lower new_users : gset string)) as ->.
    { apply set_eq. intros x. rewrite elem_of_difference, !elem_of_map.
      split.
      - intros [(u & -> & Hu) Hx]. exists u. split; [done|].
        by apply elem_of_filter.
      - intros (u & -> & [Hx Hu]%elem_of_filter). eauto. }
    apply size_set_map_le.
  - apply subseteq_size. intros u [_ Hu]%elem_of_filter. done.
  - intros u. rewrite Hp, Hseen.
    intros [Hu|[_ Hu]%elem_of_filter]%elem_of_union.
    + apply elem_of_union_l, Hpend, Hu.
    + apply elem_of_union_r, elem_of_map. eauto.
Qed.

(** X5.  Round trip of the dedup store: after a forced [save_state] whose
    two files can be written, a store built from the disk holds the same
    discovered and processed subreddits and, when the seen names are
    non-empty and free of white space, the same seen users; the queue is
    not part of the saved state and comes back empty. *)
Theorem dedup_state_round_trip io w :
  io SubredditFile = true → io UsersFile = true →
  (∀ x, x ∈ seen_users (dedup w) → Str.clean x = true) →
  ∃ w', save_state io true w = (Ok tt, w')
    ∧ discovered_subreddits (DeduplicationManager_init (disk w'))
      = discovered_subreddits (dedup w)
    ∧ processed_subreddits (DeduplicationManager_init (disk w'))
      = processed_subreddits (dedup w)
    ∧ seen_users (DeduplicationManager_init (disk w')) = seen_users (dedup w)
    ∧ queued_subreddits (DeduplicationManager_init (disk w')) = ∅
    ∧ same_sets (dedup w) (dedup w').
Proof.
  intros Hio1 Hio2 Hclean.
  unfold save_state. run_monad. rewrite Hio1. simpl. rewrite Hio2. simpl.
  eexists. split; [reflexivity|]. simpl.
  split; [apply list_to_set_elements_L|].
  split; [apply list_to_set_elements_L|].
  split; [by apply load_users_text|].
  split; [done|]. by unfold same_sets.
Qed.

End StoreFacts.

(** ** The exporter's counters *)

Module CounterFacts.
Import Pipeline PipelineSpec PipelineBatch DedupFacts ExportFacts.

(** The exported total after a call of [export_chunks] that writes. *)
Lemma export_chunks_total io size ssh force threshold w :
  io_ok io → exports force threshold w → size ≠ 0%Z →
  total_exported (exporter (export_chunks io size ssh force threshold w).2)
  = (total_exported (exporter w) + base.size (pending_users (exporter w)))%nat.
Proof.
  intros Hio [Hgo Hne] Hsize.
  assert (∀ A (f : World → M A) w0, bind get f w0 = f w0 w0) as bind_get by done.
  unfold export_chunks. rewrite !bind_get.
  rewrite (proj2 (andb_false_iff _ _)).
  2:{ destruct Hgo as [->|Hgo]; [by left|].
      right. apply bool_decide_eq_false. lia. }
  rewrite bool_decide_eq_false_2 by done.
  set (users_list := Str.sorted (elements (pending_users (exporter w)))).
  destruct (py_range (length users_list) size) as [idxs|e] eqn:Hrange.
  2:{ by apply py_range_raise in Hrange as [-> _]. }
  unfold bind at 1.
  destruct (export_loop_ok io size users_list idxs 0 [] w Hio) as [cf ->].
  run_monad.
  destruct ssh as [upload_files|]; [case_bool_decide|]; simpl;
    unfold _save_state; run_monad; rewrite Hio; simpl;
    (match goal with
     | |- context [save_state io true ?w1] =>
         destruct (save_state_spec io true w1) as (w' & E & _ & He & _)
     end);
    rewrite E; simpl; rewrite He; done.
Qed.

(** X6.  The chunk size is not validated.  When a call of [export_chunks]
    gets past its two early returns and every write succeeds: with chunk
    size 0 it raises [ValueError] and changes nothing; with a negative
    chunk size it returns 0 and writes no chunk file, yet it empties the
    pending buffer and counts the dropped names as exported. *)
Theorem export_chunks_bad_size io chunk_size ssh force threshold w :
  io_ok io → exports force threshold w →
  (chunk_size = 0%Z →
   export_chunks io chunk_size ssh force threshold w = (Raise ValueError, w))
  ∧ ((chunk_size < 0)%Z →
     ∃ w', export_chunks io chunk_size ssh force threshold w = (Ok 0%nat, w')
       ∧ chunk_csv (disk w') = chunk_csv (disk w)
       ∧ chunk_json (disk w') = chunk_json (disk w)
       ∧ chunk_count (exporter w') = chunk_count (exporter w)
       ∧ pending_users (exporter w') = ∅
       ∧ total_exported (exporter w')
         = (total_exported (exporter w) + size (pending_users (exporter w)))%nat).
Proof.
  intros Hio Hgo.
  pose proof (export_chunks_total io chunk_size ssh force threshold w Hio Hgo)
    as Htotal.
  destruct (export_chunks_spec io chunk_size ssh force threshold w Hio)
    as [[Hno _]|[(_ & Hz & E)|(_ & Hnz & w' & E & _ & _ & Hp & Hc
                               & _ & Hcsv & Hjson & _)]]; [done| |].
  - split; [done|]. intros Hneg. lia.
  - split; [done|]. intros Hneg.
    assert (slices chunk_size
              (Str.sorted (elements (pending_users (exporter w)))) = []) as Hs.
    { unfold slices, py_range.
      rewrite bool_decide_eq_false_2, bool_decide_eq_true_2 by lia. done. }
    rewrite Hs in *. simpl in *. exists w'. split; [done|].
    rewrite E in Htotal. simpl in Htotal.
    rewrite Nat.add_0_r in Hc. specialize (Htotal ltac:(lia)). by auto 10.
Qed.

Lemma counters_inv_fresh : counters_inv (start empty_disk).
Proof.
  split; simpl; try done.
  intros m. rewrite lookup_empty. split; [by intros []|lia].
Qed.

Lemma counters_inv_start w : counters_inv w → counters_inv (start (disk w)).
Proof.
  intros [Hd Ht Hc He]. split; simpl; try done.
  - intros m. rewrite Hc. apply Hd.
  - by rewrite He.
Qed.

(** A step that leaves the chunk files, the state file and the counters. *)
Lemma counters_inv_ext w w' :
  counters_inv w →
  same_export_files (disk w) (disk w') →
  chunk_count (exporter w') = chunk_count (exporter w) →
  total_exported (exporter w') = total_exported (exporter w) →
  counters_inv w'.
Proof.
  intros [Hd Ht Hc He] (Hf1 & Hf2 & Hf3 & Hf4) Hcount Htotal.
  split.
  - intros m. rewrite Hf4, Hcount. apply Hd.
  - by rewrite Htotal, (exported_json_ext _ _ Hf4).
  - by rewrite (UserExporter_init_ext _ _ Hf1), Hcount.
  - by rewrite (UserExporter_init_ext _ _ Hf1), Htotal.
Qed.

Lemma counters_inv_step io chunk_size ssh o w :
  io_ok io → (0 < chunk_size)%Z →
  counters_inv w → counters_inv (step io chunk_size ssh w o).
Proof.
  intros Hio Hsize Hinv.
  destruct o as [users|force threshold|force|]; simpl.
  - destruct (StoreFacts.add_users_spec io users w)
      as (w' & -> & _ & Hc & Ht & _ & _ & _ & _ & _ & _ & Hf & _).
    simpl. by apply (counters_inv_ext w).
  - pose proof (export_chunks_total io chunk_size ssh force threshold w Hio)
      as Htotal.
    destruct (export_chunks_spec io chunk_size ssh force threshold w Hio)
      as [[_ ->]|[(_ & _ & ->)|(Hgo & Hnz & w' & E & _ & _ & Hp & Hc
                               & Hinit & _ & Hjson & _)]]; simpl.
    + done.
    + by apply counters_inv_start.
    + rewrite E in *. simpl in *. specialize (Htotal Hgo Hnz).
      set (users_list := Str.sorted (elements (pending_users (exporter w)))) in *.
      destruct (slices_pos chunk_size users_list Hsize) as (Hcat & _ & _).
      destruct Hinv as [Hd Ht Hdc Hdt].
      split.
      * intros m. rewrite Hjson, lookup_put_chunks_json, Hc.
        destruct (decide _) as [Hlt|Hge].
        -- destruct (slices chunk_size users_list !! _) as [c|] eqn:Hl.
           ++ apply lookup_lt_Some in Hl. split; [lia|]. by eauto.
           ++ apply lookup_ge_None in Hl. rewrite Hd. lia.
        -- rewrite Hd. lia.
      * rewrite Htotal, (exported_json_ext _ _ Hjson).
        rewrite (Permutation_length
                   (put_chunks_exported _ _ _ (λ m Hm, proj2 (proj1 (Hd m) Hm)))).
        rewrite length_app, Hcat. unfold users_list.
        rewrite StrFacts.sorted_length, Ht. done.
      * by rewrite Hinit.
      * by rewrite Hinit.
  - destruct (save_state_spec io force w)
      as (w' & -> & _ & He & _ & Hf & _).
    simpl. apply (counters_inv_ext w); by rewrite ?He.
  - by apply counters_inv_start.
Qed.

(** X7.  In a process history of calls that run to their end, started on
    an empty output directory, with any number of restarts between two
    calls, in which every write succeeds and the chunk size is positive: the
    chunk files on disk are exactly those numbered 1 to [chunk_count],
    [total_exported] is the number of names they hold, and the exporter's
    state file records the same two counters.  Inside [export_chunks] the
    files run ahead of the counters, and a process that is killed or
    signalled there leaves them apart ([InterruptFacts]). *)
Theorem counters_match_files io chunk_size ssh (ops : list op) :
  io_ok io → (0 < chunk_size)%Z →
  let w := run_ops io chunk_size ssh ops (start empty_disk) in
  (∀ m, is_Some (chunk_json (disk w) !! m)
        ↔ (1 ≤ m ≤ chunk_count (exporter w))%nat)
  ∧ total_exported (exporter w) = length (exported_json (disk w))
  ∧ chunk_count (UserExporter_init (disk w)) = chunk_count (exporter w)
  ∧ total_exported (UserExporter_init (disk w)) = total_exported (exporter w).
Proof.
  intros Hio Hsize w.
  assert (counters_inv w) as [Hd Ht Hc He]; [|done].
  unfold w. generalize (start empty_disk), counters_inv_fresh.
  induction ops as [|o ops IH]; intros w0 Hinv; [done|].
  unfold run_ops. simpl. apply IH. by apply counters_inv_step.
Qed.


(** The users file only ever grows, as a set of names. *)
Lemma load_users_mono k k' (seen : gset string) :
  (users_file k' = users_file k ∨ users_file k' = Some (users_text seen)) →
  load_users k ⊆ seen →
  (∀ x, x ∈ seen → Str.clean x = true) →
  load_users k ⊆ load_users k' ∧ load_users k' ⊆ seen.
Proof.
  intros [Hu|Hu] Hsub Hclean.
  - unfold load_users. rewrite Hu. done.
  - by rewrite (load_users_text _ _ Hu Hclean).
Qed.

Lemma no_saved_pending_step io chunk_size ssh o w :
  io_ok io →
  no_saved_pending (disk w) → no_saved_pending (disk (step io chunk_size ssh w o)).
Proof.
  unfold no_saved_pending. intros Hio Hw.
  destruct o as [users|force threshold|force|]; simpl.
  - destruct (StoreFacts.add_users_spec io users w)
      as (w' & -> & _ & _ & _ & _ & _ & _ & _ & _ & _ & (Hf & _) & _).
    simpl. by rewrite (UserExporter_init_ext _ _ Hf).
  - destruct (export_chunks_spec io chunk_size ssh force threshold w Hio)
      as [[_ ->]|[(_ & _ & ->)|(_ & _ & w' & -> & _ & _ & Hp & _ & Hinit & _)]];
      simpl; [done|done|]. by rewrite Hinit.
  - destruct (save_state_spec io force w)
      as (w' & -> & _ & _ & _ & (Hf & _) & _).
    simpl. by rewrite (UserExporter_init_ext _ _ Hf).
  - done.
Qed.

Lemma forgotten_start u w :
  no_saved_pending (disk w) → forgotten u w → forgotten u (start (disk w)).
Proof.
  intros Hnsp (Hs & _ & Hx). split; [exact Hs|]. split; [|exact Hx].
  change (pending_users (exporter (start (disk w))))
    with (pending_users (UserExporter_init (disk w))).
  rewrite Hnsp. set_solver.
Qed.

(** A forgotten name stays forgotten, whatever the process does next. *)
Lemma forgotten_step io chunk_size ssh o w u :
  io_ok io → clean_op o = true →
  export_inv w → no_saved_pending (disk w) →
  forgotten u w → forgotten u (step io chunk_size ssh w o).
Proof.
  intros Hio Hclean Hinv Hnsp Hforg.
  assert (export_inv (step io chunk_size ssh w o)) as Hinv'.
  { apply (export_inv_run_ops io chunk_size ssh [o] w Hio); [|done].
    simpl. by rewrite Hclean. }
  pose proof Hforg as (Hseen & Hpend & Hexp).
  destruct o as [users|force threshold|force|]; unfold step in *.
  - destruct (StoreFacts.add_users_spec io users w)
      as (w' & E & Hp & _ & _ & _ & Hs & _ & _ & _ & _ & Hf & Hu).
    rewrite E in *. unfold after in *.
    destruct (load_users_mono (disk w) (disk w') (seen_users (dedup w')) Hu)
      as [Hmono _].
    { rewrite Hs. pose proof (inv_disk_seen w Hinv). set_solver. }
    { apply (inv_clean w' Hinv'). }
    split; [by apply Hmono|]. split.
    + rewrite Hp. intros [Hin|[Hnew _]%elem_of_filter]%elem_of_union; [done|].
      by apply Hnew, (inv_disk_seen w Hinv).
    + destruct Hf as (_ & _ & _ & Hj). by rewrite (exported_json_ext _ _ Hj).
  - destruct (export_chunks_spec io chunk_size ssh force threshold w Hio)
      as [[_ E]|[(_ & _ & E)|(_ & _ & w' & E & (_ & _ & _ & Hs) & _ & Hp & _
                              & _ & _ & Hjson & _ & Hu)]];
      rewrite E in *; unfold after in *.
    + done.
    + by apply forgotten_start.
    + assert (load_users (disk w') = seen_users (dedup w)) as Hload.
      { apply load_users_text; [done|apply (inv_clean w Hinv)]. }
      split; [rewrite Hload; by apply (inv_disk_seen w Hinv)|].
      split; [rewrite Hp; set_solver|].
      rewrite (exported_json_ext _ _ Hjson).
      rewrite (put_chunks_exported _ _ _ (inv_ordinals w Hinv)).
      intros [Hin|Hin]%elem_of_app; [done|].
      destruct (slices_cases chunk_size
                  (Str.sorted (elements (pending_users (exporter w)))))
        as [Es|[_ Es]]; rewrite Es in Hin.
      * by apply not_elem_of_nil in Hin.
      * by rewrite StrFacts.elem_of_sorted, elem_of_elements in Hin.
  - destruct (save_state_spec io force w)
      as (w' & E & (_ & _ & _ & Hs) & He & _ & Hf & Hu & _).
    rewrite E in *. unfold after in *.
    destruct (load_users_mono (disk w) (disk w') (seen_users (dedup w)) Hu)
      as [Hmono _].
    { apply (inv_disk_seen w Hinv). }
    { apply (inv_clean w Hinv). }
    split; [by apply Hmono|]. split; [by rewrite He|].
    destruct Hf as (_ & _ & _ & Hj). by rewrite (exported_json_ext _ _ Hj).
  - by apply forgotten_start.
Qed.

(** X8.  Pending users do not survive a restart.  In a history that starts
    on an empty output directory, with succeeding writes and well-formed
    names: a name that is pending when the dedup state is saved and the
    process restarts before an export is, in every continuation, neither
    pending nor in any chunk file, while the store reports it as seen, so
    that it will not be admitted again. *)
Theorem pending_lost_on_restart io chunk_size ssh (ops1 ops2 : list op) u :
  io_ok io → forallb clean_op ops1 = true → forallb clean_op ops2 = true →
  let w1 := run_ops io chunk_size ssh ops1 (start empty_disk) in
  u ∈ pending_users (exporter w1) →
  let w2 := run_ops io chunk_size ssh (SaveDedup true :: Restart :: ops2) w1 in
  (u ∉ pending_users (exporter w2))
  ∧ (u ∉ exported_json (disk w2))
  ∧ is_user_seen u (dedup w2) = true.
Proof.
  intros Hio Hc1 Hc2 w1 Hin w2.
  assert (export_inv w1) as Hinv1
    by (apply export_inv_run_ops; auto using export_inv_fresh).
  assert (no_saved_pending (disk w1)) as Hnsp1.
  { assert (∀ w0, no_saved_pending (disk w0) →
                   no_saved_pending (disk (run_ops io chunk_size ssh ops1 w0)))
      as Hrun.
    { clear -Hio. induction ops1 as [|o ops IH]; intros w0 H0; [done|].
      unfold run_ops. simpl. apply IH. by apply no_saved_pending_step. }
    by apply Hrun. }
  set (w := run_ops io chunk_size ssh [SaveDedup true; Restart] w1).
  assert (export_inv w ∧ no_saved_pending (disk w) ∧ forgotten u w)
    as (Hinv & Hnsp & Hforg).
  { split; [by apply export_inv_run_ops|].
    unfold w, run_ops. simpl.
    destruct (save_state_spec io true w1)
      as (w' & -> & _ & _ & _ & (Hf & _ & _ & Hj) & _ & Hu).
    specialize (Hu eq_refl (Hio _)). simpl.
    split; [unfold no_saved_pending in *; by rewrite (UserExporter_init_ext _ _ Hf)|].
    destruct (inv_pending w1 Hinv1 u Hin) as [Hs Hx].
    split; [|split].
    - change (Str.lower u ∈ load_users (disk w')).
      by rewrite (load_users_text _ _ Hu (inv_clean w1 Hinv1)).
    - change (u ∉ pending_users (UserExporter_init (disk w'))).
      unfold no_saved_pending in Hnsp1.
      rewrite (UserExporter_init_ext _ _ Hf), Hnsp1. set_solver.
    - change (u ∉ exported_json (disk w')).
      by rewrite (exported_json_ext _ _ Hj). }
  assert (export_inv w2 ∧ forgotten u w2) as [Hinv2 (Hs & Hp & Hx)].
  { change w2 with (run_ops io chunk_size ssh ops2 w).
    clearbody w. clear -Hio Hc2 Hinv Hnsp Hforg.
    revert w Hinv Hnsp Hforg.
    induction ops2 as [|o ops IH]; intros w Hinv Hnsp Hforg; [done|].
    simpl in Hc2. apply andb_true_iff in Hc2 as [Ho Hops].
    unfold run_ops. simpl. apply (IH Hops).
    - apply (export_inv_run_ops io chunk_size ssh [o] w Hio); [|done].
      simpl. by rewrite Ho.
    - by apply no_saved_pending_step.
    - by apply forgotten_step. }
  split; [done|]. split; [done|].
  apply bool_decide_eq_true. by apply (inv_disk_seen w2 Hinv2).
Qed.

End CounterFacts.

(** ** The batch loop *)

Module BatchFacts.
Import Pipeline PipelineSpec PipelineBatch DedupFacts ExportFacts.

Lemma bind_ok {A B} (m : M A) (k : A → M B) w a w' :
  m w = (Ok a, w') → bind m k w = k a w'.
Proof. unfold bind. by intros ->. Qed.

Lemma remove_first_app (x : string) (pre rest : list string) :
  x ∉ pre → remove_first x (pre ++ x :: rest)%list = (pre ++ rest)%list.
Proof.
  induction pre as [|y pre IH]; intros Hx; simpl.
  - by rewrite bool_decide_eq_true_2.
  - rewrite bool_decide_eq_false_2 by set_solver.
    f_equal. apply IH. set_solver.
Qed.

(** [PipelineState.save] when every write succeeds. *)
Lemma PipelineState_save_ok io w :
  io_ok io →
  ∃ w', PipelineState_save io w = (Ok tt, w')
    ∧ same_sets (dedup w) (dedup w')
    ∧ exporter w' = exporter w
    ∧ current_batch w' = current_batch w
    ∧ pipeline_state_file (disk w')
      = Some {| doc_current_batch := Some (current_batch w) |}.
Proof.
  intros Hio. unfold PipelineState_save. run_monad. rewrite Hio. simpl.
  match goal with
  | |- context [save_state io true ?w1] =>
      destruct (save_state_spec io true w1)
        as (w' & -> & Hs & He & Hb & (_ & Hf & _) & _)
  end.
  simpl in *. exists w'. by rewrite Hf.
Qed.

(** [PipelineState.mark_processed] when every write succeeds. *)
Lemma mark_processed_ok io name w :
  io_ok io →
  ∃ w', mark_processed io name w = (Ok tt, w')
    ∧ discovered_subreddits (dedup w') = discovered_subreddits (dedup w)
    ∧ processed_subreddits (dedup w')
      = processed_subreddits (dedup w) ∪ {[Str.lower name]}
    ∧ queued_subreddits (dedup w')
      = queued_subreddits (dedup w) ∖ {[Str.lower name]}
    ∧ seen_users (dedup w') = seen_users (dedup w)
    ∧ exporter w' = exporter w
    ∧ current_batch w'
      = (if bool_decide (name ∈ current_batch w)
         then remove_first name (current_batch w) else current_batch w)
    ∧ pipeline_state_file (disk w')
      = Some {| doc_current_batch := Some (current_batch w') |}.
Proof.
  intros Hio. unfold mark_processed.
  destruct (StoreFacts.mark_subreddit_processed_spec io name w)
    as (w1 & E1 & Hd1 & Hp1 & Hq1 & Hs1 & He1 & Hb1 & _).
  rewrite (bind_ok _ _ _ _ _ E1).
  unfold bind at 1, get. unfold bind at 1.
  set (w2 := (if bool_decide (name ∈ current_batch w1)
              then set_current_batch (remove_first name (current_batch w1))
              else ret tt) w1).
  assert (∃ w2', w2 = (Ok tt, w2') ∧ dedup w2' = dedup w1
                 ∧ exporter w2' = exporter w1 ∧ disk w2' = disk w1
                 ∧ current_batch w2'
                   = (if bool_decide (name ∈ current_batch w)
                      then remove_first name (current_batch w)
                      else current_batch w)) as (w2' & -> & Hd2 & He2 & Hk2 & Hb2).
  { unfold w2. rewrite Hb1. case_bool_decide; eexists; (split; [reflexivity|]); done. }
  destruct (PipelineState_save_ok io w2' Hio)
    as (w3 & -> & (Hd3 & Hp3 & Hq3 & Hs3) & He3 & Hb3 & Hf3).
  exists w3. rewrite Hd3, Hp3, Hq3, Hs3, He3, Hb3, Hf3, Hd2, He2, Hb2.
  by auto 10.
Qed.

(** One turn of the loop on a subreddit that is not processed yet. *)
Lemma process_one_ok io chunk_size ssh gather i subreddit w :
  io_ok io → chunk_size ≠ 0%Z →
  Str.lower subreddit ∉ processed_subreddits (dedup w) →
  ∃ w', process_one io chunk_size ssh gather i subreddit w = (Ok tt, w')
    ∧ discovered_subreddits (dedup w') = discovered_subreddits (dedup w)
    ∧ processed_subreddits (dedup w')
      = processed_subreddits (dedup w) ∪ {[Str.lower subreddit]}
    ∧ queued_subreddits (dedup w')
      = queued_subreddits (dedup w) ∖ {[Str.lower subreddit]}
    ∧ current_batch w'
      = (if bool_decide (subreddit ∈ current_batch w)
         then remove_first subreddit (current_batch w) else current_batch w).
Proof.
  intros Hio Hsize Hnew. unfold process_one.
  unfold bind at 1, get. unfold is_subreddit_processed.
  rewrite bool_decide_eq_false_2 by done.
  case_bool_decide as Hfound.
  - destruct (StoreFacts.add_users_spec io (gather i subreddit) w)
      as (w1 & E1 & _ & _ & _ & _ & _ & Hd1 & Hp1 & Hq1 & Hb1 & _).
    rewrite (bind_ok _ _ _ _ _ E1).
    destruct (mark_processed_ok io subreddit w1 Hio)
      as (w2 & E2 & Hd2 & Hp2 & Hq2 & _ & _ & Hb2 & _).
    rewrite (bind_ok _ _ _ _ _ E2).
    unfold bind at 1, get.
    destruct (should_export USERS_EXPORT_THRESHOLD (exporter w2)).
    + destruct (export_chunks_spec io chunk_size ssh false
                  USERS_EXPORT_THRESHOLD w2 Hio)
        as [[_ E3]|[(_ & Hz & _)|(_ & _ & w3 & E3 & (Hd3 & Hp3 & Hq3 & _)
                                  & Hb3 & _)]]; [|done|].
      * rewrite (bind_ok _ _ _ _ _ E3). exists w2.
        rewrite Hd2, Hp2, Hq2, Hb2, Hd1, Hp1, Hq1, Hb1. done.
      * rewrite (bind_ok _ _ _ _ _ E3). exists w3.
        rewrite Hd3, Hp3, Hq3, Hb3, Hd2, Hp2, Hq2, Hb2, Hd1, Hp1, Hq1, Hb1. done.
    + exists w2. rewrite Hd2, Hp2, Hq2, Hb2, Hd1, Hp1, Hq1, Hb1. done.
  - destruct (mark_processed_ok io subreddit w Hio)
      as (w2 & E2 & Hd2 & Hp2 & Hq2 & _ & _ & Hb2 & _).
    exists w2. by rewrite E2, Hd2, Hp2, Hq2, Hb2.
Qed.

Lemma alternate_cons2 b x y (xs : list string) :
  alternate b (x :: y :: xs)
  = ((if b then [x] else [y]) ++ alternate b xs)%list.
Proof. by destruct b. Qed.

Lemma alternate_perm b (xs : list string) :
  xs ≡ₚ (alternate b xs ++ alternate (negb b) xs)%list.
Proof.
  revert b. induction xs as [|x xs IH]; intros b; [by destruct b|].
  destruct b; simpl.
  - constructor. apply (IH false).
  - rewrite <- Permutation_middle. constructor. apply (IH true).
Qed.

(** The loop from a position at which [pre] was passed over and [rest] is
    still ahead. *)
Lemma batch_loop_alternate io chunk_size ssh gather fuel :
  io_ok io → chunk_size ≠ 0%Z →
  ∀ (rest pre : list string) w,
    (length rest < fuel)%nat →
    current_batch w = (pre ++ rest)%list →
    NoDup (Str.lower <$> (pre ++ rest)%list) →
    (∀ s, s ∈ rest → Str.lower s ∉ processed_subreddits (dedup w)) →
    ∃ w', batch_loop io chunk_size ssh gather fuel (length pre) w = (Ok tt, w')
      ∧ discovered_subreddits (dedup w') = discovered_subreddits (dedup w)
      ∧ processed_subreddits (dedup w')
        = processed_subreddits (dedup w)
          ∪ list_to_set (Str.lower <$> alternate true rest)
      ∧ queued_subreddits (dedup w')
        = queued_subreddits (dedup w)
          ∖ list_to_set (Str.lower <$> alternate true rest)
      ∧ current_batch w' = (pre ++ alternate false rest)%list.
Proof.
  intros Hio Hsize.
  induction fuel as [|fuel IH]; intros rest pre w Hfuel Hcur Hnd Hnew; [lia|].
  simpl. unfold bind at 1, get. rewrite Hcur.
  destruct rest as [|x rest].
  { rewrite lookup_ge_None_2 by (rewrite length_app; simpl; lia).
    exists w. simpl. rewrite Hcur. split; [done|].
    split; [done|]. split; [set_solver|]. split; [set_solver|done]. }
  rewrite list_lookup_middle by done.
  assert (NoDup (pre ++ x :: rest)%list) as Hnd'.
  { by apply (NoDup_fmap_1 Str.lower). }
  assert (x ∉ pre) as Hx.
  { apply NoDup_app in Hnd' as (_ & Hdis & _). intros Hin.
    apply (Hdis x Hin). set_solver. }
  destruct (process_one_ok io chunk_size ssh gather (length pre) x w Hio Hsize)
    as (w1 & E1 & Hd1 & Hp1 & Hq1 & Hb1); [apply Hnew; set_solver|].
  rewrite (bind_ok _ _ _ _ _ E1).
  rewrite Hcur, bool_decide_eq_true_2, remove_first_app in Hb1 by set_solver.
  destruct rest as [|y rest].
  { destruct fuel as [|fuel]; [simpl in Hfuel; lia|].
    simpl. unfold bind at 1, get. rewrite Hb1.
    rewrite lookup_ge_None_2 by (rewrite length_app; simpl; lia).
    exists w1. split; [done|]. rewrite Hd1, Hp1, Hq1, Hb1. simpl.
    split; [done|]. split; [set_solver|]. split; [set_solver|done]. }
  destruct (IH rest (pre ++ [y])%list w1) as (w2 & E2 & Hd2 & Hp2 & Hq2 & Hb2).
  - simpl in Hfuel. lia.
  - by rewrite Hb1, <- app_assoc.
  - rewrite <- app_assoc. simpl.
    rewrite !fmap_app, !fmap_cons in Hnd |- *.
    apply NoDup_app in Hnd as (H1 & H2 & H3).
    apply NoDup_cons in H3 as [H3 H4].
    apply NoDup_app. split; [done|]. split; [|done].
    intros z Hz Hz'. apply (H2 z Hz). set_solver.
  - intros s Hs. rewrite Hp1.
    assert (Str.lower s ≠ Str.lower x).
    { rewrite !fmap_app, !fmap_cons in Hnd.
      apply NoDup_app in Hnd as (_ & _ & H3).
      apply NoDup_cons in H3 as [H3 _]. intros Heq. apply H3. rewrite <- Heq.
      apply elem_of_cons. right. apply list_elem_of_fmap. by exists s. }
    pose proof (Hnew s). set_solver.
  - rewrite length_app in E2. simpl in E2.
    replace (length pre + 1)%nat with (S (length pre)) in E2 by lia.
    exists w2. split; [exact E2|].
    rewrite Hd2, Hp2, Hq2, Hb2, Hd1, Hp1, Hq1, <- app_assoc. simpl.
    split; [done|]. split; [set_solver|]. split; [set_solver|done].
Qed.

(** [_process_subreddit_batch] on a batch of new names. *)
Lemma process_subreddit_batch_alternate io chunk_size ssh gather
      (subreddits : list string) w :
  io_ok io → chunk_size ≠ 0%Z →
  NoDup (Str.lower <$> subreddits) →
  (∀ s, s ∈ subreddits → Str.lower s ∉ processed_subreddits (dedup w)) →
  ∃ w', _process_subreddit_batch io chunk_size ssh gather subreddits w = (Ok tt, w')
    ∧ discovered_subreddits (dedup w') = discovered_subreddits (dedup w)
    ∧ processed_subreddits (dedup w')
      = processed_subreddits (dedup w)
        ∪ list_to_set (Str.lower <$> alternate true subreddits)
    ∧ current_batch w' = alternate false subreddits
    ∧ queued_subreddits (dedup w')
      = list_to_set (Str.lower <$> alternate false subreddits).
Proof.
  intros Hio Hsize Hnd Hnew. unfold _process_subreddit_batch, set_batch.
  assert (∃ w0, (exec set_current_batch subreddits; exec set_queue subreddits;
                 PipelineState_save io) w = (Ok tt, w0)
                ∧ discovered_subreddits (dedup w0) = discovered_subreddits (dedup w)
                ∧ processed_subreddits (dedup w0) = processed_subreddits (dedup w)
                ∧ queued_subreddits (dedup w0) = list_to_set (Str.lower <$> subreddits)
                ∧ current_batch w0 = subreddits)
    as (w0 & E0 & Hd0 & Hp0 & Hq0 & Hb0).
  { unfold bind at 1, set_current_batch. unfold bind at 1, set_queue, get.
    unfold bind at 1, set_dedup.
    match goal with
    | |- context [PipelineState_save io ?w1] =>
        destruct (PipelineState_save_ok io w1 Hio)
          as (w0 & -> & (Hd & Hp & Hq & _) & _ & Hb & _)
    end.
    exists w0. by rewrite Hd, Hp, Hq, Hb. }
  rewrite (bind_ok _ _ _ _ _ E0).
  destruct (batch_loop_alternate io chunk_size ssh gather (S (length subreddits))
              Hio Hsize subreddits [] w0)
    as (w' & E & Hd & Hp & Hq & Hb); [lia|done|done| |].
  { intros s Hs. rewrite Hp0. by apply Hnew. }
  exists w'. split; [exact E|]. rewrite Hd, Hp, Hq, Hb, Hd0, Hp0, Hq0. simpl.
  pose proof (alternate_perm true subreddits) as Hperm. simpl in Hperm.
  assert (NoDup ((Str.lower <$> alternate true subreddits)
                 ++ (Str.lower <$> alternate false subreddits))%list) as Hnd2.
  { rewrite <- fmap_app. by rewrite <- Hperm. }
  apply NoDup_app in Hnd2 as (_ & Hdis & _).
  split; [done|]. split; [done|]. split; [done|].
  apply set_eq. intros z.
  rewrite elem_of_difference, !elem_of_list_to_set.
  rewrite (list_elem_of_fmap _ subreddits).
  split.
  - intros [(s & -> & Hs) Hz]. rewrite Hperm in Hs.
    apply elem_of_app in Hs as [Hs|Hs].
    + exfalso. apply Hz. apply list_elem_of_fmap. eauto.
    + apply list_elem_of_fmap. eauto.
  - intros Hz. split.
    + apply list_elem_of_fmap in Hz as (s & -> & Hs).
      exists s. split; [done|]. rewrite Hperm. set_solver.
    + intros Hz'. by apply (Hdis z Hz').
Qed.

(** X9.  The batch loop iterates over the very list that [mark_processed]
    shortens.  With succeeding writes and a non-zero chunk size, on a batch
    of names that are distinct without regard to case and none of which is
    processed, [_process_subreddit_batch] processes the names at the
    positions 1, 3, 5, ... of the batch and passes over the others, which
    are left in [current_batch] and in the queue of the dedup store. *)
Theorem batch_processes_every_other io chunk_size ssh gather
        (subreddits : list string) w :
  io_ok io → chunk_size ≠ 0%Z →
  NoDup (Str.lower <$> subreddits) →
  (∀ s, s ∈ subreddits → is_subreddit_processed s (dedup w) = false) →
  ∃ w', _process_subreddit_batch io chunk_size ssh gather subreddits w = (Ok tt, w')
    ∧ processed_subreddits (dedup w')
      = processed_subreddits (dedup w)
        ∪ list_to_set (Str.lower <$> alternate true subreddits)
    ∧ current_batch w' = alternate false subreddits
    ∧ queued_subreddits (dedup w')
      = list_to_set (Str.lower <$> alternate false subreddits)
    ∧ (∀ s, s ∈ alternate false subreddits →
            is_subreddit_processed s (dedup w') = false
            ∧ should_add_to_batch s (dedup w') = false).
Proof.
  intros Hio Hsize Hnd Hnew.
  assert (∀ s, s ∈ subreddits → Str.lower s ∉ processed_subreddits (dedup w))
    as Hnew'.
  { intros s Hs. specialize (Hnew s Hs). by apply bool_decide_eq_false in Hnew. }
  destruct (process_subreddit_batch_alternate io chunk_size ssh gather
              subreddits w Hio Hsize Hnd Hnew')
    as (w' & E & _ & Hp & Hb & Hq).
  exists w'. split; [exact E|]. split; [exact Hp|]. split; [exact Hb|].
  split; [exact Hq|].
  pose proof (alternate_perm true subreddits) as Hperm. simpl in Hperm.
  assert (NoDup ((Str.lower <$> alternate true subreddits)
                 ++ (Str.lower <$> alternate false subreddits))%list) as Hnd2.
  { rewrite <- fmap_app. by rewrite <- Hperm. }
  apply NoDup_app in Hnd2 as (_ & Hdis & _).
  intros s Hs.
  assert (Str.lower s ∈ Str.lower <$> alternate false subreddits) as Hl
    by (apply list_elem_of_fmap; eauto).
  assert (Str.lower s ∉ processed_subreddits (dedup w)) as Hw.
  { apply Hnew'. rewrite Hperm. set_solver. }
  unfold should_add_to_batch, is_subreddit_processed, is_subreddit_queued.
  rewrite Hp, Hq.
  assert (Str.lower s ∉ (list_to_set (Str.lower <$> alternate true subreddits)
                          : gset string)) as Hno.
  { rewrite elem_of_list_to_set. intros Hz. by apply (Hdis _ Hz). }
  rewrite (bool_decide_eq_false_2 (_ ∈ _ ∪ _)) by set_solver.
  split; [done|]. simpl. apply negb_false_iff, bool_decide_eq_true.
  by apply elem_of_list_to_set.
Qed.

End BatchFacts.

(** ** Interrupted runs, the export order, the restart budget *)

Module RunFacts.
Import Checkpoint Gluetun Main ScraperSpec RunSpec CheckpointFacts.










#[local] Instance more_subscribers_total : Total more_subscribers.
Proof. intros a b. unfold more_subscribers. lia. Qed.

(** What a run does to the list of discovered subreddits and to the list
    of completed keywords, step by step. *)
Lemma lists_save_checkpoint o sc :
  discovered_subreddits (state (_save_checkpoint o sc))
  = discovered_subreddits (state sc)
  ∧ completed_keywords (state (_save_checkpoint o sc))
    = completed_keywords (state sc).
Proof. unfold _save_checkpoint. by destruct (discovery sc). Qed.

Lemma lists_consume items sc :
  discovered_subreddits (state (consume items sc))
  = (discovered_subreddits (state sc) ++ items)%list
  ∧ completed_keywords (state (consume items sc))
    = completed_keywords (state sc).
Proof.
  revert sc. induction items as [|i items IH]; intros sc; simpl.
  - by rewrite app_nil_r.
  - destruct (IH (_process_subreddit i sc)) as [-> ->]. simpl.
    by rewrite <- app_assoc.
Qed.

Lemma lists_apply_result r sc :
  discovered_subreddits (state (apply_result r sc))
  = (discovered_subreddits (state sc) ++ items r)%list
  ∧ completed_keywords (state (apply_result r sc))
    = completed_keywords (state sc).
Proof.
  unfold apply_result. destruct (stopped r); simpl; apply lists_consume.
Qed.

Lemma keyword_loop_lists o search keywords sc :
  ∃ found done,
    discovered_subreddits (state (keyword_loop o search keywords sc))
    = (discovered_subreddits (state sc) ++ found)%list
    ∧ completed_keywords (state (keyword_loop o search keywords sc))
      = (completed_keywords (state sc) ++ done)%list
    ∧ done `prefix_of` keywords
    ∧ (running sc = true → undisturbed search → done = keywords).
Proof.
  revert sc. induction keywords as [|k keywords IH]; intros sc; simpl.
  - exists [], []. by rewrite !app_nil_r.
  - destruct (running sc) eqn:Hrun; simpl.
    2:{ exists [], []. rewrite !app_nil_r. split; [done|]. split; [done|].
        split; [apply prefix_nil|done]. }
    destruct (lists_apply_result (search k) sc) as [Hd Hc].
    destruct (failed (search k)) eqn:Hfail.
    + exists (items (search k)), [].
      destruct (lists_save_checkpoint o (apply_result (search k) sc)) as [-> ->].
      rewrite Hd, Hc, app_nil_r. split; [done|]. split; [done|].
      split; [apply prefix_nil|].
      intros _ Hu. destruct (Hu k). congruence.
    + set (sc1 := _save_checkpoint o
                    (add_completed_keyword k (apply_result (search k) sc))).
      destruct (IH sc1) as (found & done & Hf & Hdn & Hpre & Hall).
      assert (discovered_subreddits (state sc1)
              = (discovered_subreddits (state sc) ++ items (search k))%list
              ∧ completed_keywords (state sc1)
                = (completed_keywords (state sc) ++ [k])%list) as [Hd1 Hc1].
      { unfold sc1.
        destruct (lists_save_checkpoint o
                    (add_completed_keyword k (apply_result (search k) sc)))
          as [-> ->].
        simpl. by rewrite Hd, Hc. }
      exists (items (search k) ++ found)%list, (k :: done).
      rewrite Hf, Hdn, Hd1, Hc1, <- !app_assoc. simpl.
      split; [done|]. split; [done|]. split; [by apply prefix_cons|].
      intros _ Hu. f_equal. apply Hall; [|done]. unfold sc1.
      destruct (view_eq _ _ _ _
                  (eq_trans (view_save_checkpoint o _)
                     (eq_trans (view_add_completed_keyword k _)
                        (view_apply_result (search k) sc))))
        as (_ & -> & _).
      rewrite Hrun. by destruct (Hu k) as [_ ->].
Qed.





(** X12.  The keyword phase appends to [completed_keywords] a prefix of the
    keywords that were not completed before, so that no keyword is recorded
    twice; when no search fails or is interrupted, it appends all of them,
    and every keyword of [NSFW_SEARCH_KEYWORDS] is completed afterwards. *)
Theorem keyword_phase_completes o env sc :
  phase_in sc "init" "keyword_search" = true →
  running sc = true →
  NoDup (completed_keywords (state sc)) →
  let sc' := phase_keyword_search o env sc in
  (∃ done, completed_keywords (state sc')
           = (completed_keywords (state sc) ++ done)%list
         ∧ done `prefix_of` remaining_keywords sc)
  ∧ NoDup (completed_keywords (state sc'))
  ∧ (undisturbed (search_by_keyword env) →
     completed_keywords (state sc')
     = (completed_keywords (state sc) ++ remaining_keywords sc)%list
     ∧ ∀ k, k ∈ NSFW_SEARCH_KEYWORDS → k ∈ completed_keywords (state sc')).
Proof.
  intros Hphase Hrun Hnd sc'. unfold sc', phase_keyword_search.
  rewrite Hphase. cbv zeta.
  change (filter _ NSFW_SEARCH_KEYWORDS) with (remaining_keywords sc).
  destruct (keyword_loop_lists o (search_by_keyword env)
              (remaining_keywords sc) (enter "keyword_search" sc))
    as (found & done & _ & Hdone & Hpre & Hall).
  change (completed_keywords (state (enter "keyword_search" sc)))
    with (completed_keywords (state sc)) in Hdone.
  rewrite Hdone.
  assert (NoDup NSFW_SEARCH_KEYWORDS) as Hkw.
  { apply (bool_decide_unpack _). by vm_compute. }
  split; [by exists done|]. split.
  - destruct Hpre as [rest Hrest].
    assert (NoDup (remaining_keywords sc)) as Hrem by (by apply NoDup_filter).
    rewrite Hrest in Hrem. apply NoDup_app in Hrem as (Hd & _ & _).
    apply NoDup_app. split; [done|]. split; [|done].
    intros k Hk Hk'.
    assert (k ∈ remaining_keywords sc) as Hin by (rewrite Hrest; set_solver).
    apply list_elem_of_filter in Hin as [Hin _]. done.
  - intros Hu. rewrite (Hall Hrun Hu). split; [done|].
    intros k Hk. apply elem_of_app.
    destruct (decide (k ∈ completed_keywords (state sc))); [by left|].
    right. by apply list_elem_of_filter.
Qed.

(** X13.  The restart budget.  Over any sequence of calls of
    [restart_for_new_ip], [restart_count] never exceeds
    [max_restart_attempts]; and once the two are equal the controller is
    exhausted for good: every further call raises [GluetunControllerError]
    and changes nothing. *)
Theorem restart_budget (evs : list restart_event) (g : GluetunController) :
  (Z.of_nat (restart_count g) ≤ max_restart_attempts g)%Z →
  let g' := restart_many evs g in
  max_restart_attempts g' = max_restart_attempts g
  ∧ (Z.of_nat (restart_count g') ≤ max_restart_attempts g')%Z
  ∧ (Z.of_nat (restart_count g') = max_restart_attempts g' →
     ∀ evs' ev,
       restart_many evs' g' = g'
       ∧ restart_for_new_ip ev (restart_many evs' g')
         = (Raise GluetunControllerError, g')).
Proof.
  intros Hle g'.
  assert (max_restart_attempts g' = max_restart_attempts g
          ∧ (Z.of_nat (restart_count g') ≤ max_restart_attempts g')%Z) as [Hmax Hle'].
  { unfold g'. clear g'. revert g Hle.
    induction evs as [|ev evs IH]; intros g Hle; [done|].
    unfold restart_many in *. simpl.
    assert (max_restart_attempts (restart_for_new_ip ev g).2 = max_restart_attempts g
            ∧ (Z.of_nat (restart_count (restart_for_new_ip ev g).2)
               ≤ max_restart_attempts g)%Z) as [Hm Hc].
    { unfold restart_for_new_ip. case_bool_decide as Hfull; [done|].
      destruct ev; simpl; try done; try (split; [done|lia]).
      case_bool_decide; simpl; split; try done; lia. }
    destruct (IH (restart_for_new_ip ev g).2) as [IH1 IH2]; [by rewrite Hm|].
    by rewrite IH1, Hm in *. }
  split; [done|]. split; [done|].
  intros Hfull evs' ev.
  assert (∀ ev0, restart_for_new_ip ev0 g' = (Raise GluetunControllerError, g'))
    as Hstuck.
  { intros ev0. unfold restart_for_new_ip.
    by rewrite bool_decide_eq_true_2 by lia. }
  assert (restart_many evs' g' = g') as Hsame.
  { induction evs' as [|e evs' IH]; [done|].
    unfold restart_many in *. simpl. by rewrite Hstuck. }
  by rewrite Hsame.
Qed.

End RunFacts.

(** ** Listings *)

Module ListingFacts.
Import Checkpoint Main Listing.

Lemma lower_ascii_idemp c : Str.lower_ascii (Str.lower_ascii c) = Str.lower_ascii c.
Proof. destruct c as [[] [] [] [] [] [] [] []]; vm_compute; reflexivity. Qed.

Lemma lower_idemp s : Str.lower (Str.lower s) = Str.lower s.
Proof.
  induction s as [|c s IH]; simpl; [done|]. by rewrite lower_ascii_idemp, IH.
Qed.

(** What [_extract_subreddit_info] lets through. *)
Lemma extract_subreddit_info_Some data info :
  _extract_subreddit_info data = Some info →
  over18 info = true
  ∧ data_over18 data = Some true
  ∧ (data_subreddit_type data = Some "public"
     ∨ data_subreddit_type data = Some "restricted")
  ∧ subreddit_name info ≠ EmptyString
  ∧ (∃ n, data_display_name data = Some n ∧ subreddit_name info = Str.lower n)
  ∧ Str.lower (subreddit_name info) = subreddit_name info
  ∧ subscribers info = default 0%Z (data_subscribers data).
Proof.
  unfold _extract_subreddit_info.
  destruct (data_over18 data) as [[]|]; simpl; try done.
  case_bool_decide as Htype; simpl; [|done].
  case_bool_decide as Hname; [done|].
  intros [= <-]. simpl.
  split; [done|]. split; [done|]. split.
  { destruct (data_subreddit_type data) as [t|]; simpl in Htype.
    - apply elem_of_cons in Htype as [->|Htype]; [by left|].
      apply elem_of_cons in Htype as [->|Htype]; [by right|].
      by apply not_elem_of_nil in Htype.
    - apply elem_of_cons in Htype as [Htype|Htype]; [done|].
      apply elem_of_cons in Htype as [Htype|Htype]; [done|].
      by apply not_elem_of_nil in Htype. }
  split; [done|]. split.
  { destruct (data_display_name data) as [n|]; [by exists n|done]. }
  split; [apply lower_idemp|done].
Qed.

(** What one listing yields and leaves behind. *)
Lemma process_listing_spec children d :
  let '(items, d') := _process_listing children d in
  NoDup (names items)
  ∧ (∀ n, n ∈ names items → n ∉ discovered d)
  ∧ discovered d' = discovered d ∪ list_to_set (names items)
  ∧ to_explore d' = (to_explore d ++ names items)%list
  ∧ (∀ info, info ∈ items →
       ∃ data, data ∈ children ∧ _extract_subreddit_info data = Some info)
  ∧ (∀ data info, data ∈ children → _extract_subreddit_info data = Some info →
       subreddit_name info ∈ discovered d').
Proof.
  revert d. induction children as [|c children IH]; intros d; simpl.
  { split; [constructor|]. split; [set_solver|]. split; [set_solver|].
    rewrite app_nil_r. split; [done|]. split; set_solver. }
  destruct (_extract_subreddit_info c) as [info|] eqn:Hc.
  - case_bool_decide as Hnew.
    + specialize (IH {| discovered := discovered d ∪ {[subreddit_name info]};
                        to_explore := to_explore d ++ [subreddit_name info] |}).
      destruct (_process_listing children _) as [items d'']. simpl in *.
      destruct IH as (Hnd & Hfresh & Hdisc & Hexp & Hsrc & Hall).
      split; [apply NoDup_cons; split; [|done]; intros Hin;
              specialize (Hfresh _ Hin); set_solver|].
      split; [intros n [->|Hn]%elem_of_cons; [done|];
              specialize (Hfresh _ Hn); set_solver|].
      split; [rewrite Hdisc; set_solver|].
      split; [by rewrite Hexp, <- app_assoc|].
      split.
      * intros i [->|Hi]%elem_of_cons; [exists c; split; [set_solver|done]|].
        destruct (Hsrc i Hi) as (data & Hd & He). exists data. set_solver.
      * intros data i [->|Hd]%elem_of_cons He.
        -- rewrite Hc in He. injection He as <-. rewrite Hdisc. set_solver.
        -- by apply (Hall data).
    + specialize (IH d). destruct (_process_listing children d) as [items d'].
      destruct IH as (Hnd & Hfresh & Hdisc & Hexp & Hsrc & Hall).
      split; [done|]. split; [done|]. split; [done|]. split; [done|]. split.
      * intros i Hi. destruct (Hsrc i Hi) as (data & Hd & He).
        exists data. set_solver.
      * intros data i [->|Hd]%elem_of_cons He.
        -- rewrite Hc in He. injection He as <-. rewrite Hdisc.
           set_solver.
        -- by apply (Hall data).
  - specialize (IH d). destruct (_process_listing children d) as [items d'].
    destruct IH as (Hnd & Hfresh & Hdisc & Hexp & Hsrc & Hall).
    split; [done|]. split; [done|]. split; [done|]. split; [done|]. split.
    + intros i Hi. destruct (Hsrc i Hi) as (data & Hd & He).
      exists data. set_solver.
    + intros data i [->|Hd]%elem_of_cons He; [congruence|].
      by apply (Hall data).
Qed.

(** What one pass of a paged listing yields and leaves behind. *)
Lemma listing_loop_spec fetch remaining pages after d :
  let p := listing_loop fetch remaining pages after d in
  NoDup (names (yielded p))
  ∧ (∀ n, n ∈ names (yielded p) → n ∉ discovered d)
  ∧ discovered (left p) = discovered d ∪ list_to_set (names (yielded p))
  ∧ to_explore (left p) = (to_explore d ++ names (yielded p))%list
  ∧ (∀ info, info ∈ yielded p →
       over18 info = true ∧ subreddit_name info ≠ EmptyString
       ∧ Str.lower (subreddit_name info) = subreddit_name info)
  ∧ (requests p ≤ remaining)%nat.
Proof.
  revert pages after d.
  induction remaining as [|remaining IH]; intros pages after d; simpl.
  { split; [constructor|]. split; [set_solver|]. split; [set_solver|].
    rewrite app_nil_r. split; [done|]. split; [set_solver|done]. }
  destruct (fetch pages after) as [response|e]; simpl.
  2:{ split; [constructor|]. split; [set_solver|]. split; [set_solver|].
      rewrite app_nil_r. split; [done|]. split; [set_solver|lia]. }
  pose proof (process_listing_spec (children response) d) as H1.
  destruct (_process_listing (children response) d) as [items d1].
  destruct H1 as (Hnd & Hfresh & Hdisc & Hexp & Hsrc & _).
  assert (∀ info, info ∈ items →
            over18 info = true ∧ subreddit_name info ≠ EmptyString
            ∧ Str.lower (subreddit_name info) = subreddit_name info) as Hok.
  { intros info Hi. destruct (Hsrc info Hi) as (data & _ & He).
    apply extract_subreddit_info_Some in He. tauto. }
  destruct (falsy (Listing.after response)); simpl.
  { split; [done|]. split; [done|]. split; [done|]. split; [done|].
    split; [done|lia]. }
  specialize (IH (S pages) (Listing.after response) d1). simpl in IH.
  destruct IH as (Hnd2 & Hfresh2 & Hdisc2 & Hexp2 & Hok2 & Hreq).
  unfold names in *. rewrite fmap_app.
  split.
  { apply NoDup_app. split; [done|]. split; [|done].
    intros n Hn Hn2. apply (Hfresh2 n Hn2). rewrite Hdisc. set_solver. }
  split.
  { intros n [Hn|Hn]%elem_of_app; [by apply Hfresh|].
    specialize (Hfresh2 n Hn). rewrite Hdisc in Hfresh2. set_solver. }
  split; [rewrite Hdisc2, Hdisc; set_solver|].
  split; [by rewrite Hexp2, Hexp, <- app_assoc|].
  split; [|lia].
  intros info [Hi|Hi]%elem_of_app; [by apply Hok|by apply Hok2].
Qed.

(** X14.  A paged listing ([search_by_keyword], [discover_from_popular],
    [discover_from_new]) never yields a name twice, nor a name that was
    discovered before; every item it yields is marked over-18 and has a
    non-empty lower-case name; the names it yields are exactly what it
    adds to [discovered] and appends to [to_explore]; and it calls the
    client at most [max_pages] times, not at all when [max_pages] is zero
    or negative. *)
Theorem paged_listing_yields_new_names search keyword fetch (max_pages : Z) d p :
  p = search_by_keyword search keyword max_pages d
  ∨ p = discover_from_popular fetch max_pages d
  ∨ p = discover_from_new fetch max_pages d →
  NoDup (names (yielded p))
  ∧ (∀ n, n ∈ names (yielded p) → n ∉ discovered d)
  ∧ discovered (left p) = discovered d ∪ list_to_set (names (yielded p))
  ∧ to_explore (left p) = (to_explore d ++ names (yielded p))%list
  ∧ (∀ info, info ∈ yielded p →
       over18 info = true ∧ subreddit_name info ≠ EmptyString
       ∧ Str.lower (subreddit_name info) = subreddit_name info)
  ∧ (Z.of_nat (requests p) ≤ Z.max 0 max_pages)%Z.
Proof.
  assert (∀ f, let p := listing_loop f (Z.to_nat max_pages) 0 None d in
               NoDup (names (yielded p))
               ∧ (∀ n, n ∈ names (yielded p) → n ∉ discovered d)
               ∧ discovered (left p) = discovered d ∪ list_to_set (names (yielded p))
               ∧ to_explore (left p) = (to_explore d ++ names (yielded p))%list
               ∧ (∀ info, info ∈ yielded p →
                    over18 info = true ∧ subreddit_name info ≠ EmptyString
                    ∧ Str.lower (subreddit_name info) = subreddit_name info)
               ∧ (Z.of_nat (requests p) ≤ Z.max 0 max_pages)%Z) as Hloop.
  { intros f p0.
    destruct (listing_loop_spec f (Z.to_nat max_pages) 0 None d)
      as (H1 & H2 & H3 & H4 & H5 & H6).
    fold p0 in H1, H2, H3, H4, H5, H6.
    split; [done|]. split; [done|]. split; [done|]. split; [done|].
    split; [done|lia]. }
  intros [->|[->| ->]]; apply Hloop.
Qed.

(** X15.  Retrying a listing from its beginning does not repeat an item:
    a second pass, started on the discovery state the first pass left
    (whatever the first pass ended with, and whatever the remote source
    answers the second time), yields no name the first pass yielded. *)
Theorem retry_yields_no_duplicates fetch1 fetch2 (max_pages : Z) d :
  let p1 := discover_from_popular fetch1 max_pages d in
  let p2 := discover_from_popular fetch2 max_pages (left p1) in
  NoDup (names (yielded p1 ++ yielded p2))
  ∧ discovered (left p2)
    = discovered d ∪ list_to_set (names (yielded p1 ++ yielded p2)).
Proof.
  intros p1 p2.
  destruct (listing_loop_spec fetch1 (Z.to_nat max_pages) 0 None d)
    as (H1 & _ & H3 & _).
  destruct (listing_loop_spec fetch2 (Z.to_nat max_pages) 0 None (left p1))
    as (G1 & G2 & G3 & _).
  fold (discover_from_popular fetch1 max_pages d) in *. fold p1 in H1, H3.
  fold (discover_from_popular fetch2 max_pages (left p1)) in *.
  fold p2 in G1, G2, G3.
  unfold names in *. rewrite fmap_app. split.
  - apply NoDup_app. split; [done|]. split; [|done].
    intros n Hn Hn2. apply (G2 n Hn2). rewrite H3. set_solver.
  - rewrite G3, H3. set_solver.
Qed.

End ListingFacts.

(** ** Comment trees and subreddit files *)

Module CommenterFacts.
Import CommenterTools.

(** Induction over a comment and the replies below it. *)
Lemma comment_rect' (P : comment → Prop) :
  (∀ a rs, Forall P rs → P (Comment a rs)) → ∀ c, P c.
Proof.
  intros Hstep. fix IH 1. intros [a rs]. apply Hstep.
  induction rs as [|r rs IHrs]; constructor; [apply IH|apply IHrs].
Qed.

Lemma extract_commenters_cons c cs :
  extract_commenters (c :: cs)
  = (match author c with
     | Some a => if is_commenter a then {[a]} else ∅
     | None => ∅
     end)
    ∪ extract_commenters (replies c) ∪ extract_commenters cs.
Proof. destruct c as [a rs]. reflexivity. Qed.

Lemma is_commenter_spec a :
  is_commenter a = true
  ↔ a ≠ EmptyString ∧ a ≠ "[deleted]" ∧ a ≠ "AutoModerator".
Proof.
  unfold is_commenter.
  rewrite andb_true_iff, !negb_true_iff, !bool_decide_eq_false.
  rewrite !elem_of_cons, elem_of_nil. tauto.
Qed.

Lemma in_thread_nil c : ¬ in_thread c [].
Proof. inversion 1 as [cs Hin|c0 cs Hin _]; by apply not_elem_of_nil in Hin. Qed.

Lemma in_thread_cons c c' cs :
  in_thread c (c' :: cs) ↔ c = c' ∨ in_thread c (replies c') ∨ in_thread c cs.
Proof.
  split.
  - inversion 1 as [cs0 Hin|c0 cs0 Hin Hsub]; subst.
    + apply elem_of_cons in Hin as [->|Hin]; [by left|].
      right. right. by constructor.
    + apply elem_of_cons in Hin as [->|Hin]; [by right; left|].
      right. right. by apply (in_thread_reply c c0).
  - intros [->|[Hsub|Hin]].
    + constructor. set_solver.
    + apply (in_thread_reply c c'); [set_solver|done].
    + inversion Hin as [cs0 Hin'|c0 cs0 Hin' Hsub]; subst.
      * constructor. set_solver.
      * apply (in_thread_reply c c0); [set_solver|done].
Qed.

Lemma extract_commenters_nil : extract_commenters [] = ∅.
Proof. reflexivity. Qed.

Lemma contributes_cons u c cs :
  contributes u (c :: cs)
  ↔ (author c = Some u ∧ is_commenter u = true)
    ∨ contributes u (replies c) ∨ contributes u cs.
Proof.
  unfold contributes. split.
  - intros (c0 & [->|[Hin|Hin]]%in_thread_cons & Ha & Hk);
      [by left|right; left|right; right]; by exists c0.
  - intros [[Ha Hk]|[(c0 & Hin & Ha & Hk)|(c0 & Hin & Ha & Hk)]].
    + exists c. split; [|done]. apply in_thread_cons. by left.
    + exists c0. split; [|done]. apply in_thread_cons. by right; left.
    + exists c0. split; [|done]. apply in_thread_cons. by right; right.
Qed.

Lemma elem_of_own u (a : option string) :
  u ∈ (match a with
       | Some a => if is_commenter a then {[a]} else ∅
       | None => ∅
       end : gset string)
  ↔ a = Some u ∧ is_commenter u = true.
Proof.
  destruct a as [a|]; [|set_solver].
  destruct (is_commenter a) eqn:Hk.
  - rewrite elem_of_singleton. split; [by intros ->|]. by intros [[= ->] _].
  - split; [set_solver|]. intros [[= ->] ?]. congruence.
Qed.

Lemma elem_of_extract_commenters u cs :
  u ∈ extract_commenters cs ↔ contributes u cs.
Proof.
  assert (∀ cs, Forall (λ c, ∀ v, v ∈ extract_commenters [c] ↔ contributes v [c]) cs →
                ∀ v, v ∈ extract_commenters cs ↔ contributes v cs) as Hlist.
  { intros cs0 Hall. induction Hall as [|c cs0 Hc _ IH]; intros v.
    - rewrite extract_commenters_nil. split; [by intros ?%not_elem_of_empty|].
      intros (c0 & Hin & _). by apply in_thread_nil in Hin.
    - specialize (Hc v).
      rewrite extract_commenters_cons, contributes_cons in Hc.
      rewrite extract_commenters_cons, contributes_cons.
      rewrite !elem_of_union in Hc. rewrite !elem_of_union, IH.
      assert (¬ contributes v []) as Hnil
        by (intros (c0 & Hin & _); by apply in_thread_nil in Hin).
      assert (v ∉ extract_commenters []) as Hnil'
        by (rewrite extract_commenters_nil; apply not_elem_of_empty).
      tauto. }
  assert (∀ c v, v ∈ extract_commenters [c] ↔ contributes v [c]) as Hone.
  { induction c as [a rs IH] using comment_rect'. intros v.
    rewrite extract_commenters_cons, contributes_cons. simpl.
    rewrite !elem_of_union, elem_of_own, (Hlist rs IH).
    assert (¬ contributes v []) as Hnil
      by (intros (c0 & Hin & _); by apply in_thread_nil in Hin).
    assert (v ∉ extract_commenters []) as Hnil'
      by (rewrite extract_commenters_nil; apply not_elem_of_empty).
    tauto. }
  apply Hlist, Forall_forall. intros c _. apply Hone.
Qed.

(** X16.  [extract_commenters] returns exactly the authors found in the
    thread, at any depth of the replies, that are neither missing nor empty
    nor ["[deleted]"] nor ["AutoModerator"]; these three are never part of
    the result. *)
Theorem extract_commenters_spec (comments : list comment) :
  (∀ u, u ∈ extract_commenters comments
        ↔ ∃ c, in_thread c comments ∧ author c = Some u
               ∧ u ≠ EmptyString ∧ u ≠ "[deleted]" ∧ u ≠ "AutoModerator")
  ∧ (EmptyString ∉ extract_commenters comments)
  ∧ ("[deleted]" ∉ extract_commenters comments)
  ∧ ("AutoModerator" ∉ extract_commenters comments).
Proof.
  assert (∀ u, u ∈ extract_commenters comments
               ↔ ∃ c, in_thread c comments ∧ author c = Some u
                      ∧ u ≠ EmptyString ∧ u ≠ "[deleted]" ∧ u ≠ "AutoModerator")
    as Hspec.
  { intros u. rewrite elem_of_extract_commenters. unfold contributes.
    split; intros (c & Hin & Ha & Hk); exists c;
      (split; [done|]); (split; [done|]); by apply is_commenter_spec. }
  split; [exact Hspec|].
  split; [|split]; intros (c & _ & _ & H1 & H2 & H3)%Hspec; done.
Qed.


Lemma rstrip_idemp s : Str.rstrip (Str.rstrip s) = Str.rstrip s.
Proof.
  induction s as [|c s IH]; simpl; [done|].
  destruct (Str.rstrip s) as [|d r] eqn:Hr.
  - destruct (Str.isspace c) eqn:Hc; simpl; [done|]. by rewrite Hc.
  - simpl in *. by rewrite IH.
Qed.

Lemma rstrip_head c s :
  Str.isspace c = false → ∃ r, Str.rstrip (String c s) = String c r.
Proof.
  intros Hc. simpl. destruct (Str.rstrip s); [rewrite Hc|]; by eexists.
Qed.

Lemma lstrip_head s :
  Str.lstrip s = EmptyString
  ∨ ∃ c r, Str.lstrip s = String c r ∧ Str.isspace c = false.
Proof.
  induction s as [|c s IH]; simpl; [by left|].
  destruct (Str.isspace c) eqn:Hc; [done|]. right. by exists c, s.
Qed.

Lemma strip_idemp s : Str.strip (Str.strip s) = Str.strip s.
Proof.
  unfold Str.strip.
  destruct (lstrip_head s) as [->|(c & r & -> & Hc)]; [done|].
  destruct (rstrip_head c r Hc) as [r' Hr]. rewrite Hr.
  simpl Str.lstrip. rewrite Hc, <- Hr. apply rstrip_idemp.
Qed.

Lemma read_lines_lines_text (ls : list string) :
  Forall (λ l, Str.no_space l = true) ls →
  Str.read_lines (lines_text ls) = ls.
Proof.
  induction 1 as [|l ls Hl _ IH]; [done|].
  unfold lines_text in *. cbn [foldr].
  by rewrite StrFacts.read_lines_line, IH.
Qed.

(** X17.  [load_subreddits_from_file] answers a missing file with the empty
    list; no entry it returns is empty, starts with [#] or has white space
    at either end; and a file of lines without white space reads back as
    those lines, in order, less the empty ones and those that start with
    [#]. *)
Theorem load_subreddits_from_file_spec (text : string) (ls : list string) :
  load_subreddits_from_file None = []
  ∧ (∀ l, l ∈ load_subreddits_from_file (Some text) →
          l ≠ EmptyString ∧ is_comment_line l = false ∧ Str.strip l = l)
  ∧ (Forall (λ l, Str.no_space l = true) ls →
     load_subreddits_from_file (Some (lines_text ls))
     = filter (λ l, l ≠ EmptyString ∧ is_comment_line l = false) ls).
Proof.
  split; [done|]. split.
  - intros l [[Hne Hc] Hin]%list_elem_of_filter.
    apply list_elem_of_fmap in Hin as (l0 & -> & _).
    split; [done|]. split; [done|]. apply strip_idemp.
  - intros Hls. unfold load_subreddits_from_file.
    rewrite (read_lines_lines_text ls Hls). f_equal.
    induction Hls as [|l ls Hl _ IH]; [done|].
    rewrite fmap_cons, IH. by rewrite (StrFacts.strip_no_space l Hl).
Qed.

End CommenterFacts.

(** ** Shutdown *)

Module ShutdownFacts.
Import Pipeline PipelineSpec PipelineBatch PipelineShutdown DedupFacts ExportFacts.

(** X18.  A graceful shutdown loses no pending user.  When every write
    succeeds, the chunk size is positive, no chunk file is numbered above
    [chunk_count] and the exporter's state file holds no pending user, the
    signal handler returns, leaves the pending buffer empty, and the chunk
    files then hold exactly the names they held before and the names that
    were pending; a restart finds no pending user and the batch that was
    in progress. *)
Theorem shutdown_exports_pending io chunk_size ssh w :
  io_ok io → (0 < chunk_size)%Z →
  (∀ m, is_Some (chunk_json (disk w) !! m) → (m ≤ chunk_count (exporter w))%nat) →
  no_saved_pending (disk w) →
  ∃ w', _signal_handler io chunk_size ssh w = (Ok tt, w')
    ∧ pending_users (exporter w') = ∅
    ∧ (∀ u, u ∈ exported_json (disk w')
            ↔ u ∈ exported_json (disk w) ∨ u ∈ pending_users (exporter w))
    ∧ pending_users (exporter (start (disk w'))) = ∅
    ∧ current_batch (start (disk w')) = current_batch w.
Proof.
  intros Hio Hsize Hord Hnsp. unfold _signal_handler.
  assert (∃ w1, PipelineState_save io w = (Ok tt, w1)
                ∧ exporter w1 = exporter w
                ∧ exporter_state_file (disk w1) = exporter_state_file (disk w)
                ∧ chunk_json (disk w1) = chunk_json (disk w)
                ∧ pipeline_state_file (disk w1)
                  = Some {| doc_current_batch := Some (current_batch w) |})
    as (w1 & E1 & He1 & Hx1 & Hj1 & Hf1).
  { unfold PipelineState_save. run_monad. rewrite Hio. simpl.
    match goal with
    | |- context [save_state io true ?w0] =>
        destruct (save_state_spec io true w0)
          as (w0' & -> & _ & He & _ & (Hx & Hf & _ & Hj) & _)
    end.
    simpl in *. exists w0'. by rewrite He, Hx, Hf, Hj. }
  rewrite (BatchFacts.bind_ok _ _ _ _ _ E1).
  destruct (save_state_spec io true w1)
    as (w2 & E2 & _ & He2 & Hb2 & (Hx2 & Hf2 & _ & Hj2) & _).
  rewrite (BatchFacts.bind_ok _ _ _ _ _ E2).
  assert (exporter w2 = exporter w) as He by (by rewrite He2, He1).
  assert (∀ k, pipeline_state_file k
               = Some {| doc_current_batch := Some (current_batch w) |} →
               current_batch (start k) = current_batch w) as Hbatch.
  { intros k Hk. unfold start. simpl. by rewrite Hk. }
  destruct (export_chunks_spec io chunk_size ssh true USERS_EXPORT_THRESHOLD
              w2 Hio)
    as [[Hno E3]|[(_ & Hz & _)|(_ & _ & w3 & E3 & _ & Hb3 & Hp3 & _ & Hinit
                                & _ & Hj3 & Hf3 & _)]]; [|lia|].
  - rewrite (BatchFacts.bind_ok _ _ _ _ _ E3). exists w2.
    assert (pending_users (exporter w2) = ∅) as Hemp.
    { apply dec_stable. intros Hne. apply Hno. split; [by left|done]. }
    split; [done|]. split; [done|]. split.
    { intros u. rewrite (exported_json_ext _ _ Hj2), (exported_json_ext _ _ Hj1).
      rewrite <- He, Hemp. set_solver. }
    split.
    { change (pending_users (UserExporter_init (disk w2)) = ∅).
      rewrite (UserExporter_init_ext _ _ Hx2), (UserExporter_init_ext _ _ Hx1).
      exact Hnsp. }
    apply Hbatch. by rewrite Hf2.
  - rewrite (BatchFacts.bind_ok _ _ _ _ _ E3). exists w3.
    split; [done|]. split; [done|]. split.
    { intros u. rewrite (exported_json_ext _ _ Hj3).
      rewrite put_chunks_exported.
      2:{ intros m. rewrite Hj2, Hj1, He. apply Hord. }
      destruct (slices_pos chunk_size
                  (Str.sorted (elements (pending_users (exporter w2)))) Hsize)
        as (-> & _).
      rewrite elem_of_app, StrFacts.elem_of_sorted, elem_of_elements.
      rewrite (exported_json_ext _ _ Hj2), (exported_json_ext _ _ Hj1), He.
      done. }
    split.
    { change (pending_users (UserExporter_init (disk w3)) = ∅).
      by rewrite Hinit. }
    apply Hbatch. by rewrite Hf3, Hf2.
Qed.

End ShutdownFacts.

(** ** Related subreddits *)

Module RelatedFacts.
Import Checkpoint Main Listing Related.

(** What [discover_related] adds to the discovery state. *)
Lemma related_loop_adds about explored related d :
  let '(items, d') := related_loop about explored related d in
  discovered d' = discovered d ∪ list_to_set (Listing.names items)
  ∧ to_explore d' = (to_explore d ++ Listing.names items)%list
  ∧ (∀ info, info ∈ items →
       over18 info = true ∧ subreddit_name info ≠ EmptyString
       ∧ Str.lower (subreddit_name info) = subreddit_name info).
Proof.
  revert d. induction related as [|name related IH]; intros d; simpl.
  { split; [set_solver|]. rewrite app_nil_r. split; [done|set_solver]. }
  case_bool_decide as Hseen; [apply IH|].
  destruct (about explored name) as [data|] eqn:Ha; [|apply IH].
  destruct (_extract_subreddit_info data) as [info|] eqn:Hi; [|apply IH].
  specialize (IH {| discovered := discovered d ∪ {[subreddit_name info]};
                    to_explore := to_explore d ++ [subreddit_name info] |}).
  destruct (related_loop about explored related _) as [items d'']. simpl in *.
  destruct IH as (H3 & H4 & H5).
  unfold Listing.names in *. simpl.
  split; [rewrite H3; set_solver|].
  split; [by rewrite H4, <- app_assoc|].
  intros i [->|Hi']%elem_of_cons; [|by apply H5].
  apply ListingFacts.extract_subreddit_info_Some in Hi. tauto.
Qed.

(** When the about pages are consistent, [discover_related] yields new
    names only. *)
Lemma related_loop_fresh about explored related d :
  about_consistent about →
  let '(items, d') := related_loop about explored related d in
  NoDup (Listing.names items)
  ∧ (∀ n, n ∈ Listing.names items → n ∉ discovered d).
Proof.
  intros Hab. revert d.
  induction related as [|name related IH]; intros d; simpl.
  { split; [constructor|set_solver]. }
  case_bool_decide as Hseen; [apply IH|].
  destruct (about explored name) as [data|] eqn:Ha; [|apply IH].
  destruct (_extract_subreddit_info data) as [info|] eqn:Hi; [|apply IH].
  pose proof (Hab explored name data info Ha Hi) as Hname.
  specialize (IH {| discovered := discovered d ∪ {[subreddit_name info]};
                    to_explore := to_explore d ++ [subreddit_name info] |}).
  destruct (related_loop about explored related _) as [items d'']. simpl in *.
  destruct IH as (H1 & H2).
  unfold Listing.names in *. simpl.
  split.
  { apply NoDup_cons. split; [|done]. intros Hin.
    specialize (H2 _ Hin). set_solver. }
  intros n [->|Hn]%elem_of_cons.
  - by rewrite Hname.
  - specialize (H2 n Hn). set_solver.
Qed.

Lemma explore_loop_spec related about remaining explored d :
  let e := explore_loop related about remaining explored d in
  discovered (rest e) = discovered d ∪ list_to_set (Listing.names (found e))
  ∧ (visited e ++ to_explore (rest e))%list
    = (to_explore d ++ Listing.names (found e))%list
  ∧ (length (visited e) ≤ remaining)%nat
  ∧ (length (visited e) = remaining ∨ to_explore (rest e) = [])
  ∧ (∀ info, info ∈ found e →
       over18 info = true ∧ subreddit_name info ≠ EmptyString
       ∧ Str.lower (subreddit_name info) = subreddit_name info)
  ∧ (about_consistent about →
     NoDup (Listing.names (found e))
     ∧ ∀ n, n ∈ Listing.names (found e) → n ∉ discovered d).
Proof.
  revert explored d.
  induction remaining as [|remaining IH]; intros explored d; simpl.
  { split; [set_solver|]. rewrite app_nil_r. split; [done|]. split; [done|].
    split; [by left|]. split; [set_solver|].
    intros _. split; [constructor|set_solver]. }
  destruct (to_explore d) as [|name queue] eqn:Hq; simpl.
  { split; [set_solver|]. rewrite Hq. split; [done|]. split; [lia|].
    split; [by right|]. split; [set_solver|].
    intros _. split; [constructor|set_solver]. }
  unfold discover_related.
  set (d0 := {| discovered := discovered d; to_explore := queue |}).
  assert (let '(items, d1) :=
            match related explored name with
            | Some rel => related_loop about explored rel d0
            | None => ([], d0)
            end in
          discovered d1 = discovered d ∪ list_to_set (Listing.names items)
          ∧ to_explore d1 = (queue ++ Listing.names items)%list
          ∧ (∀ info, info ∈ items →
               over18 info = true ∧ subreddit_name info ≠ EmptyString
               ∧ Str.lower (subreddit_name info) = subreddit_name info)
          ∧ (about_consistent about →
             NoDup (Listing.names items)
             ∧ ∀ n, n ∈ Listing.names items → n ∉ discovered d)) as Hone.
  { destruct (related explored name) as [rel|].
    - pose proof (related_loop_adds about explored rel d0) as Ha.
      pose proof (related_loop_fresh about explored rel d0) as Hf.
      destruct (related_loop about explored rel d0) as [items d1].
      destruct Ha as (H1 & H2 & H3). split; [done|]. split; [done|].
      split; [done|]. intros Hab. apply (Hf Hab).
    - simpl. split; [set_solver|]. rewrite app_nil_r. split; [done|].
      split; [set_solver|]. intros _. split; [constructor|set_solver]. }
  destruct (match related explored name with
            | Some rel => related_loop about explored rel d0
            | None => ([], d0)
            end) as [items d1].
  destruct Hone as (H1 & H2 & H3 & H4).
  specialize (IH (S explored) d1). simpl in IH.
  destruct IH as (G1 & G2 & G3 & G4 & G5 & G6). simpl.
  unfold Listing.names in *. rewrite fmap_app.
  split; [rewrite G1, H1; set_solver|].
  split; [rewrite G2, H2, <- app_assoc; done|].
  split; [lia|].
  split; [destruct G4 as [G4|G4]; [left; lia|by right]|].
  split.
  { intros info [Hi|Hi]%elem_of_app; [by apply H3|by apply G5]. }
  intros Hab. destruct (H4 Hab) as [H5 H6]. destruct (G6 Hab) as [G7 G8].
  split.
  - apply NoDup_app. split; [done|]. split; [|done].
    intros n Hn Hn2. apply (G8 n Hn2). rewrite H1. set_solver.
  - intros n [Hn|Hn]%elem_of_app; [by apply H6|].
    specialize (G8 n Hn). rewrite H1 in G8. set_solver.
Qed.

(** X19.  [explore_related_queue] takes names from the front of the queue,
    at most [max_subreddits] of them, and stops early only when the queue
    is empty; every name it yields is added to [discovered] and appended to
    the queue, so that the names visited followed by the queue left are the
    old queue followed by the names found.  When the about page of a
    subreddit carries the name it was asked under, no name is yielded twice
    and none that was discovered before. *)
Theorem explore_related_queue_spec related about (max_subreddits : Z) d :
  let e := explore_related_queue related about max_subreddits d in
  discovered (rest e) = discovered d ∪ list_to_set (Listing.names (found e))
  ∧ (visited e ++ to_explore (rest e))%list
    = (to_explore d ++ Listing.names (found e))%list
  ∧ (Z.of_nat (length (visited e)) ≤ Z.max 0 max_subreddits)%Z
  ∧ (Z.of_nat (length (visited e)) = Z.max 0 max_subreddits
     ∨ to_explore (rest e) = [])
  ∧ (about_consistent about →
     NoDup (Listing.names (found e))
     ∧ ∀ n, n ∈ Listing.names (found e) → n ∉ discovered d).
Proof.
  intros e.
  destruct (explore_loop_spec related about (Z.to_nat max_subreddits) 0 d)
    as (H1 & H2 & H3 & H4 & _ & H6).
  fold (explore_related_queue related about max_subreddits d) in *.
  fold e in H1, H2, H3, H4, H6.
  split; [done|]. split; [done|]. split; [lia|].
  split; [destruct H4 as [H4|H4]; [left; lia|by right]|done].
Qed.

End RelatedFacts.

(** ** Gathering the commenters of a subreddit *)

Module GatherFacts.
Import Commenters CommenterTools Gather.

Lemma dict_set_keys key p d :
  (dict_set key p d).*1
  = if bool_decide (key ∈ d.*1) then d.*1 else (d.*1 ++ [key])%list.
Proof.
  induction d as [|[k v] d IH]; [done|]. cbn [dict_set].
  destruct (decide (k = key)) as [->|Hk].
  - rewrite bool_decide_eq_true_2 by done. rewrite !fmap_cons. simpl.
    by rewrite bool_decide_eq_true_2 by set_solver.
  - rewrite bool_decide_eq_false_2 by done. rewrite !fmap_cons, IH. simpl.
    destruct (decide (key ∈ d.*1)) as [Hin|Hin].
    + by rewrite !bool_decide_eq_true_2 by set_solver.
    + rewrite (bool_decide_eq_false_2 (key ∈ d.*1)) by done.
      rewrite bool_decide_eq_false_2; [done|].
      intros [?|?]%elem_of_cons; congruence.
Qed.

Lemma dict_set_items key p d k v :
  (k, v) ∈ dict_set key p d → (k = key ∧ v = p) ∨ (k, v) ∈ d.
Proof.
  induction d as [|[k0 v0] d IH]; cbn [dict_set].
  - intros [= -> ->]%list_elem_of_singleton. by left.
  - destruct (decide (k0 = key)) as [->|Hk].
    + rewrite bool_decide_eq_true_2 by done.
      intros [[= -> ->]|Hin]%elem_of_cons; [by left|]. right. set_solver.
    + rewrite bool_decide_eq_false_2 by done.
      intros [[= -> ->]|Hin]%elem_of_cons; [right; set_solver|].
      destruct (IH Hin) as [?|?]; [by left|right; set_solver].
Qed.

Lemma by_permalink_spec posts d d' :
  filed d → by_permalink posts d = Ok d' →
  filed d'
  ∧ (∀ k, k ∈ d'.*1 ↔ k ∈ d.*1 ∨ Some k ∈ permalinks posts)
  ∧ (∀ k v, (k, v) ∈ d' → (k, v) ∈ d ∨ v ∈ posts)
  ∧ (length d' ≤ length d + length posts)%nat
  ∧ (NoDup (d.*1 ++ omap id (permalinks posts))%list →
     d'.*2 = (d.*2 ++ posts)%list).
Proof.
  revert d. induction posts as [|p posts IH]; intros d Hd; cbn [by_permalink].
  - intros [= <-]. split; [done|]. split; [set_solver|]. split; [by left|].
    split; [simpl; lia|]. intros _. by rewrite app_nil_r.
  - destruct (permalink p) as [key|] eqn:Hp; [|done]. intros Hrec.
    assert (filed (dict_set key p d)) as Hd1.
    { destruct Hd as [Hnd Hf]. split.
      - rewrite dict_set_keys. case_bool_decide as Hin; [done|].
        apply NoDup_app. split; [done|]. split; [set_solver|].
        apply NoDup_singleton.
      - intros k v [[-> ->]|Hin]%dict_set_items; [done|by apply Hf]. }
    destruct (IH _ Hd1 Hrec) as (Hf' & Hkeys & Hvals & Hlen & Hsame).
    split; [done|]. split; [|split; [|split]].
    + intros k. rewrite Hkeys, dict_set_keys. unfold permalinks.
      rewrite fmap_cons, Hp, elem_of_cons.
      case_bool_decide as Hin.
      * split; [tauto|]. intros [?|[[= ->]|?]]; tauto.
      * rewrite elem_of_app, list_elem_of_singleton.
        split; [intros [[?| ->]|?]; tauto|].
        intros [?|[[= ->]|?]]; tauto.
    + intros k v Hin. destruct (Hvals k v Hin) as [Hin'|Hin']; [|set_solver].
      apply dict_set_items in Hin' as [[-> ->]|?]; [set_solver|by left].
    + assert (length (dict_set key p d) ≤ S (length d))%nat; [|simpl; lia].
      rewrite <- (length_fmap fst), dict_set_keys.
      case_bool_decide; rewrite ?length_app, !length_fmap; simpl; lia.
    + unfold permalinks. rewrite fmap_cons, Hp. simpl. intros Hnd.
      assert (key ∉ d.*1) as Hnew.
      { apply NoDup_app in Hnd as (_ & Hdis & _). intros Hin.
        apply (Hdis _ Hin). set_solver. }
      assert (dict_set key p d = (d ++ [(key, p)])%list) as Hset.
      { clear -Hnew. induction d as [|[k v] d IH]; simpl; [done|].
        rewrite bool_decide_eq_false_2 by set_solver.
        f_equal. apply IH. set_solver. }
      rewrite Hsame.
      * rewrite Hset, fmap_app, <- app_assoc. done.
      * rewrite Hset, fmap_app, <- app_assoc. simpl.
        by rewrite <- Permutation_middle in Hnd |- *.
Qed.

(** The list made unique: one post for each permalink, taken from the
    list, in the order in which the permalinks first occur. *)
Lemma unique_posts_spec posts posts' :
  unique_posts posts = Ok posts' →
  NoDup (permalinks posts')
  ∧ (∀ p, p ∈ posts' → p ∈ posts)
  ∧ (∀ p, p ∈ posts → permalink p ∈ permalinks posts')
  ∧ (length posts' ≤ length posts)%nat
  ∧ (NoDup (permalinks posts) → posts' = posts).
Proof.
  unfold unique_posts.
  destruct (by_permalink posts []) as [d|e] eqn:Hd; [|done]. intros [= <-].
  destruct (by_permalink_spec posts [] d) as ((Hnd & Hf) & Hkeys & Hvals & Hlen & Hsame);
    [split; [constructor|set_solver]|done|].
  assert (permalinks d.*2 = Some <$> d.*1) as Hpl.
  { unfold permalinks. rewrite <- !list_fmap_compose.
    apply list_fmap_ext. intros i [k v] Hi. simpl.
    apply Hf. by eapply list_elem_of_lookup_2. }
  assert (∀ p, p ∈ posts → is_Some (permalink p)) as Hsome.
  { clear -Hd. revert Hd. generalize (@nil (option string * post)).
    induction posts as [|p posts IH]; intros d0 Hd q Hq; [set_solver|].
    simpl in Hd. destruct (permalink p) as [key|] eqn:Hp; [|done].
    apply elem_of_cons in Hq as [->|Hq]; [by rewrite Hp|].
    by apply (IH _ Hd). }
  split; [rewrite Hpl; by apply (NoDup_fmap_2 Some)|].
  split.
  { intros p (kv & -> & Hin)%list_elem_of_fmap. destruct kv as [k v].
    destruct (Hvals k v Hin) as [?|?]; [set_solver|done]. }
  split.
  { intros p Hp. destruct (Hsome p Hp) as [k Hk].
    rewrite Hk, Hpl. apply list_elem_of_fmap. exists k. split; [done|].
    apply Hkeys. right. rewrite <- Hk. unfold permalinks.
    apply list_elem_of_fmap. by exists p. }
  split; [rewrite length_fmap; simpl in Hlen; lia|].
  intros Hnd0. apply Hsame. simpl.
  assert (permalinks posts = Some <$> omap id (permalinks posts)) as Heq.
  { clear -Hsome. induction posts as [|p posts IH]; [done|].
    unfold permalinks in *. rewrite fmap_cons.
    destruct (Hsome p) as [k Hk]; [set_solver|]. rewrite Hk. simpl.
    f_equal. apply IH. intros q Hq. apply Hsome. set_solver. }
  rewrite Heq in Hnd0. by apply NoDup_fmap_1 in Hnd0.
Qed.


Lemma fetch_with_retry_bound (fetch : miner → fetch_outcome (list post)) cb m
      (max_retries : nat) posts m' :
  fetch_with_retry post fetch cb m (Z.of_nat max_retries) = Ok (posts, m') →
  (m ≤ m' ≤ m + (max_retries - 1))%nat.
Proof.
  intros E. unfold fetch_with_retry in E. rewrite Nat2Z.id in E.
  pose proof (RecoveryFacts.fetch_loop_bound fetch cb (Z.of_nat max_retries)
                max_retries 0 m eq_refl) as H.
  by rewrite E in H.
Qed.

Lemma fallback_spec fetch cb limit category posts m posts' m' :
  fallback fetch cb limit category posts m = Ok (posts', m') →
  (m ≤ m' ≤ m + 2)%nat
  ∧ NoDup (permalinks posts')
  ∧ (∀ p, p ∈ posts → permalink p ∈ permalinks posts').
Proof.
  unfold fallback.
  destruct (fetch_with_retry _ _ _ _ _) as [[more m1]|e] eqn:Hfetch; [|done].
  destruct (unique_posts (posts ++ more)) as [ps|e] eqn:Hu; [|done].
  intros [= <- <-].
  apply (fetch_with_retry_bound _ _ _ 3) in Hfetch.
  destruct (unique_posts_spec _ _ Hu) as (Hnd & _ & Hall & _).
  split; [lia|]. split; [done|]. intros p Hp. apply Hall. set_solver.
Qed.

(** The posts to scrape, and how often the miner was replaced for them. *)
Lemma collect_posts_facts fetch cb m limit category time_filter posts m' :
  collect_posts fetch cb m limit category time_filter = Ok (posts, m') →
  (m ≤ m' ≤ m + 8)%nat
  ∧ ∃ first m1,
      fetch_with_retry post (fetch limit category time_filter) cb m 5
      = Ok (first, m1)
      ∧ (∀ p, p ∈ first → permalink p ∈ permalinks posts)
      ∧ (falls_back (length first) limit category → NoDup (permalinks posts))
      ∧ (¬ falls_back (length first) limit category → posts = first ∧ m' = m1).
Proof.
  unfold collect_posts, falls_back.
  destruct (fetch_with_retry _ _ _ _ _) as [[first m1]|e] eqn:Hfetch; [|done].
  pose proof (fetch_with_retry_bound _ _ _ 5 _ _ Hfetch) as Hm1.
  destruct (bool_decide (2 * Z.of_nat (length first) < limit)%Z
            && bool_decide (category = "top")) eqn:Hhot.
  - apply andb_true_iff in Hhot as [H1%bool_decide_eq_true H2%bool_decide_eq_true].
    destruct (fallback fetch cb limit "hot" first m1) as [[ps m2]|e] eqn:Hfb; [|done].
    destruct (fallback_spec _ _ _ _ _ _ _ _ Hfb) as (Hm2 & Hnd & Hall).
    destruct (bool_decide (4 * Z.of_nat (length ps) < 3 * limit)%Z) eqn:Hnew.
    + intros Hfb2.
      destruct (fallback_spec _ _ _ _ _ _ _ _ Hfb2) as (Hm3 & Hnd3 & Hall3).
      split; [lia|]. exists first, m1. split; [done|]. split.
      { intros p Hp. specialize (Hall p Hp).
        apply list_elem_of_fmap in Hall as (q & Hq & Hin).
        rewrite Hq. by apply Hall3. }
      split; [done|]. intros Hno. exfalso. apply Hno. by left.
    + intros [= <- <-]. split; [lia|]. exists first, m1. split; [done|].
      split; [done|]. split; [done|]. intros Hno. exfalso. apply Hno. by left.
  - assert (¬ (2 * Z.of_nat (length first) < limit ∧ category = "top")%Z) as Hno1.
    { intros [H1 H2]. apply andb_false_iff in Hhot as [H|H];
        apply bool_decide_eq_false in H; done. }
    destruct (bool_decide (4 * Z.of_nat (length first) < 3 * limit)%Z) eqn:Hnew.
    + intros Hfb2. apply bool_decide_eq_true in Hnew.
      destruct (fallback_spec _ _ _ _ _ _ _ _ Hfb2) as (Hm3 & Hnd3 & Hall3).
      split; [lia|]. exists first, m1. split; [done|]. split; [done|].
      split; [done|]. intros Hno. exfalso. apply Hno. by right.
    + intros [= <- <-]. apply bool_decide_eq_false in Hnew.
      split; [lia|]. exists first, m1. split; [done|].
      split; [by intros p Hp; apply list_elem_of_fmap; exists p|].
      split; [intros [?|?]; done|done].
Qed.

(** X20.  The posts to scrape.  When [collect_posts] returns, the miner was
    replaced at most 8 times.  If no fallback fetch ran, the posts are those
    of the first fetch, as they came, and a permalink that occurs twice
    among them stays twice; if one ran, no two posts have the same
    permalink, and every permalink of the first fetch is still there. *)
Theorem collect_posts_spec fetch cb m limit category time_filter posts m' :
  collect_posts fetch cb m limit category time_filter = Ok (posts, m') →
  (m ≤ m' ≤ m + 8)%nat
  ∧ ∃ first m1,
      fetch_with_retry post (fetch limit category time_filter) cb m 5
      = Ok (first, m1)
      ∧ (∀ p, p ∈ first → permalink p ∈ permalinks posts)
      ∧ (falls_back (length first) limit category → NoDup (permalinks posts))
      ∧ (¬ falls_back (length first) limit category → posts = first ∧ m' = m1).
Proof. apply collect_posts_facts. Qed.




End GatherFacts.

(** ** The run of the integrated pipeline *)

Module PipelineRunFacts.
Import Pipeline PipelineSpec PipelineBatch PipelineRun DedupFacts ExportFacts.

Lemma bind_r_ok {A B} (m : R A) (k : A → R B) r a r' :
  m r = (Ok a, r') → bind_r m k r = k a r'.
Proof. unfold bind_r. by intros ->. Qed.

Lemma lift_ok {A} (m : M A) r a w' :
  m (world r) = (Ok a, w') →
  lift m r
  = (Ok a, {| world := w';
              batch_buffer := if aliased r then current_batch w' else batch_buffer r;
              aliased := aliased r; batches := batches r |}).
Proof. unfold lift. by intros ->. Qed.

(** One subreddit that is new to the store, taken into the buffer. *)
Lemma on_subreddit_new io chunk_size ssh batch_size gather name r :
  io_ok io → chunk_size ≠ 0%Z →
  (aliased r = true → current_batch (world r) = batch_buffer r) →
  NoDup (Str.lower <$> (batch_buffer r ++ [name])%list) →
  (∀ s, s ∈ (batch_buffer r ++ [name])%list →
        Str.lower s ∉ processed_subreddits (dedup (world r))) →
  Str.lower name ∉ queued_subreddits (dedup (world r)) →
  ∃ r', on_subreddit io chunk_size ssh batch_size gather name r = (Ok tt, r')
    ∧ (aliased r' = true → current_batch (world r') = batch_buffer r')
    ∧ if bool_decide (batch_size ≤ Z.of_nat (length (batch_buffer r ++ [name])%list))%Z
      then batch_buffer r' = []
           ∧ processed_subreddits (dedup (world r'))
             = processed_subreddits (dedup (world r))
               ∪ list_to_set (Str.lower <$> alternate true (batch_buffer r ++ [name])%list)
           ∧ queued_subreddits (dedup (world r'))
             = list_to_set (Str.lower <$> alternate false (batch_buffer r ++ [name])%list)
      else batch_buffer r' = (batch_buffer r ++ [name])%list
           ∧ processed_subreddits (dedup (world r'))
             = processed_subreddits (dedup (world r))
           ∧ queued_subreddits (dedup (world r'))
             = queued_subreddits (dedup (world r)) ∪ {[Str.lower name]}.
Proof.
  intros Hio Hsize Hsync Hnd Hnew Hq.
  assert (name ∉ batch_buffer r) as Hname.
  { rewrite fmap_app in Hnd. apply NoDup_app in Hnd as (_ & Hdis & _).
    intros Hin. apply (Hdis (Str.lower name)); [|set_solver].
    apply list_elem_of_fmap. eauto. }
  unfold on_subreddit. unfold bind_r at 1, get_r.
  unfold is_subreddit_processed.
  rewrite bool_decide_eq_false_2 by (apply Hnew; set_solver).
  (* add_discovered *)
  destruct (StoreFacts.mark_subreddit_discovered_spec io name (world r))
    as (w1 & E1 & _ & Hp1 & Hq1 & _ & _ & Hb1 & _).
  rewrite (bind_r_ok _ _ _ _ _ (lift_ok _ _ _ _ E1)).
  set (r1 := {| world := w1;
                batch_buffer := if aliased r then current_batch w1 else batch_buffer r;
                aliased := aliased r; batches := batches r |}).
  assert (batch_buffer r1 = batch_buffer r) as Hbuf1.
  { unfold r1. simpl. destruct (aliased r) eqn:Ha; [|done].
    rewrite Hb1. by apply Hsync. }
  unfold bind_r at 1, get_r.
  unfold should_add_to_batch, is_subreddit_processed, is_subreddit_queued.
  change (dedup (world r1)) with (dedup w1). rewrite Hp1, Hq1, Hbuf1.
  rewrite (bool_decide_eq_false_2 (_ ∈ processed_subreddits _))
    by (apply Hnew; set_solver).
  rewrite (bool_decide_eq_false_2 (_ ∈ queued_subreddits _)) by done.
  rewrite (bool_decide_eq_true_2 (name ∉ _)) by done.
  cbn [negb andb].
  (* append, mark queued *)
  set (buffer := (batch_buffer r ++ [name])%list) in *.
  assert (∃ r3, (exec append name; lift (mark_subreddit_queued name))%run r1
                = (Ok tt, r3)
                ∧ batch_buffer r3 = buffer
                ∧ (aliased r3 = true → current_batch (world r3) = buffer)
                ∧ aliased r3 = aliased r ∧ batches r3 = batches r
                ∧ processed_subreddits (dedup (world r3))
                  = processed_subreddits (dedup (world r))
                ∧ queued_subreddits (dedup (world r3))
                  = queued_subreddits (dedup (world r)) ∪ {[Str.lower name]})
    as (r3 & E3 & Hbuf3 & Hsync3 & Hal3 & Hn3 & Hp3 & Hq3).
  { unfold bind_r at 1, append, set_buffer. rewrite Hbuf1. fold buffer.
    unfold lift, mark_subreddit_queued, bind, get, set_dedup. simpl.
    eexists. split; [reflexivity|]. simpl.
    destruct (aliased r); simpl; rewrite ?Hp1, ?Hq1; by auto 10. }
  rewrite (bind_r_ok _ _ _ _ _ E3).
  unfold bind_r at 1, get_r. rewrite Hbuf3.
  destruct (bool_decide (batch_size ≤ Z.of_nat (length buffer))%Z) eqn:Hfull.
  2:{ exists r3. split; [done|]. split; [by rewrite Hbuf3|]. by auto. }
  (* the batch *)
  unfold process_buffer.
  unfold bind_r at 1. unfold bind_r at 1. unfold bind_r at 1, get_r.
  cbn [batch_buffer batches world].
  rewrite Hbuf3, Hn3.
  destruct (BatchFacts.process_subreddit_batch_alternate io chunk_size ssh
              (gather (S (batches r))) buffer (world r3) Hio Hsize Hnd)
    as (w5 & E5 & _ & Hp5 & Hb5 & Hq5).
  { intros s Hs. rewrite Hp3. by apply Hnew. }
  rewrite (lift_ok _ {| world := world r3; batch_buffer := buffer;
                        aliased := true; batches := S (batches r) |} _ _ E5).
  cbn [aliased world batch_buffer batches].
  unfold bind_r at 1, clear, set_buffer. cbn [aliased world batch_buffer batches].
  destruct (BatchFacts.PipelineState_save_ok io
              {| dedup := dedup w5; exporter := exporter w5;
                 current_batch := []; disk := disk w5 |} Hio)
    as (w6 & E6 & (_ & Hp6 & Hq6 & _) & _ & Hb6 & _).
  rewrite (lift_ok _ {| world := {| dedup := dedup w5; exporter := exporter w5;
                                    current_batch := []; disk := disk w5 |};
                        batch_buffer := []; aliased := true;
                        batches := S (batches r) |} _ _ E6).
  eexists. split; [reflexivity|]. cbn [aliased world batch_buffer batches].
  rewrite Hb6, Hp6, Hq6. simpl. rewrite Hp5, Hq5, Hp3. by auto.
Qed.


Lemma alternate_subseteq b (xs : list string) x : x ∈ alternate b xs → x ∈ xs.
Proof.
  intros Hx. rewrite (BatchFacts.alternate_perm b xs). set_solver.
Qed.

Lemma fill_cons size name rest buffer :
  fill size (name :: rest) buffer
  = if bool_decide (size ≤ length (buffer ++ [name])%list)%nat
    then ((buffer ++ [name])%list :: (fill size rest []).1, (fill size rest []).2)
    else fill size rest (buffer ++ [name])%list.
Proof. simpl. case_bool_decide; [|done]. by destruct (fill size rest []). Qed.

(** The names of the batches and of the buffer are the names that came
    in, in order. *)
Lemma fill_concat size names buffer :
  (concat (fill size names buffer).1 ++ (fill size names buffer).2)%list
  = (buffer ++ names)%list.
Proof.
  revert buffer. induction names as [|x names IH]; intros buffer.
  - simpl. by rewrite app_nil_r.
  - rewrite fill_cons. case_bool_decide; simpl.
    + rewrite <- app_assoc, IH. simpl. by rewrite <- app_assoc.
    + rewrite IH. by rewrite <- app_assoc.
Qed.

(** A list of new names, taken in one after the other. *)
Lemma on_subreddits_new io chunk_size ssh batch_size gather names :
  io_ok io → chunk_size ≠ 0%Z →
  ∀ r,
    (aliased r = true → current_batch (world r) = batch_buffer r) →
    NoDup (Str.lower <$> (batch_buffer r ++ names)%list) →
    (∀ s, s ∈ (batch_buffer r ++ names)%list →
          Str.lower s ∉ processed_subreddits (dedup (world r))) →
    (∀ s, s ∈ names → Str.lower s ∉ queued_subreddits (dedup (world r))) →
    ∃ r', on_subreddits io chunk_size ssh batch_size gather names r = (Ok tt, r')
      ∧ (aliased r' = true → current_batch (world r') = batch_buffer r')
      ∧ batch_buffer r' = (fill (Z.to_nat batch_size) names (batch_buffer r)).2
      ∧ processed_subreddits (dedup (world r'))
        = processed_subreddits (dedup (world r))
          ∪ list_to_set
              (processed_of (fill (Z.to_nat batch_size) names (batch_buffer r)).1)
      ∧ (∀ x, x ∈ queued_subreddits (dedup (world r')) →
              x ∈ queued_subreddits (dedup (world r))
              ∨ x ∈ Str.lower <$> (batch_buffer r ++ names)%list).
Proof.
  intros Hio Hsize. induction names as [|name names IH];
    intros r Hsync Hnd Hnew Hq.
  { exists r. split; [done|]. split; [done|]. split; [done|].
    split; [unfold processed_of; simpl; set_solver|by left]. }
  cbn [on_subreddits]. rewrite fill_cons.
  assert (NoDup (Str.lower <$> (batch_buffer r ++ [name])%list)
          ∧ NoDup (Str.lower <$> names)
          ∧ ∀ s, s ∈ names →
                 Str.lower s ∉ Str.lower <$> (batch_buffer r ++ [name])%list)
    as (Hnd1 & Hnd2 & Hdis).
  { replace (batch_buffer r ++ name :: names)%list
      with ((batch_buffer r ++ [name]) ++ names)%list in Hnd
      by (by rewrite <- app_assoc).
    rewrite fmap_app in Hnd. apply NoDup_app in Hnd as (H1 & H2 & H3).
    split; [done|]. split; [done|].
    intros s Hs Hin. apply (H2 _ Hin). apply list_elem_of_fmap. eauto. }
  destruct (on_subreddit_new io chunk_size ssh batch_size gather name r
              Hio Hsize Hsync Hnd1) as (r1 & E1 & Hsync1 & Hcase).
  { intros s Hs. apply Hnew. set_solver. }
  { apply Hq. set_solver. }
  rewrite (bind_r_ok _ _ _ _ _ E1).
  assert (bool_decide (batch_size ≤ Z.of_nat (length (batch_buffer r ++ [name])%list))%Z
          = bool_decide (Z.to_nat batch_size ≤ length (batch_buffer r ++ [name])%list)%nat)
    as Hsame.
  { apply bool_decide_ext. lia. }
  rewrite Hsame in Hcase.
  destruct (bool_decide (Z.to_nat batch_size
                         ≤ length (batch_buffer r ++ [name])%list)%nat).
  - destruct Hcase as (Hbuf1 & Hp1 & Hq1).
    destruct (IH r1 Hsync1) as (r' & E & Hsync' & Hbuf' & Hp' & Hq').
    + by rewrite Hbuf1.
    + rewrite Hbuf1. simpl. intros s Hs. rewrite Hp1.
      apply not_elem_of_union. split; [apply Hnew; set_solver|].
      rewrite elem_of_list_to_set.
      intros (t & Ht & Hin%alternate_subseteq)%list_elem_of_fmap.
      apply (Hdis s Hs). rewrite Ht. apply list_elem_of_fmap. eauto.
    + intros s Hs. rewrite Hq1, elem_of_list_to_set.
      intros (t & Ht & Hin%alternate_subseteq)%list_elem_of_fmap.
      apply (Hdis s Hs). rewrite Ht. apply list_elem_of_fmap. eauto.
    + exists r'. split; [done|]. split; [done|]. rewrite Hbuf1 in *.
      split; [done|]. split.
      * rewrite Hp', Hp1. unfold processed_of. simpl.
        by rewrite fmap_app, list_to_set_app_L, (assoc_L (∪)).
      * intros x Hx. right. destruct (Hq' x Hx) as [Hx'|Hx'].
        -- rewrite Hq1, elem_of_list_to_set in Hx'.
           apply list_elem_of_fmap in Hx' as (t & -> & Hin%alternate_subseteq).
           apply list_elem_of_fmap. exists t. split; [done|]. set_solver.
        -- simpl in Hx'. apply list_elem_of_fmap in Hx' as (t & -> & Hin).
           apply list_elem_of_fmap. exists t. split; [done|]. set_solver.
  - destruct Hcase as (Hbuf1 & Hp1 & Hq1).
    destruct (IH r1 Hsync1) as (r' & E & Hsync' & Hbuf' & Hp' & Hq').
    + by rewrite Hbuf1, <- app_assoc.
    + rewrite Hbuf1, Hp1, <- app_assoc. exact Hnew.
    + intros s Hs. rewrite Hq1. apply not_elem_of_union.
      split; [apply Hq; set_solver|].
      intros Heq%elem_of_singleton. apply (Hdis s Hs). rewrite Heq.
      apply list_elem_of_fmap. exists name. split; [done|]. set_solver.
    + exists r'. split; [done|]. split; [done|]. rewrite Hbuf1 in *.
      split; [done|]. split; [by rewrite Hp', Hp1|].
      intros x Hx. destruct (Hq' x Hx) as [Hx'|Hx'].
      * rewrite Hq1 in Hx'. apply elem_of_union in Hx' as [?|Heq%elem_of_singleton];
          [by left|]. rewrite Heq.
        right. apply list_elem_of_fmap. exists name. split; [done|]. set_solver.
      * right. by rewrite <- app_assoc in Hx'.
Qed.


Lemma elem_of_concat (x : string) (ls : list (list string)) :
  x ∈ concat ls ↔ ∃ l, x ∈ l ∧ l ∈ ls.
Proof.
  induction ls as [|l ls IH]; simpl.
  - split; [by intros ?%not_elem_of_nil|]. intros (l & _ & ?%not_elem_of_nil). done.
  - rewrite elem_of_app, IH. split.
    + intros [?|(l' & ? & ?)]; [exists l|exists l']; set_solver.
    + intros (l' & ? & [->|?]%elem_of_cons); [by left|right; eauto].
Qed.

Lemma fill_app size names1 names2 buffer :
  fill size (names1 ++ names2) buffer
  = (((fill size names1 buffer).1
      ++ (fill size names2 (fill size names1 buffer).2).1)%list,
     (fill size names2 (fill size names1 buffer).2).2).
Proof.
  revert buffer. induction names1 as [|x names1 IH]; intros buffer.
  - simpl. by destruct (fill size names2 buffer).
  - rewrite <- app_comm_cons, !fill_cons. case_bool_decide; simpl.
    + by rewrite IH.
    + by rewrite IH.
Qed.

(** The searches of a list of keywords, when every name they yield is new. *)
Lemma on_keywords_new io chunk_size ssh batch_size gather search keywords :
  io_ok io → chunk_size ≠ 0%Z →
  ∀ r,
    (aliased r = true → current_batch (world r) = batch_buffer r) →
    NoDup (Str.lower <$> (batch_buffer r ++ all_yielded search keywords)%list) →
    (∀ s, s ∈ (batch_buffer r ++ all_yielded search keywords)%list →
          Str.lower s ∉ processed_subreddits (dedup (world r))) →
    (∀ s, s ∈ all_yielded search keywords →
          Str.lower s ∉ queued_subreddits (dedup (world r))) →
    ∃ r', on_keywords io chunk_size ssh batch_size gather search keywords r
          = (Ok tt, r')
      ∧ (aliased r' = true → current_batch (world r') = batch_buffer r')
      ∧ batch_buffer r'
        = (fill (Z.to_nat batch_size) (all_yielded search keywords)
                (batch_buffer r)).2
      ∧ processed_subreddits (dedup (world r'))
        = processed_subreddits (dedup (world r))
          ∪ list_to_set
              (processed_of (fill (Z.to_nat batch_size)
                                  (all_yielded search keywords)
                                  (batch_buffer r)).1).
Proof.
  intros Hio Hsize. induction keywords as [|keyword keywords IH];
    intros r Hsync Hnd Hnew Hq.
  { exists r. split; [done|]. split; [done|]. split; [done|].
    unfold processed_of. simpl. set_solver. }
  unfold all_yielded in *. rewrite fmap_cons in *. cbn [concat] in *.
  fold (all_yielded search keywords) in *.
  set (names1 := (search keyword).1) in *.
  set (names2 := all_yielded search keywords) in *.
  assert (NoDup (Str.lower <$> (batch_buffer r ++ names1)%list)
          ∧ ∀ s, s ∈ names2 →
                 Str.lower s ∉ Str.lower <$> (batch_buffer r ++ names1)%list)
    as (Hnd1 & Hdis).
  { rewrite app_assoc, fmap_app in Hnd. apply NoDup_app in Hnd as (H1 & H2 & _).
    split; [done|]. intros s Hs Hin. apply (H2 _ Hin).
    apply list_elem_of_fmap. eauto. }
  destruct (on_subreddits_new io chunk_size ssh batch_size gather names1
              Hio Hsize r Hsync Hnd1)
    as (r1 & E1 & Hsync1 & Hbuf1 & Hp1 & Hq1).
  { intros s Hs. apply Hnew. set_solver. }
  { intros s Hs. apply Hq. set_solver. }
  assert (on_keyword io chunk_size ssh batch_size gather search keyword r
          = (Ok tt, r1)) as Ek.
  { unfold on_keyword, swallow_r. fold names1.
    rewrite (bind_r_ok _ _ _ _ _ E1). by destruct (search keyword).2. }
  cbn [on_keywords]. rewrite (bind_r_ok _ _ _ _ _ Ek).
  pose proof (fill_concat (Z.to_nat batch_size) names1 (batch_buffer r)) as Hcat.
  assert (∀ s, s ∈ batch_buffer r1 → s ∈ (batch_buffer r ++ names1)%list) as Hsub.
  { intros s Hs. rewrite <- Hcat, <- Hbuf1. set_solver. }
  destruct (IH r1 Hsync1) as (r' & E & Hsync' & Hbuf' & Hp').
  - rewrite fmap_app. apply NoDup_app. split; [|split].
    + rewrite Hbuf1.
      assert (NoDup (Str.lower <$> (concat (fill (Z.to_nat batch_size) names1
                                                 (batch_buffer r)).1
                                    ++ (fill (Z.to_nat batch_size) names1
                                             (batch_buffer r)).2)%list))
        as Hn by (by rewrite Hcat).
      rewrite fmap_app in Hn. by apply NoDup_app in Hn as (_ & _ & ?).
    + intros x (s & -> & Hs%Hsub)%list_elem_of_fmap
             (t & Ht & Hin)%list_elem_of_fmap.
      apply (Hdis t Hin). rewrite <- Ht. apply list_elem_of_fmap. eauto.
    + rewrite app_assoc, fmap_app in Hnd. by apply NoDup_app in Hnd as (_ & _ & ?).
  - intros s [Hs|Hs]%elem_of_app.
    + rewrite Hp1. apply not_elem_of_union.
      split; [apply Hnew; rewrite app_assoc; apply elem_of_app; left; by apply Hsub|].
      rewrite elem_of_list_to_set. unfold processed_of.
      intros (t & Ht & Hin)%list_elem_of_fmap.
      apply elem_of_concat in Hin as (b & Hin & Hb).
      apply list_elem_of_fmap in Hb as (b0 & -> & Hb0).
      apply alternate_subseteq in Hin.
      assert (NoDup (Str.lower <$> (concat (fill (Z.to_nat batch_size) names1
                                                 (batch_buffer r)).1
                                    ++ (fill (Z.to_nat batch_size) names1
                                             (batch_buffer r)).2)%list))
        as Hn by (by rewrite Hcat).
      rewrite fmap_app in Hn. apply NoDup_app in Hn as (_ & Hd & _).
      apply (Hd (Str.lower s)).
      * rewrite Ht. apply list_elem_of_fmap. exists t. split; [done|].
        apply elem_of_concat. eauto.
      * rewrite <- Hbuf1. apply list_elem_of_fmap. eauto.
    + rewrite Hp1. apply not_elem_of_union.
      split; [apply Hnew; rewrite !elem_of_app; by right; right|].
      rewrite elem_of_list_to_set. unfold processed_of.
      intros (t & Ht & Hin)%list_elem_of_fmap.
      apply elem_of_concat in Hin as (b & Hin & Hb).
      apply list_elem_of_fmap in Hb as (b0 & -> & Hb0).
      apply alternate_subseteq in Hin.
      apply (Hdis s Hs). rewrite Ht. apply list_elem_of_fmap. exists t.
      split; [done|]. rewrite <- Hcat. apply elem_of_app. left.
      apply elem_of_concat. eauto.
  - intros s Hs Hin. destruct (Hq1 _ Hin) as [Hin'|Hin'].
    + revert Hin'. apply Hq. apply elem_of_app. by right.
    + by apply (Hdis s Hs).
  - exists r'. split; [done|]. split; [done|].
    rewrite fill_app. cbn [fst snd]. rewrite <- Hbuf1.
    split; [done|]. rewrite Hp', Hp1. unfold processed_of.
    by rewrite fmap_app, concat_app, fmap_app, list_to_set_app_L, (assoc_L (∪)).
Qed.


(** [process_buffer] on a buffer of new names. *)
Lemma process_buffer_new io chunk_size ssh gather r :
  io_ok io → chunk_size ≠ 0%Z →
  NoDup (Str.lower <$> batch_buffer r) →
  (∀ s, s ∈ batch_buffer r →
        Str.lower s ∉ processed_subreddits (dedup (world r))) →
  ∃ r', process_buffer io chunk_size ssh gather r = (Ok tt, r')
    ∧ batch_buffer r' = alternate false (batch_buffer r)
    ∧ processed_subreddits (dedup (world r'))
      = processed_subreddits (dedup (world r))
        ∪ list_to_set (Str.lower <$> alternate true (batch_buffer r))
    ∧ current_batch (world r') = batch_buffer r'.
Proof.
  intros Hio Hsize Hnd Hnew. unfold process_buffer.
  unfold bind_r at 1. unfold bind_r at 1, get_r.
  cbn [batch_buffer batches world].
  destruct (BatchFacts.process_subreddit_batch_alternate io chunk_size ssh
              (gather (S (batches r))) (batch_buffer r) (world r) Hio Hsize Hnd Hnew)
    as (w5 & E5 & _ & Hp5 & Hb5 & _).
  rewrite (lift_ok _ {| world := world r; batch_buffer := batch_buffer r;
                        aliased := true; batches := S (batches r) |} _ _ E5).
  eexists. split; [reflexivity|]. cbn [aliased world batch_buffer batches].
  by rewrite Hb5, Hp5.
Qed.

Lemma alternate_apart (bs : list (list string)) s t :
  NoDup (Str.lower <$> concat bs) →
  s ∈ concat (alternate false <$> bs) →
  t ∈ concat (alternate true <$> bs) →
  Str.lower s ≠ Str.lower t.
Proof.
  induction bs as [|b bs IH]; simpl; [by intros _ ?%not_elem_of_nil|].
  rewrite fmap_app. intros (Hb & Hdis & Hbs)%NoDup_app.
  pose proof (BatchFacts.alternate_perm true b) as Hperm. simpl in Hperm.
  intros [Hs|Hs]%elem_of_app [Ht|Ht]%elem_of_app.
  - rewrite Hperm, fmap_app in Hb. apply NoDup_app in Hb as (_ & Hd & _).
    intros Heq. apply (Hd (Str.lower t)).
    + apply list_elem_of_fmap. eauto.
    + rewrite <- Heq. apply list_elem_of_fmap. eauto.
  - intros Heq. apply (Hdis (Str.lower s)).
    + apply list_elem_of_fmap. exists s. split; [done|].
      by apply (alternate_subseteq false).
    + rewrite Heq. apply list_elem_of_fmap. exists t. split; [done|].
      apply elem_of_concat in Ht as (l & Hl & (b0 & -> & Hb0)%list_elem_of_fmap).
      apply elem_of_concat. exists b0. split; [|done].
      by apply (alternate_subseteq true).
  - intros Heq. apply (Hdis (Str.lower t)).
    + apply list_elem_of_fmap. exists t. split; [done|].
      by apply (alternate_subseteq true).
    + rewrite <- Heq. apply list_elem_of_fmap. exists s. split; [done|].
      apply elem_of_concat in Hs as (l & Hl & (b0 & -> & Hb0)%list_elem_of_fmap).
      apply elem_of_concat. exists b0. split; [|done].
      by apply (alternate_subseteq false).
  - by apply IH.
Qed.

(** X22.  A run processes every other subreddit it discovers.  On an empty
    output directory, with succeeding writes and a non-zero chunk size, when
    the names the searches yield are distinct without regard to case, [run]
    returns; the names are handed over in batches of [SUBREDDITS_BATCH_SIZE]
    names, in the order in which they were yielded, and of every batch
    exactly the names at the positions 1, 3, 5, ... are processed: the
    others are not processed by the run.  No user is pending at the end. *)
Theorem run_processes_every_other io chunk_size ssh batch_size gather search :
  io_ok io → chunk_size ≠ 0%Z →
  NoDup (Str.lower <$> all_yielded search Main.NSFW_SEARCH_KEYWORDS) →
  ∃ r' handed,
    run io chunk_size ssh batch_size gather search just_started = (Ok tt, r')
    ∧ handed
      = ((fill (Z.to_nat batch_size)
               (all_yielded search Main.NSFW_SEARCH_KEYWORDS) []).1
         ++ [(fill (Z.to_nat batch_size)
                   (all_yielded search Main.NSFW_SEARCH_KEYWORDS) []).2])%list
    ∧ concat handed = all_yielded search Main.NSFW_SEARCH_KEYWORDS
    ∧ processed_subreddits (dedup (world r')) = list_to_set (processed_of handed)
    ∧ (∀ s, s ∈ concat (alternate false <$> handed) →
            is_subreddit_processed s (dedup (world r')) = false)
    ∧ pending_users (exporter (world r')) = ∅.
Proof.
  intros Hio Hsize Hnd.
  set (names := all_yielded search Main.NSFW_SEARCH_KEYWORDS) in *.
  set (full := (fill (Z.to_nat batch_size) names []).1).
  set (rest := (fill (Z.to_nat batch_size) names []).2).
  assert ((concat full ++ rest)%list = names) as Hcat
    by apply (fill_concat (Z.to_nat batch_size) names []).
  assert (concat (full ++ [rest]) = names) as Hcat'.
  { rewrite concat_app. simpl. by rewrite app_nil_r. }
  unfold run.
  assert (resume io chunk_size ssh gather just_started = (Ok tt, just_started))
    as E0 by reflexivity.
  rewrite (bind_r_ok _ _ _ _ _ E0).
  assert (new_buffer just_started = (Ok tt, just_started)) as E0' by reflexivity.
  rewrite (bind_r_ok _ _ _ _ _ E0').
  destruct (on_keywords_new io chunk_size ssh batch_size gather search
              Main.NSFW_SEARCH_KEYWORDS Hio Hsize just_started)
    as (r1 & E1 & Hsync1 & Hbuf1 & Hp1); [done|done| | |].
  { intros s _. apply not_elem_of_empty. }
  { intros s _. apply not_elem_of_empty. }
  fold names in Hbuf1, Hp1. cbn [batch_buffer just_started] in Hbuf1, Hp1.
  fold full in Hp1. fold rest in Hbuf1.
  rewrite (bind_r_ok _ _ _ _ _ E1).
  unfold bind_r at 1, get_r.
  assert (processed_subreddits (dedup (world r1))
          = list_to_set (processed_of full)) as Hp1'.
  { rewrite Hp1. change (processed_subreddits (dedup (world just_started)))
      with (∅ : gset string). set_solver. }
  assert (∃ r2, (if bool_decide (batch_buffer r1 ≠ [])
                 then process_buffer io chunk_size ssh gather else ret_r tt) r1
                = (Ok tt, r2)
                ∧ processed_subreddits (dedup (world r2))
                  = list_to_set (processed_of (full ++ [rest])))
    as (r2 & E2 & Hp2).
  { assert (processed_of (full ++ [rest])
            = (processed_of full ++ (Str.lower <$> alternate true rest))%list)
      as Hof.
    { unfold processed_of. rewrite fmap_app, concat_app, fmap_app. simpl.
      by rewrite app_nil_r. }
    case_bool_decide as Hne.
    - destruct (process_buffer_new io chunk_size ssh gather r1 Hio Hsize)
        as (r2 & E2 & _ & Hp2 & _).
      + rewrite Hbuf1. rewrite <- Hcat, fmap_app in Hnd.
        by apply NoDup_app in Hnd as (_ & _ & ?).
      + intros s Hs. rewrite Hp1', elem_of_list_to_set. unfold processed_of.
        intros (t & Ht & Hin)%list_elem_of_fmap.
        apply elem_of_concat in Hin as (l & Hl & (b0 & -> & Hb0)%list_elem_of_fmap).
        rewrite <- Hcat, fmap_app in Hnd. apply NoDup_app in Hnd as (_ & Hd & _).
        apply (Hd (Str.lower s)).
        * rewrite Ht. apply list_elem_of_fmap. exists t. split; [done|].
          apply elem_of_concat. exists b0. split; [|done].
          by apply (alternate_subseteq true).
        * apply list_elem_of_fmap. exists s. split; [done|]. by rewrite <- Hbuf1.
      + exists r2. split; [done|].
        by rewrite Hp2, Hp1', Hbuf1, Hof, list_to_set_app_L.
    - exists r1. split; [done|]. rewrite Hp1', Hof.
      assert (rest = []) as -> by (by rewrite <- Hbuf1). simpl.
      by rewrite app_nil_r. }
  rewrite (bind_r_ok _ _ _ _ _ E2).
  unfold bind_r at 1, get_r.
  assert (∃ r3, (if bool_decide (pending_users (exporter (world r2)) ≠ ∅)
                 then (do files <- lift (export_chunks io chunk_size ssh true
                                                       USERS_EXPORT_THRESHOLD);
                       ret_r tt)%run
                 else ret_r tt) r2 = (Ok tt, r3)
                ∧ processed_subreddits (dedup (world r3))
                  = processed_subreddits (dedup (world r2))
                ∧ pending_users (exporter (world r3)) = ∅)
    as (r3 & E3 & Hp3 & Hpend).
  { destruct (bool_decide (pending_users (exporter (world r2)) ≠ ∅)) eqn:Hne;
      [apply bool_decide_eq_true in Hne|apply bool_decide_eq_false in Hne].
    - destruct (export_chunks_spec io chunk_size ssh true USERS_EXPORT_THRESHOLD
                  (world r2) Hio)
        as [[Hno _]|[(_ & Hz & _)|(_ & _ & w3 & E3 & (_ & Hp & _) & _ & Hpend & _)]];
        [|done|].
      + exfalso. apply Hno. split; [by left|done].
      + rewrite (bind_r_ok _ _ _ _ _ (lift_ok _ _ _ _ E3)).
        eexists. split; [reflexivity|]. by cbn [world].
    - exists r2. split; [done|]. split; [done|]. by apply dec_stable. }
  rewrite E3. exists r3, (full ++ [rest])%list.
  split; [done|]. split; [done|]. split; [done|].
  split; [by rewrite Hp3, Hp2|]. split; [|done].
  intros s Hs. apply bool_decide_eq_false.
  rewrite Hp3, Hp2, elem_of_list_to_set. unfold processed_of.
  intros (t & Ht & Hin)%list_elem_of_fmap.
  apply (alternate_apart (full ++ [rest])%list s t); [by rewrite Hcat'|done|done|done].
Qed.

End PipelineRunFacts.

(** ** A process that is stopped inside [export_chunks] *)

Module InterruptFacts.
Import Pipeline PipelineSpec PipelineShutdown PipelineInterrupts
       DedupFacts ExportFacts.

(** What a new process is built from: the four state files, not the chunk
    files. *)
Lemma start_state_files k k' :
  subreddit_file k' = subreddit_file k →
  users_file k' = users_file k →
  exporter_state_file k' = exporter_state_file k →
  pipeline_state_file k' = pipeline_state_file k →
  dedup (start k') = dedup (start k)
  ∧ exporter (start k') = exporter (start k)
  ∧ current_batch (start k') = current_batch (start k).
Proof.
  intros H1 H2 H3 H4.
  unfold start, DeduplicationManager_init, load_users, UserExporter_init.
  cbn [dedup exporter current_batch discovered_subreddits processed_subreddits
       queued_subreddits seen_users ops_since_save user_ops_since_save].
  by rewrite H1, H2, H3, H4.
Qed.

Lemma slices_take_fmap size l idxs :
  py_range (length l) size = Ok idxs →
  ∀ turns, (λ i, take (Z.to_nat size) (drop i l)) <$> take turns idxs
           = take turns (slices size l).
Proof. intros H turns. unfold slices. by rewrite H, fmap_take. Qed.

(** The call as far as the end of turn [turns], when every write
    succeeds. *)
Lemma export_chunks_until_spec io size turns force threshold w :
  io_ok io → (0 < size)%Z → exports force threshold w →
  let written :=
    take turns (slices size (Str.sorted (elements (pending_users (exporter w))))) in
  export_chunks_until io size turns force threshold w
  = (Ok tt,
     {| dedup := dedup w;
        exporter :=
          {| pending_users := pending_users (exporter w);
             chunk_count := chunk_count (exporter w) + length written;
             total_exported := total_exported (exporter w);
             total_uploaded := total_uploaded (exporter w) |};
        current_batch := current_batch w;
        disk := put_chunks (chunk_count (exporter w)) written (disk w) |}).
Proof.
  intros Hio Hsize [Hgo Hne] written.
  assert (∀ A (f : World → M A) w0, bind get f w0 = f w0 w0) as bind_get by done.
  unfold export_chunks_until. rewrite !bind_get.
  rewrite (proj2 (andb_false_iff _ _)).
  2:{ destruct Hgo as [->|Hgo]; [by left|].
      right. apply bool_decide_eq_false. lia. }
  rewrite bool_decide_eq_false_2 by done.
  set (users_list := Str.sorted (elements (pending_users (exporter w)))) in *.
  destruct (py_range_pos (length users_list) size Hsize) as (m & Hrange & _).
  rewrite Hrange. unfold bind at 1.
  destruct (export_loop_ok io size users_list
              (take turns ((λ j, j * Z.to_nat size)%nat <$> seq 0 m)) 0 [] w Hio)
    as [cf ->].
  assert (written
          = (λ i, take (Z.to_nat size) (drop i users_list))
              <$> take turns ((λ j, j * Z.to_nat size)%nat <$> seq 0 m)) as Hw.
  { symmetry. by apply slices_take_fmap. }
  rewrite <- Hw.
  replace (length (take turns ((λ j, j * Z.to_nat size)%nat <$> seq 0 m)))
    with (length written) by (by rewrite Hw, length_fmap).
  done.
Qed.

Lemma put_chunks_until_bound n chunks k :
  (∀ m, is_Some (chunk_json k !! m) → (m ≤ n)%nat) →
  ∀ m, is_Some (chunk_json (put_chunks n chunks k) !! m) →
       (m ≤ n + length chunks)%nat.
Proof. intros Hb m. by apply put_chunks_bound. Qed.

(** X23.  An export that is cut short by a kill is forgotten.  When the
    process is killed inside [export_chunks] after some turns of the chunk
    loop, every write having succeeded, the chunk files of those turns are
    on disk, but the next process is the one that would have started
    before the call: same seen users, same pending users, same counters.
    Its chunk counter stands where it stood before the call, so that its
    next export writes over the files of the cut call; and a name of those
    files whose lower-cased form is not in dedup_users.txt is not known as
    seen, although a chunk file holds it. *)
Theorem killed_export_is_forgotten io chunk_size turns force threshold w :
  io_ok io → (0 < chunk_size)%Z → exports force threshold w →
  (∀ m, is_Some (chunk_json (disk w) !! m) → (m ≤ chunk_count (exporter w))%nat) →
  chunk_count (UserExporter_init (disk w)) = chunk_count (exporter w) →
  let written :=
    take turns (slices chunk_size
                  (Str.sorted (elements (pending_users (exporter w))))) in
  let w' := killed_in_export io chunk_size turns force threshold w in
  dedup w' = dedup (start (disk w))
  ∧ exporter w' = exporter (start (disk w))
  ∧ current_batch w' = current_batch (start (disk w))
  ∧ chunk_count (exporter w') = chunk_count (exporter w)
  ∧ (∀ j chunk, written !! j = Some chunk →
       chunk_json (disk w') !! (chunk_count (exporter w) + 1 + j)%nat
       = Some (chunk_doc chunk))
  ∧ exported_json (disk w') ≡ₚ exported_json (disk w) ++ concat written
  ∧ (∀ u, u ∈ concat written → Str.lower u ∉ load_users (disk w) →
          u ∈ exported_json (disk w') ∧ is_user_seen u (dedup w') = false).
Proof.
  intros Hio Hsize Hgo Hord Hcount written w'.
  unfold w', killed_in_export.
  rewrite (export_chunks_until_spec io chunk_size turns force threshold w
             Hio Hsize Hgo).
  fold written. cbn [snd disk].
  destruct (put_chunks_other (chunk_count (exporter w)) written (disk w))
    as (H1 & H2 & H3 & H4).
  destruct (start_state_files _ _ H1 H2 H3 H4) as (Hd & He & Hb).
  pose proof (put_chunks_exported _ written _ Hord) as Hperm.
  split; [exact Hd|]. split; [exact He|]. split; [exact Hb|].
  split; [by rewrite He|]. split; [|split; [exact Hperm|]].
  - intros j chunk Hj.
    change (disk (start ?k)) with k.
    rewrite lookup_put_chunks_json.
    destruct (decide _) as [_|Hge]; [|lia].
    replace (chunk_count (exporter w) + 1 + j - S (chunk_count (exporter w)))%nat
      with j by lia.
    by rewrite Hj.
  - intros u Hu Hnew. change (disk (start ?k)) with k. split.
    + rewrite Hperm. apply elem_of_app. by right.
    + rewrite Hd. by apply bool_decide_eq_false.
Qed.

(** The first two steps of the handler leave the exporter and the chunk
    files alone. *)
Lemma signal_handler_saves io size ssh w :
  io_ok io →
  ∃ w2, _signal_handler io size ssh w
        = bind (export_chunks io size ssh true USERS_EXPORT_THRESHOLD)
               (λ _, ret tt) w2
      ∧ exporter w2 = exporter w
      ∧ chunk_json (disk w2) = chunk_json (disk w).
Proof.
  intros Hio. unfold _signal_handler.
  assert (∃ w1, PipelineState_save io w = (Ok tt, w1)
                ∧ exporter w1 = exporter w
                ∧ chunk_json (disk w1) = chunk_json (disk w))
    as (w1 & E1 & He1 & Hj1).
  { unfold PipelineState_save. run_monad. rewrite Hio. simpl.
    match goal with
    | |- context [save_state io true ?w0] =>
        destruct (save_state_spec io true w0)
          as (w0' & -> & _ & He & _ & (_ & _ & _ & Hj) & _)
    end.
    simpl in *. exists w0'. by rewrite He, Hj. }
  rewrite (BatchFacts.bind_ok _ _ _ _ _ E1).
  destruct (save_state_spec io true w1)
    as (w2 & E2 & _ & He2 & _ & (_ & _ & _ & Hj2) & _).
  rewrite (BatchFacts.bind_ok _ _ _ _ _ E2).
  exists w2. split; [done|]. by rewrite He2, He1, Hj2, Hj1.
Qed.

Lemma slices_nonempty size (l : list string) :
  (0 < size)%Z → l ≠ [] →
  ∃ chunk rest x, slices size l = chunk :: rest ∧ x ∈ chunk.
Proof.
  intros Hsize Hl. unfold slices.
  destruct (py_range_pos (length l) size Hsize) as (m & -> & Hm).
  destruct l as [|x l]; [done|].
  destruct m as [|m]; [simpl in Hm; lia|].
  simpl. eexists _, _, x. split; [reflexivity|].
  destruct (Z.to_nat size) as [|n] eqn:E; [lia|]. simpl. by left.
Qed.

(** X24.  A shutdown signal inside [export_chunks] writes names twice.
    When the signal is delivered after at least one turn of the chunk loop,
    every write succeeding, the handler exports the whole pending buffer
    again under the next ordinals: the chunk files then hold what they held
    before the call, the chunks the cut call had written, and all pending
    names; every name of a chunk the cut call had written is in the files
    twice; and [total_exported] has grown by the number of pending names
    only. *)
Theorem signal_in_export_repeats io chunk_size ssh turns force threshold w :
  io_ok io → (0 < chunk_size)%Z → exports force threshold w → (0 < turns)%nat →
  (∀ m, is_Some (chunk_json (disk w) !! m) → (m ≤ chunk_count (exporter w))%nat) →
  let pending := Str.sorted (elements (pending_users (exporter w))) in
  let written := take turns (slices chunk_size pending) in
  ∃ w', _signal_handler io chunk_size ssh
          (export_chunks_until io chunk_size turns force threshold w).2
        = (Ok tt, w')
      ∧ exported_json (disk w')
        ≡ₚ exported_json (disk w) ++ concat written ++ pending
      ∧ concat written ≠ []
      ∧ (∀ u, u ∈ concat written → u ∈ pending)
      ∧ ¬ NoDup (exported_json (disk w'))
      ∧ total_exported (exporter w')
        = (total_exported (exporter w) + size (pending_users (exporter w)))%nat
      ∧ length (exported_json (disk w'))
        = (length (exported_json (disk w)) + length (concat written)
           + size (pending_users (exporter w)))%nat
      ∧ chunk_count (exporter w')
        = (chunk_count (exporter w) + length written
           + length (slices chunk_size pending))%nat.
Proof.
  intros Hio Hsize Hgo Hturns Hord pending written.
  rewrite (export_chunks_until_spec io chunk_size turns force threshold w
             Hio Hsize Hgo).
  fold pending. fold written. cbn [snd].
  set (w1 := {| dedup := dedup w; exporter := _; current_batch := _; disk := _ |}).
  destruct (signal_handler_saves io chunk_size ssh w1 Hio)
    as (w2 & -> & He2 & Hj2).
  assert (exports true USERS_EXPORT_THRESHOLD w2) as Hgo2.
  { split; [by left|]. rewrite He2. apply Hgo. }
  pose proof (CounterFacts.export_chunks_total io chunk_size ssh true
                USERS_EXPORT_THRESHOLD w2 Hio Hgo2 ltac:(lia)) as Htotal.
  destruct (export_chunks_spec io chunk_size ssh true USERS_EXPORT_THRESHOLD
              w2 Hio)
    as [[Hno _]|[(_ & Hz & _)|(_ & _ & w3 & E3 & _ & _ & _ & Hc3 & _ & _
                               & Hj3 & _)]]; [done|lia|].
  rewrite E3 in Htotal. cbn [snd] in Htotal.
  rewrite (BatchFacts.bind_ok _ _ _ _ _ E3).
  rewrite He2 in Hj3, Hc3, Htotal.
  change (pending_users (exporter w1)) with (pending_users (exporter w)) in *.
  fold pending in Hj3, Hc3.
  change (chunk_count (exporter w1))
    with (chunk_count (exporter w) + length written)%nat in *.
  change (total_exported (exporter w1)) with (total_exported (exporter w)) in *.
  assert (exported_json (disk w3)
          ≡ₚ exported_json (disk w) ++ concat written ++ pending) as Hperm.
  { rewrite (exported_json_ext _ _ Hj3).
    rewrite put_chunks_exported.
    2:{ intros m. rewrite Hj2. apply put_chunks_until_bound, Hord. }
    rewrite (exported_json_ext _ _ Hj2).
    change (disk w1) with (put_chunks (chunk_count (exporter w)) written (disk w)).
    rewrite (put_chunks_exported _ written _ Hord).
    destruct (slices_pos chunk_size pending Hsize) as (-> & _).
    by rewrite <- (assoc (++)). }
  assert (pending ≠ []) as Hne.
  { unfold pending. intros Hnil.
    apply (f_equal length) in Hnil.
    rewrite StrFacts.sorted_length in Hnil. simpl in Hnil.
    apply nil_length_inv, elements_empty_inv in Hnil.
    destruct Hgo as [_ Hp]. apply Hp. by apply leibniz_equiv. }
  assert (∀ u, u ∈ concat written → u ∈ pending) as Hsub.
  { intros u Hu.
    destruct (slices_pos chunk_size pending Hsize) as (Hcat & _).
    rewrite <- Hcat.
    apply PipelineRunFacts.elem_of_concat in Hu as (c & Hu & Hc).
    apply PipelineRunFacts.elem_of_concat. exists c. split; [done|].
    unfold written in Hc. by apply (subseteq_take turns). }
  assert (∃ x, x ∈ concat written) as [x Hx].
  { destruct (slices_nonempty chunk_size pending Hsize Hne)
      as (chunk & rest & x & Hs & Hx).
    exists x. unfold written. rewrite Hs.
    destruct turns as [|t]; [lia|]. simpl. apply elem_of_app. by left. }
  exists w3. split; [done|]. split; [exact Hperm|]. split.
  { intros Hnil. rewrite Hnil in Hx. by apply not_elem_of_nil in Hx. }
  split; [exact Hsub|]. split.
  { rewrite Hperm. intros Hnd.
    apply NoDup_app in Hnd as (_ & _ & Hnd).
    apply NoDup_app in Hnd as (_ & Hdis & _).
    by apply (Hdis x Hx), Hsub. }
  split; [exact Htotal|]. split.
  { rewrite (Permutation_length Hperm), !length_app.
    assert (length pending = size (pending_users (exporter w))) as ->
      by (unfold pending; by rewrite StrFacts.sorted_length).
    lia. }
  exact Hc3.
Qed.

End InterruptFacts.

(** ** Worked instances *)

Module MoreExamples.
Import Pipeline PipelineSpec PipelineRuns PipelineBatch.
Import Checkpoint Gluetun Main ScraperSpec ScraperRuns RunSpec MoreRuns.
Import PipelineShutdown PipelineInterrupts LaterRuns.

(** X1, at two casings of one name. *)
Lemma marked_subreddit_lookup_witness :
  is_subreddit_processed "AskReddit"
    (dedup (mark_subreddit_processed all_ok "askREDDIT" fresh).2) = true
  ∧ is_subreddit_queued "AskReddit"
      (dedup (mark_subreddit_processed all_ok "askREDDIT" fresh).2) = false.
Proof.
  pose proof (StoreFacts.marked_subreddit_lookup all_ok "askREDDIT" "AskReddit"
                fresh eq_refl) as (_ & _ & H3 & H4 & _).
  split; [exact H3|exact H4].
Defined.

(** X2, at two casings of one name. *)
Lemma mark_subreddit_discovered_once_witness :
  ∃ w', (mark_subreddit_discovered all_ok "askREDDIT" fresh).2 = w'
      ∧ mark_subreddit_discovered all_ok "AskReddit" w' = (Ok false, w').
Proof.
  destruct (StoreFacts.mark_subreddit_discovered_once all_ok "askREDDIT"
              "AskReddit" fresh eq_refl) as (w' & E1 & E2).
  exists w'. split; [by rewrite E1|exact E2].
Defined.

(** X4, at the candidates of the example. *)
Lemma add_users_count_witness :
  ∃ n w', add_users all_ok candidates fresh = (Ok n, w')
        ∧ size (pending_users (exporter w'))
          = (size (pending_users (exporter fresh)) + n)%nat.
Proof.
  destruct (StoreFacts.add_users_count all_ok candidates fresh)
    as (n & w' & E & _ & Hsize & _).
  - intros u Hu. change (u ∈ (∅ : gset string)) in Hu.
    by apply not_elem_of_empty in Hu.
  - exists n, w'. split; [exact E|exact Hsize].
Defined.

(** X5, at the store of the example. *)
Lemma dedup_state_round_trip_witness :
  ∃ w', save_state all_ok true admitted = (Ok tt, w')
      ∧ seen_users (DeduplicationManager_init (disk w'))
        = seen_users (dedup admitted).
Proof.
  destruct (StoreFacts.dedup_state_round_trip all_ok admitted eq_refl eq_refl)
    as (w' & E & _ & _ & Hs & _).
  - intros x Hx%elem_of_elements. revert x Hx. apply Forall_forall.
    apply (bool_decide_unpack _). vm_compute. reflexivity.
  - exists w'. split; [exact E|exact Hs].
Defined.

(** X6, at the pending buffer of the example. *)
Lemma export_chunks_bad_size_witness :
  export_chunks all_ok 0 None true USERS_EXPORT_THRESHOLD admitted
  = (Raise ValueError, admitted)
  ∧ ∃ w', export_chunks all_ok (-5) None true USERS_EXPORT_THRESHOLD admitted
          = (Ok 0%nat, w')
        ∧ chunk_json (disk w') = chunk_json (disk admitted)
        ∧ pending_users (exporter w') = ∅.
Proof.
  assert (exports true USERS_EXPORT_THRESHOLD admitted) as Hgo.
  { apply (bool_decide_unpack _). vm_compute. reflexivity. }
  split.
  - apply (CounterFacts.export_chunks_bad_size all_ok 0 None true
             USERS_EXPORT_THRESHOLD admitted (λ _, eq_refl) Hgo). reflexivity.
  - destruct (proj2 (CounterFacts.export_chunks_bad_size all_ok (-5) None true
                       USERS_EXPORT_THRESHOLD admitted (λ _, eq_refl) Hgo))
      as (w' & E & _ & Hj & _ & Hp & _); [reflexivity|].
    exists w'. split; [exact E|]. split; [exact Hj|exact Hp].
Defined.

(** X7, at a history with a restart. *)
Lemma counters_match_files_witness :
  total_exported (exporter (run_ops all_ok 2 None history fresh))
  = length (exported_json (disk (run_ops all_ok 2 None history fresh))).
Proof.
  apply (CounterFacts.counters_match_files all_ok 2 None history
           (λ _, eq_refl) eq_refl).
Defined.

(** X8: ["Alice"] is pending when the process restarts, comes in again
    afterwards, and is not exported. *)
Lemma pending_lost_on_restart_witness :
  "Alice" ∉ exported_json
              (disk (run_ops all_ok 2 None
                       (SaveDedup true :: Restart :: readmit_and_flush)
                       (run_ops all_ok 2 None admit_only fresh))).
Proof.
  apply (CounterFacts.pending_lost_on_restart all_ok 2 None admit_only
           readmit_and_flush "Alice" (λ _, eq_refl) eq_refl eq_refl).
  apply (bool_decide_unpack _). vm_compute. reflexivity.
Defined.

(** X9, at a batch of three subreddits: the second is passed over. *)
Lemma batch_processes_every_other_witness :
  ∃ w', _process_subreddit_batch all_ok 2 None no_commenters three_subreddits fresh
        = (Ok tt, w')
      ∧ current_batch w' = ["beta"]
      ∧ processed_subreddits (dedup w')
        = processed_subreddits (dedup fresh) ∪ list_to_set ["alpha"; "gamma"].
Proof.
  destruct (BatchFacts.batch_processes_every_other all_ok 2 None no_commenters
              three_subreddits fresh (λ _, eq_refl))
    as (w' & E & Hp & Hb & _).
  - lia.
  - apply (bool_decide_unpack _). vm_compute. reflexivity.
  - intros s _. reflexivity.
  - exists w'. split; [exact E|]. split; [exact Hb|exact Hp].
Defined.


(** X12, at the start of a run without checkpoint and a quiet source. *)
Lemma keyword_phase_completes_witness :
  completed_keywords (state (phase_keyword_search Written quiet at_start))
  = NSFW_SEARCH_KEYWORDS.
Proof.
  destruct (RunFacts.keyword_phase_completes Written quiet at_start
              eq_refl eq_refl (NoDup_nil_2 : NoDup (completed_keywords (state at_start))))
    as (_ & _ & Hall).
  destruct Hall as [Hall _]; [intros k; split; reflexivity|].
  rewrite Hall. reflexivity.
Defined.

(** X13, at three restarts that come back on the same address. *)
Lemma restart_budget_witness :
  (Z.of_nat (restart_count
               (restart_many [GotIP "198.51.100.1"; GotIP "198.51.100.1"; NoIP]
                             (controller None))) ≤ 5)%Z.
Proof.
  apply (RunFacts.restart_budget
           [GotIP "198.51.100.1"; GotIP "198.51.100.1"; NoIP] (controller None)).
  simpl. lia.
Defined.

(** X14, at a listing of two pages. *)
Lemma paged_listing_yields_new_names_witness :
  NoDup (Listing.names
           (Listing.yielded
              (Listing.discover_from_popular two_pages 10 nothing_discovered)))
  ∧ (Z.of_nat (Listing.requests
                 (Listing.discover_from_popular two_pages 10 nothing_discovered))
     ≤ 10)%Z.
Proof.
  destruct (ListingFacts.paged_listing_yields_new_names (λ _, two_pages)
              "nsfw" two_pages 10 nothing_discovered
              (Listing.discover_from_popular two_pages 10 nothing_discovered)
              (or_intror (or_introl eq_refl)))
    as (H1 & _ & _ & _ & _ & H6).
  split; [exact H1|exact H6].
Defined.

Lemma no_chunks_yet (w : World) n :
  chunk_json (disk w) = ∅ →
  ∀ m, is_Some (chunk_json (disk w) !! m) → (m ≤ n)%nat.
Proof. intros -> m. rewrite lookup_empty. by intros []. Qed.

(** X18, at the pending buffer of the example. *)
Lemma shutdown_exports_pending_witness :
  ∃ w', _signal_handler all_ok 2 None admitted = (Ok tt, w')
      ∧ pending_users (exporter w') = ∅
      ∧ "bob" ∈ exported_json (disk w').
Proof.
  destruct (ShutdownFacts.shutdown_exports_pending all_ok 2 None admitted
              (λ _, eq_refl))
    as (w' & E & Hp & Hx & _).
  - lia.
  - apply no_chunks_yet. vm_compute. reflexivity.
  - vm_compute. reflexivity.
  - exists w'. split; [exact E|]. split; [exact Hp|].
    apply Hx. right. apply (bool_decide_unpack _). vm_compute. reflexivity.
Defined.

(** X23, at two pending names and chunks of one name: the process is killed
    when both chunk files are written. *)
Lemma killed_export_is_forgotten_witness :
  "bob" ∈ exported_json
            (disk (killed_in_export all_ok 1 2 true USERS_EXPORT_THRESHOLD
                     two_pending))
  ∧ is_user_seen "bob"
      (dedup (killed_in_export all_ok 1 2 true USERS_EXPORT_THRESHOLD
                two_pending)) = false
  ∧ chunk_count
      (exporter (killed_in_export all_ok 1 2 true USERS_EXPORT_THRESHOLD
                   two_pending)) = 0%nat.
Proof.
  destruct (InterruptFacts.killed_export_is_forgotten all_ok 1 2 true
              USERS_EXPORT_THRESHOLD two_pending (λ _, eq_refl))
    as (_ & _ & _ & Hc & _ & _ & Hu).
  - lia.
  - apply (bool_decide_unpack _). vm_compute. reflexivity.
  - apply no_chunks_yet. vm_compute. reflexivity.
  - vm_compute. reflexivity.
  - destruct (Hu "bob") as [H1 H2].
    + apply (bool_decide_unpack _). vm_compute. reflexivity.
    + apply (bool_decide_unpack _). vm_compute. reflexivity.
    + split; [exact H1|]. split; [exact H2|]. rewrite Hc. vm_compute. reflexivity.
Defined.

(** The same kill, followed by what the next process does when ["bob"]
    comes in again: the name is admitted and exported a second time, over
    the first chunk file of the cut call, while the second one stays. *)
Lemma killed_export_exports_twice :
  let w := run_ops all_ok 1 None
             [AddUsers {["bob"]}; ExportChunks true USERS_EXPORT_THRESHOLD]
             (killed_in_export all_ok 1 2 true USERS_EXPORT_THRESHOLD two_pending) in
  exported_json (disk w) = ["bob"; "bob"]
  ∧ chunk_count (exporter w) = 1%nat
  ∧ total_exported (exporter w) = 1%nat
  ∧ ¬ NoDup (exported_json (disk w)).
Proof.
  assert (exported_json
            (disk (run_ops all_ok 1 None
                     [AddUsers {["bob"]}; ExportChunks true USERS_EXPORT_THRESHOLD]
                     (killed_in_export all_ok 1 2 true USERS_EXPORT_THRESHOLD
                        two_pending)))
          = ["bob"; "bob"]) as E by (vm_compute; reflexivity).
  cbv zeta. rewrite E.
  split; [done|]. split; [vm_compute; reflexivity|].
  split; [vm_compute; reflexivity|].
  intros [H _]%NoDup_cons. apply H. by left.
Qed.

(** X24, at the pending buffer of the example and chunks of two names: the
    signal comes when the first chunk is written. *)
Lemma signal_in_export_repeats_witness :
  ∃ w', _signal_handler all_ok 2 None
          (export_chunks_until all_ok 2 1 true USERS_EXPORT_THRESHOLD admitted).2
        = (Ok tt, w')
      ∧ ¬ NoDup (exported_json (disk w'))
      ∧ total_exported (exporter w') = 3%nat
      ∧ length (exported_json (disk w')) = 5%nat.
Proof.
  destruct (InterruptFacts.signal_in_export_repeats all_ok 2 None 1 true
              USERS_EXPORT_THRESHOLD admitted (λ _, eq_refl))
    as (w' & E & _ & _ & _ & Hnd & Ht & Hl & _).
  - lia.
  - apply (bool_decide_unpack _). vm_compute. reflexivity.
  - lia.
  - apply no_chunks_yet. vm_compute. reflexivity.
  - exists w'. split; [exact E|]. split; [exact Hnd|].
    rewrite Ht, Hl. split; vm_compute; reflexivity.
Defined.

(** The same signal, and the process that starts afterwards: the chunk
    files hold five names, two of them twice, and the counter says three. *)
Lemma signalled_export_exports_twice :
  let w := signalled_in_export all_ok 2 None 1 true USERS_EXPORT_THRESHOLD
             admitted in
  exported_json (disk w) = ["ALICE"; "Alice"; "bob"; "ALICE"; "Alice"]
  ∧ chunk_count (exporter w) = 3%nat
  ∧ total_exported (exporter w) = 3%nat.
Proof. cbv zeta. repeat split; vm_compute; reflexivity. Qed.

(** X20, at a listing that holds one post twice and is long enough for no
    fallback to run: the post stays twice. *)
Lemma collect_posts_spec_witness :
  ∃ posts m',
    Gather.collect_posts repeated_post false 0%nat 2 "top" "all" = Ok (posts, m')
    ∧ (m' ≤ 8)%nat
    ∧ posts = [post_at "/r/alpha/comments/1/"; post_at "/r/alpha/comments/1/"].
Proof.
  assert (Gather.collect_posts repeated_post false 0%nat 2 "top" "all"
          = Ok ([post_at "/r/alpha/comments/1/"; post_at "/r/alpha/comments/1/"],
                0%nat)) as E by (vm_compute; reflexivity).
  destruct (GatherFacts.collect_posts_spec _ _ _ _ _ _ _ _ E)
    as (Hm & first & m1 & _).
  eexists _, _. split; [exact E|]. split; [lia|reflexivity].
Defined.

(** X22, at a search that yields three subreddits and batches of two. *)
Lemma run_processes_every_other_witness :
  ∃ r', PipelineRun.run all_ok 2 None 2 nobody three_found PipelineRun.just_started
        = (Ok tt, r')
      ∧ is_subreddit_processed "alpha" (dedup (PipelineRun.world r')) = true
      ∧ is_subreddit_processed "beta" (dedup (PipelineRun.world r')) = false
      ∧ is_subreddit_processed "gamma" (dedup (PipelineRun.world r')) = true.
Proof.
  destruct (PipelineRunFacts.run_processes_every_other all_ok 2 None 2 nobody
              three_found (λ _, eq_refl))
    as (r' & handed & E & Hh & _ & Hp & Hnot & _).
  - lia.
  - apply (bool_decide_unpack _). vm_compute. reflexivity.
  - assert (handed = [["alpha"; "beta"]; ["gamma"]]) as ->
      by (rewrite Hh; vm_compute; reflexivity).
    exists r'. split; [exact E|].
    split; [|split; [apply (Hnot "beta"); apply (bool_decide_unpack _);
                     vm_compute; reflexivity|]];
      unfold is_subreddit_processed; rewrite Hp;
      apply bool_decide_eq_true; vm_compute; set_solver.
Defined.

End MoreExamples.
